(** * SecureShare: the file-transfer protocol of [src/project/src/App.tsx]

    A shallow embedding of the sender ([sendFile], [sendNextChunk] and the
    callbacks it installs), of the receiver ([handleReceivedData],
    [assembleAndDownloadFile]), of the session handlers ([switchMode],
    [resetFileSelection], [joinRoom], [handleFileChange], the connection
    events) and of the two effects of the component, followed by the
    properties of the transfer protocol.

    Conventions of the embedding.
    - React state ([useState]) is the record [State]; the mutable refs
      ([useRef]) are the record [Refs].  A handler is a closure created by
      one render: it READS the state variables of that render, which the
      embedding passes as the explicit argument [snap], and it WRITES through
      the setters, which update the [state] of the [World].  Refs are read
      and written in place.
    - Everything a handler does to the outside (channel sends, close and
      destroy, toasts, console output, the download click) is appended to the
      [effects] of the [World], in program order.  The objects that PeerJS
      creates ([new Peer], [peer.connect]) are handles given to the handler
      that stores them.
    - Asynchronous continuations ([FileReader] callbacks, [setTimeout]
      callbacks) are queued as [Task]s and run by [step].
    - Sizes, offsets and counters are JavaScript integers below 2^53, on
      which [+], [++], [Math.min] and the comparisons are exact: they are
      modelled in [Z].  Division is not exact: [a / b] and [x * 100] are
      rounded to binary64 ([Binary64.fl64]).
    - The calls into PeerJS, React, the toast library and the DOM return
      normally, so the [catch] blocks that only guard these calls are not
      reached; the one exception the code can raise itself, the
      [RangeError] of [Uint8Array.set], is modelled.  The timer that removes
      the download link from the document is left out. *)

From stdpp Require Import base list sorting.
From Stdlib Require Import Strings.String Strings.Byte Strings.Ascii.
From Stdlib Require Import ZArith QArith Qround Qpower Lia Lqa Morphisms.
From Stdlib Require Import Sorting.Sorted.
From Stdlib Require Floats.SpecFloat.

Local Open Scope string_scope.
Local Open Scope list_scope.
Local Open Scope Z_scope.

(** [length] is the length of a list throughout. *)
Abbreviation length := List.length (only parsing).

(** ** Binary64 rounding *)

Module Binary64.
Local Open Scope Q_scope.

(** [ilog2 x], for [0 < x], is the exponent [e] with [2^e <= x < 2^(e+1)]. *)
Definition ilog2 (x : Q) : Z :=
  let d := (Z.log2 (Qnum x) - Z.log2 (Zpos (Qden x)))%Z in
  if Qle_bool (2 ^ d) x then d else (d - 1)%Z.

(** Nearest integer, ties to even. *)
Definition rne (x : Q) : Z :=
  let f := Qfloor x in
  match Qcompare (x - inject_Z f) (1 # 2) with
  | Lt => f
  | Gt => (f + 1)%Z
  | Eq => if Z.even f then f else (f + 1)%Z
  end.

(** Round a positive real to 53 significant bits, nearest-even.  The
    exponent range is not bounded: the quotients and products of the
    program stay far inside the normal range of binary64. *)
Definition fl64_pos (x : Q) : Q :=
  let e := (ilog2 x - 52)%Z in inject_Z (rne (x / 2 ^ e)) * 2 ^ e.

Definition fl64 (x : Q) : Q :=
  match Qcompare x 0 with
  | Eq => 0
  | Gt => fl64_pos x
  | Lt => - fl64_pos (- x)
  end.

End Binary64.

(** ** JavaScript numbers *)

Inductive number :=
| Finite (q : Q)
| PosInfinity
| NegInfinity
| NaN.

(** [a / b] on two integer-valued numbers. *)
Definition js_div (a b : Z) : number :=
  if b =? 0 then
    (if a =? 0 then NaN else if 0 <? a then PosInfinity else NegInfinity)
  else Finite (Binary64.fl64 (inject_Z a / inject_Z b)).

(** [x * c] for a positive integer constant [c]. *)
Definition js_mul (x : number) (c : positive) : number :=
  match x with
  | Finite q => Finite (Binary64.fl64 (q * inject_Z (Zpos c)))
  | other => other
  end.

(** [Math.round]: the nearest integer, ties towards +Infinity. *)
Definition Math_round (x : number) : number :=
  match x with
  | Finite q => Finite (inject_Z (Qfloor (q + (1 # 2))))
  | other => other
  end.

(** [Math.ceil] of a finite number. *)
Definition Math_ceil (q : Q) : Z := Qceiling q.

(** [x === y] on numbers. *)
Definition number_eqb (x y : number) : bool :=
  match x, y with
  | Finite p, Finite q => Qeq_bool p q
  | PosInfinity, PosInfinity => true
  | NegInfinity, NegInfinity => true
  | _, _ => false
  end.

(** [x <= y] on numbers; [NaN] compares with nothing. *)
Definition number_le (x y : number) : Prop :=
  match x, y with
  | Finite p, Finite q => (p <= q)%Q
  | NegInfinity, NaN => False
  | NegInfinity, _ => True
  | NaN, _ => False
  | _, PosInfinity => True
  | _, _ => False
  end.

(** [Math.round((k / n) * 100)], the progress computation of both sides. *)
Definition progressPercent (k n : Z) : number :=
  Math_round (js_mul (js_div k n) 100).

(** *** The same computation with the binary64 operations of the library

    Used only to test [Binary64.fl64] against [SpecFloat]. *)

Definition binary64_of_Z (z : Z) : SpecFloat.spec_float :=
  SpecFloat.binary_normalize 53 1024 z 0 false.

(** [(k / n) * 100] computed with the library's binary64 division and
    multiplication. *)
Definition binary64_percent (k n : Z) : SpecFloat.spec_float :=
  SpecFloat.SFmul 53 1024
    (SpecFloat.SFdiv 53 1024 (binary64_of_Z k) (binary64_of_Z n))
    (binary64_of_Z 100).

Definition binary64_value (x : SpecFloat.spec_float) : option Q :=
  match x with
  | SpecFloat.S754_zero _ => Some 0%Q
  | SpecFloat.S754_finite s m e =>
      Some ((if s then -1 else 1) * inject_Z (Zpos m) * 2 ^ e)%Q
  | _ => None
  end.

Definition agrees_with_binary64 (k n : Z) : bool :=
  match binary64_value (binary64_percent k n) with
  | Some q =>
      Qeq_bool q (Binary64.fl64 (Binary64.fl64 (inject_Z k / inject_Z n) * 100))
  | None => false
  end.

(** ** Files and wire messages *)

Definition ArrayBuffer := list byte.

Definition MAX_SAFE : Z := 2 ^ 53.

Module File.
(** A [File]: [size] is a JavaScript number counting the bytes, so the
    byte count is below 2^53. *)
Record t := mk {
  name : string;
  type : string;
  bytes : list byte;
  size_safe : (Z.of_nat (length bytes) <? MAX_SAFE) = true
}.

Definition size (f : t) : Z := Z.of_nat (length (bytes f)).

(** [Blob.slice(start, end)]: a negative position counts from the end,
    both positions are clamped to [0, size]. *)
Definition rel (f : t) (p : Z) : Z :=
  if p <? 0 then Z.max (size f + p) 0 else Z.min p (size f).

Definition slice (f : t) (start end_ : Z) : ArrayBuffer :=
  let s := rel f start in
  let span := Z.max (rel f end_ - s) 0 in
  take (Z.to_nat span) (drop (Z.to_nat s) (bytes f)).
End File.

Module Data.
(** An object received on the channel, with the properties the handlers
    read; [None] is [undefined]. *)
Record t := mk {
  type : option string;
  name : option string;
  size : option Z;
  fileType : option string;
  data : option ArrayBuffer;
  chunkIndex : option Z;
  totalChunks : option Z
}.
End Data.

Inductive JSValue :=
| VNull
| VUndefined
| VString (s : string)
| VObject (o : Data.t).

Definition typeof (v : JSValue) : string :=
  match v with
  | VNull => "object"
  | VUndefined => "undefined"
  | VString _ => "string"
  | VObject _ => "object"
  end.

Definition CHUNK_SIZE : Z := 16384.

Definition FILE_METADATA (file : File.t) : JSValue :=
  VObject (Data.mk (Some "FILE_METADATA") (Some (File.name file))
             (Some (File.size file)) (Some (File.type file)) None None None).

Definition FILE_CHUNK (result : ArrayBuffer) (chunkIndex totalChunks : Z) : JSValue :=
  VObject (Data.mk (Some "FILE_CHUNK") None None None
             (Some result) (Some chunkIndex) (Some totalChunks)).

Definition FILE_COMPLETE : JSValue :=
  VObject (Data.mk (Some "FILE_COMPLETE") None None None None None None).

Definition FILE_RECEIVED_SUCCESSFULLY : JSValue :=
  VString "FILE_RECEIVED_SUCCESSFULLY".

(** ** Component state *)

Record State := mkState {
  roomId : string;
  joinMode : bool;
  joinRoomId : string;
  connectionStatus : string;
  selectedFile : option File.t;
  transferProgress : number;
  transferStatus : string;
  receivedFileName : string;
  receivedFileSize : Z;
  receivedFileType : string;
  peerReady : bool;
  connectionReady : bool
}.

(** The PeerJS objects are opaque handles. *)
Definition Peer := nat.
Definition DataConnection := nat.

Record Refs := mkRefs {
  peerRef : option Peer;
  connectionRef : option DataConnection;
  fileChunksRef : list (option ArrayBuffer);
  totalChunksRef : Z;
  receivedChunksRef : Z
}.

Inductive Effect :=
| Send (conn : DataConnection) (message : JSValue)
| Close (conn : DataConnection)
| Destroy (peer : Peer)
| ToastSuccess (text : string)
| ToastError (text : string)
| ToastInfo (text : string)
| ConsoleWarn (text : string)
| ConsoleError (text : string)
| Download (filename mime : string) (content : list byte).

(** The closure of one [sendFile] call: its locals and the
    [connectionReady] of the render that created it. *)
Record SendJob := mkJob {
  job_file : File.t;
  job_totalChunks : Z;
  job_chunksProcessed : Z;
  job_connectionReady : bool
}.

Inductive Task :=
| ReadAsArrayBuffer (job : SendJob) (chunk : list byte) (end_ : Z)
| CompleteTimeout (job : SendJob)
| WatchdogTimeout (snap : State).

Record World := mkWorld {
  state : State;
  refs : Refs;
  effects : list Effect;
  pending : list Task
}.

Definition Action := World -> World.

Definition andThen (a b : Action) : Action := fun w => b (a w).
Declare Scope action_scope.
Delimit Scope action_scope with action.
Bind Scope action_scope with Action.
Notation "a ;; b" := (andThen a b)
  (at level 100, b at level 200, right associativity) : action_scope.
Local Open Scope action_scope.

Definition skip : Action := fun w => w.

Definition initialState : State :=
  mkState "" false "" "disconnected" None (Finite 0) "" "" 0 "" false false.

Definition initialRefs : Refs := mkRefs None None [] 0 0.

Definition initialWorld : World := mkWorld initialState initialRefs [] [].

(** *** Setters *)

Definition updState (f : State -> State) : Action :=
  fun w => mkWorld (f (state w)) (refs w) (effects w) (pending w).

Definition updRefs (f : Refs -> Refs) : Action :=
  fun w => mkWorld (state w) (f (refs w)) (effects w) (pending w).

Definition emit (e : Effect) : Action :=
  fun w => mkWorld (state w) (refs w) (effects w ++ [e]) (pending w).

Definition schedule (t : Task) : Action :=
  fun w => mkWorld (state w) (refs w) (effects w) (pending w ++ [t]).

Definition setJoinMode (v : bool) : Action :=
  updState (fun s => mkState (roomId s) v (joinRoomId s) (connectionStatus s)
    (selectedFile s) (transferProgress s) (transferStatus s) (receivedFileName s)
    (receivedFileSize s) (receivedFileType s) (peerReady s) (connectionReady s)).

Definition setJoinRoomId (v : string) : Action :=
  updState (fun s => mkState (roomId s) (joinMode s) v (connectionStatus s)
    (selectedFile s) (transferProgress s) (transferStatus s) (receivedFileName s)
    (receivedFileSize s) (receivedFileType s) (peerReady s) (connectionReady s)).

Definition setConnectionStatus (v : string) : Action :=
  updState (fun s => mkState (roomId s) (joinMode s) (joinRoomId s) v
    (selectedFile s) (transferProgress s) (transferStatus s) (receivedFileName s)
    (receivedFileSize s) (receivedFileType s) (peerReady s) (connectionReady s)).

Definition setSelectedFile (v : option File.t) : Action :=
  updState (fun s => mkState (roomId s) (joinMode s) (joinRoomId s) (connectionStatus s)
    v (transferProgress s) (transferStatus s) (receivedFileName s)
    (receivedFileSize s) (receivedFileType s) (peerReady s) (connectionReady s)).

Definition setTransferProgress (v : number) : Action :=
  updState (fun s => mkState (roomId s) (joinMode s) (joinRoomId s) (connectionStatus s)
    (selectedFile s) v (transferStatus s) (receivedFileName s)
    (receivedFileSize s) (receivedFileType s) (peerReady s) (connectionReady s)).

Definition setTransferStatus (v : string) : Action :=
  updState (fun s => mkState (roomId s) (joinMode s) (joinRoomId s) (connectionStatus s)
    (selectedFile s) (transferProgress s) v (receivedFileName s)
    (receivedFileSize s) (receivedFileType s) (peerReady s) (connectionReady s)).

Definition setReceivedFileName (v : string) : Action :=
  updState (fun s => mkState (roomId s) (joinMode s) (joinRoomId s) (connectionStatus s)
    (selectedFile s) (transferProgress s) (transferStatus s) v
    (receivedFileSize s) (receivedFileType s) (peerReady s) (connectionReady s)).

Definition setReceivedFileSize (v : Z) : Action :=
  updState (fun s => mkState (roomId s) (joinMode s) (joinRoomId s) (connectionStatus s)
    (selectedFile s) (transferProgress s) (transferStatus s) (receivedFileName s)
    v (receivedFileType s) (peerReady s) (connectionReady s)).

Definition setReceivedFileType (v : string) : Action :=
  updState (fun s => mkState (roomId s) (joinMode s) (joinRoomId s) (connectionStatus s)
    (selectedFile s) (transferProgress s) (transferStatus s) (receivedFileName s)
    (receivedFileSize s) v (peerReady s) (connectionReady s)).

Definition setPeerReady (v : bool) : Action :=
  updState (fun s => mkState (roomId s) (joinMode s) (joinRoomId s) (connectionStatus s)
    (selectedFile s) (transferProgress s) (transferStatus s) (receivedFileName s)
    (receivedFileSize s) (receivedFileType s) v (connectionReady s)).

Definition setConnectionReady (v : bool) : Action :=
  updState (fun s => mkState (roomId s) (joinMode s) (joinRoomId s) (connectionStatus s)
    (selectedFile s) (transferProgress s) (transferStatus s) (receivedFileName s)
    (receivedFileSize s) (receivedFileType s) (peerReady s) v).

Definition setPeerRef (v : option Peer) : Action :=
  updRefs (fun r => mkRefs v (connectionRef r) (fileChunksRef r)
    (totalChunksRef r) (receivedChunksRef r)).

Definition setConnectionRef (v : option DataConnection) : Action :=
  updRefs (fun r => mkRefs (peerRef r) v (fileChunksRef r)
    (totalChunksRef r) (receivedChunksRef r)).

Definition setFileChunksRef (v : list (option ArrayBuffer)) : Action :=
  updRefs (fun r => mkRefs (peerRef r) (connectionRef r) v
    (totalChunksRef r) (receivedChunksRef r)).

Definition setTotalChunksRef (v : Z) : Action :=
  updRefs (fun r => mkRefs (peerRef r) (connectionRef r) (fileChunksRef r)
    v (receivedChunksRef r)).

Definition setReceivedChunksRef (v : Z) : Action :=
  updRefs (fun r => mkRefs (peerRef r) (connectionRef r) (fileChunksRef r)
    (totalChunksRef r) v).

(** *** External calls *)

Definition send (conn : DataConnection) (message : JSValue) : Action :=
  emit (Send conn message).

Definition toast_success (text : string) : Action := emit (ToastSuccess text).
Definition toast_error (text : string) : Action := emit (ToastError text).
Definition toast_info (text : string) : Action := emit (ToastInfo text).
Definition console_warn (text : string) : Action := emit (ConsoleWarn text).
Definition console_error (text : string) : Action := emit (ConsoleError text).

(** [a || b] on strings and on numbers: the empty string and 0 are falsy. *)
Definition or_string (a : option string) (b : string) : string :=
  match a with
  | Some s => if String.eqb s "" then b else s
  | None => b
  end.

Definition or_number (a : option Z) (b : Z) : Z :=
  match a with
  | Some z => if z =? 0 then b else z
  | None => b
  end.

Definition str_or (a b : string) : string :=
  if String.eqb a "" then b else a.

Definition is_type (o : Data.t) (tag : string) : bool :=
  match Data.type o with
  | Some s => String.eqb s tag
  | None => false
  end.

(** ** The sender *)

(** [Math.ceil(file.size / CHUNK_SIZE)]; the divisor is not zero, so the
    quotient is finite. *)
Definition totalChunks (file : File.t) : Z :=
  Math_ceil (Binary64.fl64 (inject_Z (File.size file) / inject_Z CHUNK_SIZE)).

Definition sendNextChunk (job : SendJob) (start : Z) : Action :=
  let file := job_file job in
  if File.size file <=? start then
    schedule (CompleteTimeout job)
  else
    let end_ := Z.min (start + CHUNK_SIZE) (File.size file) in
    let chunk := File.slice file start end_ in
    schedule (ReadAsArrayBuffer job chunk end_).

Definition transfer_failed (log text : string) : Action :=
  console_error log ;; toast_error text ;; setTransferStatus "error".

(** [reader.onload], installed by [sendNextChunk]: [result] is
    [e.target.result]. *)
Definition reader_onload (job : SendJob) (result : option ArrayBuffer) (end_ : Z)
  : Action := fun w =>
  match result, connectionRef (refs w), job_connectionReady job with
  | Some buf, Some conn, true =>
      let chunksProcessed := job_chunksProcessed job + 1 in
      let progress := progressPercent chunksProcessed (job_totalChunks job) in
      (send conn (FILE_CHUNK buf (job_chunksProcessed job) (job_totalChunks job)) ;;
       setTransferProgress progress ;;
       setTransferStatus "sending" ;;
       sendNextChunk (mkJob (job_file job) (job_totalChunks job) chunksProcessed
                        (job_connectionReady job)) end_) w
  | _, _, _ =>
      transfer_failed "Connection not ready or reader result is null"
        "Connection not ready. Please try again." w
  end.

Definition reader_onerror : Action :=
  transfer_failed "Error reading file chunk" "Error reading file. Please try again.".

(** The callback of the 500 ms timer that ends a transfer. *)
Definition complete_timeout (job : SendJob) : Action := fun w =>
  match connectionRef (refs w), job_connectionReady job with
  | Some conn, true => (send conn FILE_COMPLETE ;; setTransferStatus "sent") w
  | _, _ => w
  end.

Definition sendFile (snap : State) (file : File.t) : Action := fun w =>
  match connectionRef (refs w) with
  | Some conn =>
      if String.eqb (connectionStatus snap) "connected" && connectionReady snap then
        (setTransferStatus "preparing" ;;
         send conn (FILE_METADATA file) ;;
         sendNextChunk (mkJob file (totalChunks file) 0 (connectionReady snap)) 0) w
      else
        toast_error "No active connection. Please wait for the receiver to connect." w
  | None =>
      toast_error "No active connection. Please wait for the receiver to connect." w
  end.

(** The sender's [conn.on('data')] handler. *)
Definition sender_onData (data : JSValue) : Action :=
  match data with
  | VString s =>
      if String.eqb s "FILE_RECEIVED_SUCCESSFULLY" then
        toast_success "File successfully received by the receiver!" ;;
        setTransferStatus "completed"
      else skip
  | _ => skip
  end.

(** ** The receiver *)

(** [array[i] = v] on a JavaScript array with holes: an index inside the
    array overwrites, an index beyond the end grows the array and leaves
    holes, and a negative key is an ordinary property that changes neither
    length nor elements.  (The limit of 2^32 - 1 on the length of an array
    is not modelled.) *)
Definition array_set {A} (l : list (option A)) (i : Z) (v : A) : list (option A) :=
  if 0 <=? i then
    let n := Z.to_nat i in
    if (n <? length l)%nat then <[n := Some v]> l
    else l ++ replicate (n - length l)%nat None ++ [Some v]
  else l.

(** [chunks.reduce((total, chunk) => total + (chunk ? chunk.byteLength : 0), 0)] *)
Definition byteLength_sum (chunks : list (option ArrayBuffer)) : Z :=
  foldl (fun total chunk =>
           total + match chunk with
                   | Some c => Z.of_nat (length c)
                   | None => 0
                   end) 0 chunks.

(** [new Uint8Array(n)] is zero-filled. *)
Definition new_Uint8Array (n : Z) : list byte := replicate (Z.to_nat n) x00.

(** [target.set(source, offset)]; [None] is the [RangeError] raised when
    the source does not fit. *)
Definition Uint8Array_set (target source : list byte) (offset : nat)
  : option (list byte) :=
  if (offset + length source <=? length target)%nat then
    Some (take offset target ++ source ++ drop (offset + length source)%nat target)
  else None.

(** The [for (const chunk of fileChunksRef.current)] loop. *)
Fixpoint copy_chunks (chunks : list (option ArrayBuffer)) (fileData : list byte)
    (offset : nat) : option (list byte) :=
  match chunks with
  | [] => Some fileData
  | None :: rest => copy_chunks rest fileData offset
  | Some chunk :: rest =>
      match Uint8Array_set fileData chunk offset with
      | Some fileData' => copy_chunks rest fileData' (offset + length chunk)%nat
      | None => None
      end
  end.

Definition assembleAndDownloadFile (snap : State) : Action := fun w =>
  let chunks := fileChunksRef (refs w) in
  if (length chunks =? 0)%nat then
    (console_error "No file chunks to assemble" ;;
     toast_error "Error downloading file: No data received" ;;
     setTransferStatus "error") w
  else
    let fileSize := byteLength_sum chunks in
    if fileSize =? 0 then
      (console_error "File size is zero" ;;
       toast_error "Error downloading file: Empty file" ;;
       setTransferStatus "error") w
    else
      match copy_chunks chunks (new_Uint8Array fileSize) 0 with
      | Some fileData =>
          (emit (Download (str_or (receivedFileName snap) "downloaded_file")
                   (str_or (receivedFileType snap) "application/octet-stream")
                   fileData) ;;
           setTransferStatus "completed" ;;
           toast_success "File downloaded successfully!" ;;
           (fun w' =>
              match connectionRef (refs w'), connectionReady snap with
              | Some conn, true => send conn FILE_RECEIVED_SUCCESSFULLY w'
              | _, _ => w'
              end)) w
      | None =>
          (console_error "Error assembling and downloading file:" ;;
           toast_error "Error downloading file" ;;
           setTransferStatus "error") w
      end.

(** The callback of the one-second timer armed at 100 percent. *)
Definition watchdog_timeout (snap : State) : Action :=
  if String.eqb (transferStatus snap) "receiving" then assembleAndDownloadFile snap
  else skip.

Definition handleReceivedData (snap : State) (data : JSValue) : Action :=
  match data with
  | VObject o =>
      if is_type o "FILE_METADATA" then
        setFileChunksRef [] ;;
        setReceivedChunksRef 0 ;;
        setTotalChunksRef 0 ;;
        setReceivedFileName (or_string (Data.name o) "unknown") ;;
        setReceivedFileSize (or_number (Data.size o) 0) ;;
        setReceivedFileType (or_string (Data.fileType o) "") ;;
        setTransferStatus "receiving" ;;
        toast_info (String.append "Receiving file: " (or_string (Data.name o) "unknown"))
      else if is_type o "FILE_CHUNK" then
        match Data.data o with
        | None => console_warn "Received chunk without data"
        | Some buf =>
            (fun w =>
               match Data.totalChunks o with
               | Some n =>
                   if (totalChunksRef (refs w) =? 0) && negb (n =? 0)
                   then setTotalChunksRef n w
                   else w
               | None => w
               end) ;;
            match Data.chunkIndex o with
            | Some chunkIndex =>
                (fun w =>
                   setFileChunksRef
                     (array_set (fileChunksRef (refs w)) chunkIndex buf) w) ;;
                (fun w => setReceivedChunksRef (receivedChunksRef (refs w) + 1) w) ;;
                (fun w =>
                   let progress :=
                     progressPercent (receivedChunksRef (refs w))
                       (totalChunksRef (refs w)) in
                   (setTransferProgress progress ;;
                    if number_eqb progress (Finite 100)
                    then schedule (WatchdogTimeout snap)
                    else skip) w)
            | None => skip
            end
        end
      else if is_type o "FILE_COMPLETE" then assembleAndDownloadFile snap
      else skip
  | other =>
      console_warn (String.append "Received invalid data format: " (typeof other))
  end.

(** The receiver's [conn.on('data')] handler. *)
Definition receiver_onData (snap : State) (data : JSValue) : Action :=
  match data with
  | VNull | VUndefined => console_warn "Received null or undefined data"
  | _ => handleReceivedData snap data
  end.

(** ** Session controller *)

Definition resetFileSelection : Action :=
  setSelectedFile None ;; setTransferProgress (Finite 0) ;; setTransferStatus "".

Definition switchMode (snap : State) : Action :=
  setJoinMode (negb (joinMode snap)) ;;
  setConnectionStatus "disconnected" ;;
  setSelectedFile None ;;
  setTransferProgress (Finite 0) ;;
  setTransferStatus "" ;;
  setJoinRoomId "" ;;
  setPeerReady false ;;
  setConnectionReady false ;;
  (fun w =>
     match connectionRef (refs w) with
     | Some conn => (emit (Close conn) ;; setConnectionRef None) w
     | None => w
     end) ;;
  (fun w =>
     match peerRef (refs w) with
     | Some peer => (emit (Destroy peer) ;; setPeerRef None) w
     | None => w
     end).

(** A handler called from the user interface is the closure of the latest
    render: its snapshot is the current state. *)
Definition click (handler : State -> Action) : Action :=
  fun w => handler (state w) w.

(** ** Running the queued continuations *)

Inductive ReadOutcome := ReadLoaded | ReadFailed.

Definition run_task (t : Task) (r : ReadOutcome) : Action :=
  match t with
  | ReadAsArrayBuffer job chunk end_ =>
      match r with
      | ReadLoaded => reader_onload job (Some chunk) end_
      | ReadFailed => reader_onerror
      end
  | CompleteTimeout job => complete_timeout job
  | WatchdogTimeout snap => watchdog_timeout snap
  end.

(** One turn of the event loop: the oldest continuation runs. *)
Definition step (r : ReadOutcome) (w : World) : World :=
  match pending w with
  | [] => w
  | t :: rest => run_task t r (mkWorld (state w) (refs w) (effects w) rest)
  end.

(** [n] turns in which every read succeeds. *)
Fixpoint run (n : nat) (w : World) : World :=
  match n with
  | O => w
  | S n' => run n' (step ReadLoaded w)
  end.

(** The worlds reached after each of the next [n] turns. *)
Fixpoint trajectory (n : nat) (w : World) : list World :=
  match n with
  | O => []
  | S n' => step ReadLoaded w :: trajectory n' (step ReadLoaded w)
  end.

(** The receiver handles the messages of a list in order. *)
Definition receive (snap : State) (messages : list JSValue) (w : World) : World :=
  foldl (fun w' m => handleReceivedData snap m w') w messages.

(** The worlds after each message. *)
Fixpoint receive_trajectory (snap : State) (messages : list JSValue) (w : World)
  : list World :=
  match messages with
  | [] => []
  | m :: rest =>
      handleReceivedData snap m w :: receive_trajectory snap rest (handleReceivedData snap m w)
  end.

(** *** Observations *)

Definition sent_messages (es : list Effect) : list JSValue :=
  omap (fun e => match e with Send _ m => Some m | _ => None end) es.

Definition downloads (es : list Effect) : list (list byte) :=
  omap (fun e => match e with Download _ _ c => Some c | _ => None end) es.

Definition chunk_payload (m : JSValue) : option ArrayBuffer :=
  match m with
  | VObject o => if is_type o "FILE_CHUNK" then Data.data o else None
  | _ => None
  end.

Definition progress_of (w : World) : number := transferProgress (state w).

(** ** The course of an undisturbed transfer

    The definitions below describe, in closed form, the worlds that the
    sender and the receiver go through when a file is sent over a live
    connection; the theorems show that the handlers above produce them. *)

(** Offset of chunk [j] in the file. *)
Definition chunk_start (file : File.t) (j : nat) : Z :=
  Z.min (Z.of_nat j * CHUNK_SIZE) (File.size file).

Definition nth_chunk (file : File.t) (j : nat) : ArrayBuffer :=
  File.slice file (chunk_start file j) (chunk_start file (S j)).

Definition chunk_message (file : File.t) (j : nat) : JSValue :=
  FILE_CHUNK (nth_chunk file j) (Z.of_nat j) (totalChunks file).

Definition chunk_count (file : File.t) : nat := Z.to_nat (totalChunks file).

Definition transfer_messages (file : File.t) : list JSValue :=
  FILE_METADATA file :: map (chunk_message file) (seq 0 (chunk_count file))
    ++ [FILE_COMPLETE].

(** The sender may start: a connection object is held, and the render that
    created the handler saw it connected and ready. *)
Definition sender_ready (snap : State) (conn : DataConnection) (w : World) : Prop :=
  connectionRef (refs w) = Some conn /\
  connectionStatus snap = "connected" /\
  connectionReady snap = true /\
  pending w = [].

Definition progress_after (old : number) (file : File.t) (j : nat) : number :=
  match j with
  | O => old
  | S _ => progressPercent (Z.of_nat j) (totalChunks file)
  end.

Definition sending_state (s : State) (file : File.t) (status : string) (j : nat)
  : State :=
  mkState (roomId s) (joinMode s) (joinRoomId s) (connectionStatus s)
    (selectedFile s) (progress_after (transferProgress s) file j) status
    (receivedFileName s) (receivedFileSize s) (receivedFileType s)
    (peerReady s) (connectionReady s).

Definition sent_so_far (w : World) (conn : DataConnection) (file : File.t) (j : nat)
  : list Effect :=
  effects w ++ Send conn (FILE_METADATA file)
    :: map (fun i => Send conn (chunk_message file i)) (seq 0 j).

(** The sender after [j] chunks have been read and sent. *)
Definition sender_after (w : World) (conn : DataConnection) (file : File.t) (j : nat)
  : World :=
  sendNextChunk (mkJob file (totalChunks file) (Z.of_nat j) true) (chunk_start file j)
    (mkWorld
       (sending_state (state w) file
          (match j with O => "preparing" | S _ => "sending" end) j)
       (refs w) (sent_so_far w conn file j) []).

(** The sender after the completion timer has fired. *)
Definition sender_done (w : World) (conn : DataConnection) (file : File.t) : World :=
  mkWorld (sending_state (state w) file "sent" (chunk_count file)) (refs w)
    (sent_so_far w conn file (chunk_count file) ++ [Send conn FILE_COMPLETE]) [].

(** The watchdog timers armed while the first [j] chunks arrived. *)
Fixpoint watchdogs (snap : State) (file : File.t) (j : nat) : list Task :=
  match j with
  | O => []
  | S j' =>
      watchdogs snap file j' ++
      (if number_eqb (progressPercent (Z.of_nat j) (totalChunks file)) (Finite 100)
       then [WatchdogTimeout snap] else [])
  end.

Definition receiving_state (s : State) (file : File.t) (status : string) (j : nat)
  : State :=
  mkState (roomId s) (joinMode s) (joinRoomId s) (connectionStatus s)
    (selectedFile s) (progress_after (transferProgress s) file j) status
    (or_string (Some (File.name file)) "unknown")
    (or_number (Some (File.size file)) 0)
    (or_string (Some (File.type file)) "")
    (peerReady s) (connectionReady s).

Definition receiving_refs (r : Refs) (file : File.t) (j : nat) : Refs :=
  mkRefs (peerRef r) (connectionRef r)
    (map (fun i => Some (nth_chunk file i)) (seq 0 j))
    (match j with O => 0 | S _ => totalChunks file end)
    (Z.of_nat j).

Definition announced (w : World) (file : File.t) : list Effect :=
  effects w ++
  [ToastInfo (String.append "Receiving file: "
                (or_string (Some (File.name file)) "unknown"))].

(** The receiver after the metadata and the first [j] chunks. *)
Definition receiver_after (snap : State) (w : World) (file : File.t) (j : nat)
  : World :=
  mkWorld (receiving_state (state w) file "receiving" j)
    (receiving_refs (refs w) file j)
    (announced w file)
    (pending w ++ watchdogs snap file j).

(** The acknowledgement goes back when a connection object is held and
    the handler saw the connection ready. *)
Definition acknowledgement (snap : State) (r : Refs) : list Effect :=
  match connectionRef r, connectionReady snap with
  | Some conn, true => [Send conn FILE_RECEIVED_SUCCESSFULLY]
  | _, _ => []
  end.

(** What finalization adds to the effects of the receiver. *)
Definition delivery (snap : State) (r : Refs) (file : File.t) : list Effect :=
  [Download (str_or (receivedFileName snap) "downloaded_file")
     (str_or (receivedFileType snap) "application/octet-stream")
     (File.bytes file);
   ToastSuccess "File downloaded successfully!"] ++ acknowledgement snap r.

(** The receiver after the whole transfer of a non-empty file. *)
Definition receiver_done (snap : State) (w : World) (file : File.t) : World :=
  mkWorld (receiving_state (state w) file "completed" (chunk_count file))
    (receiving_refs (refs w) file (chunk_count file))
    (announced w file ++ delivery snap (refs w) file)
    (pending w ++ watchdogs snap file (chunk_count file)).

(** The bytes stored in an array of chunks, in index order. *)
Definition stored_bytes (chunks : list (option ArrayBuffer)) : list byte :=
  List.concat (omap id chunks).

(** The size the specification gives to chunk [j] of [total] chunks of a
    file of [size] bytes: a full chunk, except for the last one, which holds
    the remainder when there is one. *)
Definition expected_chunk_size (size : Z) (total j : nat) : Z :=
  if (S j =? total)%nat then
    (if size mod CHUNK_SIZE =? 0 then CHUNK_SIZE else size mod CHUNK_SIZE)
  else CHUNK_SIZE.

(** The effects that happened between two worlds of one run. *)
Definition effects_since (before after : World) : list Effect :=
  drop (length (effects before)) (effects after).

(** ** Sample data *)

(** A file of 50000 bytes. *)
Definition sample_file : File.t :=
  File.mk "holiday.jpg" "image/jpeg" (replicate (Z.to_nat 50000) x2a) eq_refl.

(** A sender that holds an open connection. *)
Definition connected_state : State :=
  mkState "a1b2c3d4" false "" "connected" None (Finite 0) "" "" 0 "" true true.

Definition connected_sender : World :=
  mkWorld connected_state (mkRefs (Some 1%nat) (Some 2%nat) [] 0 0) [] [].

(** A receiver that holds an open connection; its handlers were created
    by the render in which [joinRoom] ran. *)
Definition joined_state : State :=
  mkState "" true "a1b2c3d4" "connected" None (Finite 0) "" "" 0 "" true true.

Definition connected_receiver : World :=
  mkWorld joined_state (mkRefs (Some 3%nat) (Some 4%nat) [] 0 0) [] [].

(** Metadata of two files, and a receiver that has so far got the first
    of the two chunks of the first file. *)
Definition first_metadata : JSValue :=
  VObject (Data.mk (Some "FILE_METADATA") (Some "a.txt") (Some 20000)
             (Some "text/plain") None None None).

Definition second_metadata : JSValue :=
  VObject (Data.mk (Some "FILE_METADATA") (Some "b.txt") (Some 5)
             (Some "text/plain") None None None).

Definition full_chunk : ArrayBuffer := replicate (Z.to_nat 16384) x61.

Definition half_received : World :=
  receive joined_state [first_metadata; FILE_CHUNK full_chunk 0 2] connected_receiver.

(** A chunk message without its [data] property. *)
Definition chunk_without_data : Data.t :=
  Data.mk (Some "FILE_CHUNK") None None None None (Some 0) (Some 2).

(** A sender whose connection is not open yet. *)
Definition waiting_state : State :=
  mkState "a1b2c3d4" false "" "waiting" None (Finite 0) "" "" 0 "" true false.

(** A second, small file and a file without bytes. *)
Definition small_file : File.t :=
  File.mk "note.txt" "text/plain" (replicate 5 x62) eq_refl.

Definition empty_file : File.t := File.mk "empty.txt" "text/plain" [] eq_refl.

(** A receiver that has counted 198 chunks of a transfer of 200. *)
Definition nearly_complete : World :=
  mkWorld joined_state
    (mkRefs (Some 3%nat) (Some 4%nat) (replicate 198 (Some [x61])) 200 198) [] [].

(** ** Joining a room and the connection events

    A Rocq string is read as a JavaScript string whose code units are below
    256. *)

(** White space and line terminators, the characters [trim] removes. *)
Definition is_white_space (c : ascii) : bool :=
  existsb (Nat.eqb (nat_of_ascii c)) [9; 10; 11; 12; 13; 32; 160]%nat.

Fixpoint trimStart (s : string) : string :=
  match s with
  | EmptyString => EmptyString
  | String c rest => if is_white_space c then trimStart rest else s
  end.

Definition reverse_string (s : string) : string :=
  string_of_list_ascii (rev (list_ascii_of_string s)).

Definition trimEnd (s : string) : string :=
  reverse_string (trimStart (reverse_string s)).

(** [s.trim()] *)
Definition trim (s : string) : string := trimEnd (trimStart s).

(** [joinRoom]; [peer] is the object made by [new Peer(peerConfig)].  The
    event handlers it installs are the definitions that follow; the data
    handler keeps the [snap] of this call. *)
Definition joinRoom (snap : State) (peer : Peer) : Action :=
  if String.eqb (trim (joinRoomId snap)) "" then
    toast_error "Please enter a valid room code"
  else setPeerRef (Some peer).

(** [peer.on('open')] of the receiver; [conn] is the object returned by
    [peer.connect]. *)
Definition join_peer_onOpen (conn : DataConnection) : Action :=
  setPeerReady true ;;
  setConnectionRef (Some conn) ;;
  setConnectionStatus "connecting".

Definition join_conn_onOpen : Action :=
  setConnectionStatus "connected" ;;
  setConnectionReady true ;;
  toast_success "Connected to sender! Waiting for files...".

(** [conn.on('close')], the same on both sides. *)
Definition conn_onClose : Action :=
  setConnectionStatus "disconnected" ;;
  setConnectionReady false ;;
  toast_error "Connection closed".

(** [conn.on('error')], the same on both sides; [message] is
    [err.message]. *)
Definition conn_onError (message : option string) : Action :=
  console_error "Connection error:" ;;
  toast_error (String.append "Connection error: " (or_string message "Unknown error")) ;;
  setConnectionStatus "error" ;;
  setConnectionReady false.

(** [peer.on('error')] of the receiver; [type] is [err.type]. *)
Definition join_peer_onError (type : string) (message : option string) : Action :=
  console_error "Peer error:" ;;
  (if String.eqb type "peer-unavailable"
   then toast_error "Room not found. Please check the room code."
   else toast_error (String.append "Connection error: "
                       (or_string message "Unknown error"))) ;;
  setConnectionStatus "error" ;;
  setPeerReady false.

(** [peer.on('connection')] of the sender. *)
Definition sender_onConnection (conn : DataConnection) : Action :=
  setConnectionRef (Some conn) ;;
  setConnectionStatus "connecting".

(** [conn.on('open')] of the sender, without the timer it may arm. *)
Definition sender_conn_onOpen : Action :=
  setConnectionStatus "connected" ;;
  setConnectionReady true ;;
  toast_success "Receiver connected! You can now send files.".

(** The file of the delayed [sendFile(selectedFile)] that
    [conn.on('open')] arms: the one selected in the render that installed
    the handler, if any. *)
Definition sender_conn_onOpen_timer (snap : State) : option File.t :=
  selectedFile snap.

(** [handleFileChange]; [files] is [event.target.files], empty when it is
    [null]. *)
Definition handleFileChange (snap : State) (files : list File.t) : Action :=
  match files with
  | [] => skip
  | file :: _ =>
      setSelectedFile (Some file) ;;
      (fun w =>
         if String.eqb (connectionStatus snap) "connected"
            && match connectionRef (refs w) with Some _ => true | None => false end
            && connectionReady snap
         then sendFile snap file w
         else if negb (String.eqb (connectionStatus snap) "connected")
         then toast_info "File selected. It will be sent when the receiver connects." w
         else toast_info "File selected. Waiting for connection to be ready..." w)
  end.

(** The effect with dependencies [connectionReady], [selectedFile] and
    [connectionStatus]: React runs it after a render in which one of them
    has changed, with the state of that render. *)
Definition sendWhenReady (snap : State) : Action :=
  match selectedFile snap with
  | Some file =>
      if connectionReady snap && String.eqb (connectionStatus snap) "connected"
      then sendFile snap file
      else skip
  | None => skip
  end.

(** ** The effect on [joinMode]

    The first effect of the component has the one dependency [joinMode]:
    React runs it after the first render and after every render in which
    [joinMode] has changed, and before it the cleanup that its previous
    run returned. *)

Definition setRoomId (v : string) : Action :=
  updState (fun s => mkState v (joinMode s) (joinRoomId s) (connectionStatus s)
    (selectedFile s) (transferProgress s) (transferStatus s) (receivedFileName s)
    (receivedFileSize s) (receivedFileType s) (peerReady s) (connectionReady s)).

(** The body of the effect in the render [snap]; [newRoomId] is
    [uuidv4().substring(0, 8)] and [peer] the object made by
    [new Peer(newRoomId, peerConfig)].  The handlers it installs on the
    peer are [sender_onConnection] and the definitions after it. *)
Definition initializePeer (snap : State) (newRoomId : string) (peer : Peer) : Action :=
  if joinMode snap then skip
  else setRoomId newRoomId ;; setPeerRef (Some peer).

(** The cleanup that a run of the effect in sender mode returns; a run in
    join mode returns none. *)
Definition initializePeer_cleanup : Action :=
  (fun w =>
     match connectionRef (refs w) with
     | Some conn => emit (Close conn) w
     | None => w
     end) ;;
  (fun w =>
     match peerRef (refs w) with
     | Some peer => emit (Destroy peer) w
     | None => w
     end) ;;
  setPeerReady false ;;
  setConnectionReady false.

(** What React does with this effect when the component has rendered
    again after a handler: [shown] is the [joinMode] of the render that was
    on screen, the state of the world is that of the new render. *)
Definition joinMode_effect (shown : bool) (newRoomId : string) (peer : Peer) : Action :=
  fun w =>
    if Bool.eqb shown (joinMode (state w)) then w
    else ((if shown then skip else initializePeer_cleanup) ;;
          initializePeer (state w) newRoomId peer) w.

(** A click on the role switch ([onClick={switchMode}]): the handler of the
    render on screen, then the render that follows it. *)
Definition switch_click (newRoomId : string) (peer : Peer) : Action :=
  fun w => joinMode_effect (joinMode (state w)) newRoomId peer (click switchMode w).

(** A receiver that has typed a room code and has not joined yet. *)
Definition joining_state : State :=
  mkState "" true "a1b2c3d4" "disconnected" None (Finite 0) "" "" 0 "" false false.

Definition joining_receiver : World := mkWorld joining_state initialRefs [] [].

(** ** Closed forms for disturbed and reordered transfers *)

(** The job of a transfer that has sent [j] chunks. *)
Definition job_at (file : File.t) (j : nat) : SendJob :=
  mkJob file (totalChunks file) (Z.of_nat j) true.

(** What the successful read of chunk [j] does before it goes on. *)
Definition chunk_sent (conn : DataConnection) (file : File.t) (j : nat) : Action :=
  send conn (chunk_message file j) ;;
  setTransferProgress (progressPercent (Z.of_nat (S j)) (totalChunks file)) ;;
  setTransferStatus "sending".

(** The same for the [k] chunks from [j] on. *)
Fixpoint chunks_sent (conn : DataConnection) (file : File.t) (j k : nat)
    (w : World) : World :=
  match k with
  | O => w
  | S k' => chunks_sent conn file (S j) k' (chunk_sent conn file j w)
  end.

(** The sender at the point where chunk [j] is the next one to read. *)
Definition reading_chunk (file : File.t) (j : nat) (w : World) : World :=
  sendNextChunk (job_at file j) (chunk_start file j) w.

(** The array of chunks after the chunks with the indices of [l] have
    arrived in this order. *)
Definition stored_chunks (file : File.t) (l : list nat) : list (option ArrayBuffer) :=
  foldl (fun chunks i => array_set chunks (Z.of_nat i) (nth_chunk file i)) [] l.

(** The receiver after the metadata and the chunks with the indices of
    [l], in this order. *)
Definition receiver_after_any (snap : State) (w : World) (file : File.t)
    (l : list nat) : World :=
  mkWorld (receiving_state (state w) file "receiving" (length l))
    (mkRefs (peerRef (refs w)) (connectionRef (refs w)) (stored_chunks file l)
       (match l with [] => 0 | _ :: _ => totalChunks file end)
       (Z.of_nat (length l)))
    (announced w file)
    (pending w ++ watchdogs snap file (length l)).

(** The number of chunks an array holds. *)
Definition stored_count (chunks : list (option ArrayBuffer)) : nat :=
  length (omap id chunks).

(** A message is the metadata of a transfer. *)
Definition is_metadata (m : JSValue) : bool :=
  match m with
  | VObject o => is_type o "FILE_METADATA"
  | _ => false
  end.

(** The receiver's data handler runs on the messages of a list in
    order. *)
Definition receive_onData (snap : State) (messages : list JSValue) (w : World) : World :=
  foldl (fun w' m => receiver_onData snap m w') w messages.

(** ** Closed forms for two transfers in lockstep *)

(** The continuation that [sendNextChunk] queues when chunk [j] is the
    next one to read. *)
Definition task_at (file : File.t) (j : nat) : Task :=
  let start := chunk_start file j in
  if File.size file <=? start then CompleteTimeout (job_at file j)
  else
    let end_ := Z.min (start + CHUNK_SIZE) (File.size file) in
    ReadAsArrayBuffer (job_at file j) (File.slice file start end_) end_.

(** Every element twice. *)
Definition twice_each {A} (l : list A) : list A := flat_map (fun x => [x; x]) l.

(** Two transfers of one file send each of the [k] chunks from [j] on
    twice. *)
Fixpoint chunks_sent_twice (conn : DataConnection) (file : File.t) (j k : nat)
    (w : World) : World :=
  match k with
  | O => w
  | S k' =>
      chunks_sent_twice conn file (S j) k'
        (chunk_sent conn file j (chunk_sent conn file j w))
  end.

(** ** Predicates on states, actions and arrays *)

(** The fields of the state that sending chunks does not touch. *)
Definition same_session (s s' : State) : Prop :=
  roomId s' = roomId s /\ joinMode s' = joinMode s /\ joinRoomId s' = joinRoomId s /\
  connectionStatus s' = connectionStatus s /\ selectedFile s' = selectedFile s /\
  receivedFileName s' = receivedFileName s /\ receivedFileSize s' = receivedFileSize s /\
  receivedFileType s' = receivedFileType s /\ peerReady s' = peerReady s /\
  connectionReady s' = connectionReady s.

(** An action that leaves the queue alone can be moved across the
    queueing of the next read. *)
Definition keeps_queue (a : Action) : Prop :=
  forall (t : Task) (w : World), a (schedule t w) = schedule t (a w).

(** The array never ends in a hole. *)
Definition no_trailing_hole (l : list (option ArrayBuffer)) : Prop :=
  l = [] \/ exists v : ArrayBuffer, last l = Some (Some v).

(** * Properties *)

(** ** Binary64 rounding is monotone and exact on representable values *)

Module Binary64Facts.
Import Binary64.
Local Open Scope Q_scope.

Lemma pow2_pos (e : Z) : 0 < 2 ^ e.
Proof. apply Qpower_0_lt. reflexivity. Qed.

Lemma pow2_succ (e : Z) : 2 ^ (e + 1) == 2 * 2 ^ e.
Proof. rewrite Qpower_plus by discriminate. rewrite Qpower_1_r. ring. Qed.

Lemma pow2_pred (e : Z) : 2 * 2 ^ (e - 1) == 2 ^ e.
Proof. rewrite <- pow2_succ. replace (e - 1 + 1)%Z with e by lia. reflexivity. Qed.

Lemma pow2_inj_lt (a b : Z) : 2 ^ a < 2 ^ b -> (a < b)%Z.
Proof. intros H. apply (Qpower_lt_compat_l_inv 2); [exact H | reflexivity]. Qed.

Lemma pow2_le (a b : Z) : (a <= b)%Z -> 2 ^ a <= 2 ^ b.
Proof. intros H. apply Qpower_le_compat_l; [exact H | discriminate]. Qed.

Lemma Zlog2_Q (a : Z) : (0 < a)%Z ->
  2 ^ Z.log2 a <= inject_Z a /\ inject_Z a < 2 * 2 ^ Z.log2 a.
Proof.
  intros Ha. destruct (Z.log2_spec a Ha) as [H1 H2].
  pose proof (Z.log2_nonneg a) as Hn.
  rewrite <- pow2_succ.
  rewrite <- (Zpower_Qpower 2 (Z.log2 a)) by lia.
  rewrite <- (Zpower_Qpower 2 (Z.log2 a + 1)) by lia.
  rewrite <- Zle_Qle, <- Zlt_Qlt. replace (Z.log2 a + 1)%Z with (Z.succ (Z.log2 a)) by lia. split; assumption.
Qed.

Lemma ilog2_spec (x : Q) : 0 < x -> 2 ^ ilog2 x <= x /\ x < 2 ^ (ilog2 x + 1).
Proof.
  intros Hx. unfold ilog2.
  destruct x as [a b]. cbn [Qnum Qden].
  assert (Ha : (0 < a)%Z).
  { unfold Qlt in Hx. cbn in Hx. lia. }
  destruct (Zlog2_Q a Ha) as [A1 A2].
  destruct (Zlog2_Q (Zpos b) eq_refl) as [B1 B2].
  set (la := Z.log2 a) in *. set (lb := Z.log2 (Zpos b)) in *.
  assert (Hd : 2 ^ (la - lb) * 2 ^ lb == 2 ^ la).
  { rewrite <- Qpower_plus by discriminate. replace (la - lb + lb)%Z with la by lia. reflexivity. }
  assert (Hx' : (a # b) * inject_Z (Zpos b) == inject_Z a).
  { rewrite (Qmake_Qdiv a b). field. discriminate. }
  pose proof (pow2_pos (la - lb)) as P1. pose proof (pow2_pos lb) as P2.
  pose proof (pow2_pos la) as P3.
  set (t := a # b) in *. set (P := 2 ^ (la - lb)) in *.
  set (A := 2 ^ la) in *. set (B := 2 ^ lb) in *.
  set (qa := inject_Z a) in *. set (qb := inject_Z (Zpos b)) in *.
  assert (Hup : t < 2 * P).
  { apply Qnot_le_lt. intros Hc.
    assert (2 * P * qb <= t * qb) by (apply Qmult_le_compat_r; lra).
    assert (P * B <= P * qb) by (apply Qmult_le_l; lra). lra. }
  assert (Hlo : P <= 2 * t).
  { apply Qnot_lt_le. intros Hc.
    assert (2 * t * qb < P * qb) by (apply Qmult_lt_compat_r; lra).
    assert (P * qb < P * (2 * B)) by (apply Qmult_lt_l; lra). lra. }
  destruct (Qle_bool P t) eqn:E.
  - apply Qle_bool_iff in E. split; [exact E|]. unfold P. rewrite pow2_succ. exact Hup.
  - assert (~ P <= t) as E' by (rewrite <- Qle_bool_iff; congruence).
    apply Qnot_le_lt in E'.
    replace (la - lb - 1 + 1)%Z with (la - lb)%Z by lia. fold P. split; [|exact E'].
    pose proof (pow2_pred (la - lb)) as Hp. fold P in Hp. lra.
Qed.

Lemma ilog2_unique (x : Q) (e : Z) : 2 ^ e <= x -> x < 2 ^ (e + 1) -> ilog2 x = e.
Proof.
  intros H1 H2.
  assert (Hx : 0 < x) by (pose proof (pow2_pos e); lra).
  destruct (ilog2_spec x Hx) as [S1 S2].
  assert (ilog2 x < e + 1)%Z by (apply pow2_inj_lt; lra).
  assert (e < ilog2 x + 1)%Z by (apply pow2_inj_lt; lra).
  lia.
Qed.

Lemma ilog2_le (x y : Q) : 0 < x -> x <= y -> (ilog2 x <= ilog2 y)%Z.
Proof.
  intros Hx Hxy.
  destruct (ilog2_spec x Hx) as [S1 _].
  destruct (ilog2_spec y ltac:(lra)) as [_ S2].
  assert (ilog2 x < ilog2 y + 1)%Z by (apply pow2_inj_lt; lra). lia.
Qed.

Lemma ilog2_comp (x y : Q) : 0 < x -> x == y -> ilog2 x = ilog2 y.
Proof.
  intros Hx E. symmetry. destruct (ilog2_spec x Hx) as [S1 S2].
  apply ilog2_unique; rewrite <- E; assumption.
Qed.

(* rne *)
Lemma rne_cases (x : Q) :
  (rne x = Qfloor x /\ x - inject_Z (Qfloor x) <= 1 # 2) \/
  (rne x = (Qfloor x + 1)%Z /\ 1 # 2 <= x - inject_Z (Qfloor x)).
Proof.
  unfold rne. destruct (Qcompare_spec (x - inject_Z (Qfloor x)) (1 # 2)) as [E|E|E].
  - destruct (Z.even (Qfloor x)); [left|right]; split; auto; lra.
  - left; split; auto; lra.
  - right; split; auto; lra.
Qed.

#[global] Instance rne_Proper : Proper (Qeq ==> eq) rne.
Proof.
  intros x y E. unfold rne. rewrite (Qfloor_comp _ _ E).
  assert (E' : x - inject_Z (Qfloor y) == y - inject_Z (Qfloor y)) by (rewrite E; reflexivity).
  rewrite (Qcompare_comp _ _ E' (1#2) (1#2) (Qeq_refl _)). reflexivity.
Qed.

Lemma rne_Z (z : Z) : rne (inject_Z z) = z.
Proof.
  unfold rne. rewrite Qfloor_Z.
  assert (E : inject_Z z - inject_Z z == 0) by ring.
  rewrite (Qcompare_comp _ _ E (1#2) (1#2) (Qeq_refl _)). reflexivity.
Qed.

Lemma rne_mono (x y : Q) : x <= y -> (rne x <= rne y)%Z.
Proof.
  intros Hxy. pose proof (Qfloor_resp_le _ _ Hxy) as Hf.
  pose proof (Qfloor_le x) as Fx. pose proof (Qlt_floor x) as Fx'.
  pose proof (Qfloor_le y) as Fy. pose proof (Qlt_floor y) as Fy'.
  destruct (Z.eq_dec (Qfloor x) (Qfloor y)) as [E|NE].
  - unfold rne. rewrite E.
    destruct (Qcompare_spec (x - inject_Z (Qfloor y)) (1 # 2)) as [Ex|Ex|Ex];
    destruct (Qcompare_spec (y - inject_Z (Qfloor y)) (1 # 2)) as [Ey|Ey|Ey];
    try destruct (Z.even (Qfloor y)); try lia; exfalso; lra.
  - destruct (rne_cases x) as [[-> _]|[-> _]]; destruct (rne_cases y) as [[-> _]|[-> _]]; lia.
Qed.

Lemma fl64_scaled_range (x : Q) : 0 < x ->
  2 ^ 52 <= x / 2 ^ (ilog2 x - 52) /\ x / 2 ^ (ilog2 x - 52) < 2 ^ 53.
Proof.
  intros Hx. destruct (ilog2_spec x Hx) as [S1 S2].
  pose proof (pow2_pos (ilog2 x - 52)) as P.
  assert (E1 : 2 ^ ilog2 x == 2 ^ 52 * 2 ^ (ilog2 x - 52)).
  { rewrite <- Qpower_plus by discriminate. replace (52 + (ilog2 x - 52))%Z with (ilog2 x) by lia. reflexivity. }
  assert (E2 : 2 ^ (ilog2 x + 1) == 2 ^ 53 * 2 ^ (ilog2 x - 52)).
  { rewrite <- Qpower_plus by discriminate. replace (53 + (ilog2 x - 52))%Z with (ilog2 x + 1)%Z by lia. reflexivity. }
  split.
  - apply Qle_shift_div_l; [exact P|]. rewrite <- E1. exact S1.
  - apply Qlt_shift_div_r; [exact P|]. rewrite <- E2. exact S2.
Qed.

Lemma rne_scaled_range (x : Q) : 0 < x ->
  (2 ^ 52 <= rne (x / 2 ^ (ilog2 x - 52)) <= 2 ^ 53)%Z.
Proof.
  intros Hx. destruct (fl64_scaled_range x Hx) as [H1 H2].
  split.
  - rewrite <- (rne_Z (2 ^ 52)). apply rne_mono. exact H1.
  - rewrite <- (rne_Z (2 ^ 53)). apply rne_mono. apply Qlt_le_weak. exact H2.
Qed.

Lemma fl64_pos_mono (x y : Q) : 0 < x -> x <= y -> fl64_pos x <= fl64_pos y.
Proof.
  intros Hx Hxy. assert (Hy : 0 < y) by lra.
  pose proof (ilog2_le x y Hx Hxy) as Hl.
  unfold fl64_pos.
  set (ex := ilog2 x) in *. set (ey := ilog2 y) in *.
  pose proof (pow2_pos (ex - 52)) as Px. pose proof (pow2_pos (ey - 52)) as Py.
  destruct (Z.eq_dec ex ey) as [E|NE].
  - rewrite E in *. apply Qmult_le_compat_r; [|lra].
    rewrite <- Zle_Qle. apply rne_mono.
    apply Qmult_le_compat_r; [exact Hxy|]. apply Qlt_le_weak, Qinv_lt_0_compat. exact Py.
  - destruct (rne_scaled_range x Hx) as [_ U]. destruct (rne_scaled_range y Hy) as [L _].
    fold ex in U. fold ey in L.
    rewrite Zle_Qle in U. rewrite Zle_Qle in L.
    change (inject_Z (2 ^ 53)) with (2 ^ 53) in U. change (inject_Z (2 ^ 52)) with (2 ^ 52) in L.
    apply Qle_trans with (2 ^ 53 * 2 ^ (ex - 52)).
    { apply Qmult_le_compat_r; [exact U | lra]. }
    apply Qle_trans with (2 ^ 52 * 2 ^ (ey - 52)).
    2:{ apply Qmult_le_compat_r; [exact L | lra]. }
    rewrite <- !Qpower_plus by discriminate. apply pow2_le. lia.
Qed.

Lemma fl64_pos_positive (x : Q) : 0 < x -> 0 < fl64_pos x.
Proof.
  intros Hx. unfold fl64_pos. destruct (rne_scaled_range x Hx) as [L _].
  rewrite Zle_Qle in L. change (inject_Z (2 ^ 52)) with (2 ^ 52) in L.
  pose proof (pow2_pos (ilog2 x - 52)) as P.
  apply Qmult_lt_0_compat; [|exact P]. 
  assert (0 < 2 ^ 52) by reflexivity. lra.
Qed.

Lemma fl64_pos_comp (x y : Q) : 0 < x -> x == y -> fl64_pos x == fl64_pos y.
Proof.
  intros Hx E. unfold fl64_pos. rewrite <- (ilog2_comp x y Hx E).
  assert (E' : x / 2 ^ (ilog2 x - 52) == y / 2 ^ (ilog2 x - 52)).
  { unfold Qdiv. apply Qmult_comp; [exact E | reflexivity]. }
  rewrite (rne_Proper _ _ E'). reflexivity.
Qed.

Lemma fl64_of_pos (x : Q) : 0 < x -> fl64 x = fl64_pos x.
Proof. intros Hx. unfold fl64. rewrite (proj1 (Qgt_alt x 0) Hx). reflexivity. Qed.

#[global] Instance fl64_Proper : Proper (Qeq ==> Qeq) fl64.
Proof.
  intros x y E. unfold fl64.
  rewrite (Qcompare_comp _ _ E 0 0 (Qeq_refl _)).
  destruct (Qcompare_spec y 0) as [H|H|H].
  - reflexivity.
  - assert (E' : - x == - y) by (rewrite E; reflexivity).
    rewrite (fl64_pos_comp (- x) (- y)); [reflexivity | lra | exact E'].
  - apply fl64_pos_comp; [lra | exact E].
Qed.

Lemma fl64_mono (x y : Q) : 0 < x -> x <= y -> fl64 x <= fl64 y.
Proof.
  intros Hx Hxy. rewrite !fl64_of_pos by lra. apply fl64_pos_mono; assumption.
Qed.

Lemma fl64_positive (x : Q) : 0 < x -> 0 < fl64 x.
Proof. intros Hx. rewrite fl64_of_pos by exact Hx. apply fl64_pos_positive, Hx. Qed.

(* exact on values with an integral 53-bit significand *)
Lemma fl64_exact (x : Q) (m : Z) : 0 < x -> x / 2 ^ (ilog2 x - 52) == inject_Z m -> fl64 x == x.
Proof.
  intros Hx Hm. rewrite fl64_of_pos by exact Hx. unfold fl64_pos.
  rewrite (rne_Proper _ _ Hm), rne_Z, <- Hm. field.
  apply Qpower_not_0. discriminate.
Qed.

Lemma fl64_0 : fl64 0 = 0.
Proof. reflexivity. Qed.

(** A safe integer divided by a power of two is representable. *)
Lemma fl64_div_pow2 (s : Z) (k : Z) :
  (0 <= s < 2 ^ 53)%Z -> (0 <= k)%Z -> fl64 (inject_Z s / 2 ^ k) == inject_Z s / 2 ^ k.
Proof.
  intros [Hs0 Hs] Hk.
  destruct (Z.eq_dec s 0) as [->|Hne].
  { assert (E : inject_Z 0 / 2 ^ k == 0) by (unfold Qdiv; ring).
    rewrite E. reflexivity. }
  assert (Hpos : (0 < s)%Z) by lia.
  destruct (Zlog2_Q s Hpos) as [L1 L2].
  assert (Hl : (Z.log2 s < 53)%Z) by (apply Z.log2_lt_pow2; lia).
  pose proof (Z.log2_nonneg s) as Hl0.
  remember (Z.log2 s) as l eqn:El. clear El.
  pose proof (pow2_pos k) as Pk. pose proof (pow2_pos (l - k)) as Plk.
  assert (Ek : 2 ^ (l - k) * 2 ^ k == 2 ^ l).
  { rewrite <- Qpower_plus by discriminate. replace (l - k + k)%Z with l by lia. reflexivity. }
  assert (Hx : 0 < inject_Z s / 2 ^ k).
  { apply Qlt_shift_div_l; [exact Pk|]. rewrite Qmult_0_l.
    change 0 with (inject_Z 0). rewrite <- Zlt_Qlt. exact Hpos. }
  assert (Hlog : ilog2 (inject_Z s / 2 ^ k) = (l - k)%Z).
  { apply ilog2_unique.
    - apply Qle_shift_div_l; [exact Pk|]. rewrite Ek. exact L1.
    - apply Qlt_shift_div_r; [exact Pk|]. rewrite pow2_succ.
      rewrite <- Qmult_assoc, Ek. exact L2. }
  apply (fl64_exact _ (s * 2 ^ (52 - l))); [exact Hx|].
  rewrite Hlog. rewrite inject_Z_mult. rewrite Zpower_Qpower by lia.
  change (inject_Z 2) with 2.
  assert (E : 2 ^ (l - k - 52) * 2 ^ (52 - l) * 2 ^ k == 1).
  { rewrite <- (Qpower_plus 2 (l - k - 52) (52 - l)) by discriminate.
    rewrite <- (Qpower_plus 2 (l - k - 52 + (52 - l)) k) by discriminate.
    replace (l - k - 52 + (52 - l) + k)%Z with 0%Z by lia. reflexivity. }
  pose proof (pow2_pos (l - k - 52)) as P1. pose proof (pow2_pos (52 - l)) as P2.
  set (a := 2 ^ (l - k - 52)) in *. set (b := 2 ^ (52 - l)) in *. set (c := 2 ^ k) in *.
  assert (Hac : 0 < a * c) by (apply Qmult_lt_0_compat; assumption).
  assert (Hac' : ~ a * c == 0) by (intro H0; rewrite H0 in Hac; discriminate).
  assert (Eb : b == / (a * c)).
  { apply (Qmult_inj_r _ _ (a * c)); [exact Hac'|].
    rewrite (Qmult_comm (/ (a * c))), Qmult_inv_r by exact Hac'.
    rewrite <- E. ring. }
  rewrite Eb. field. split; intro H0; rewrite H0 in *; discriminate.
Qed.

End Binary64Facts.

(** ** Chunk count and progress *)

Section Numbers.
Import Binary64 Binary64Facts.

Lemma size_bounds (file : File.t) : 0 <= File.size file < 2 ^ 53.
Proof.
  pose proof (File.size_safe file) as H. unfold File.size, MAX_SAFE in *. lia.
Qed.

(** The division by the chunk size is exact, so [Math.ceil] sees the true
    quotient. *)
Lemma totalChunks_ceiling (file : File.t) :
  totalChunks file = Qceiling (File.size file # 16384).
Proof.
  unfold totalChunks, Math_ceil, CHUNK_SIZE.
  apply Qceiling_comp.
  assert (E : (inject_Z 16384 == 2 ^ 14)%Q) by reflexivity.
  rewrite E, fl64_div_pow2 by (try apply size_bounds; lia).
  rewrite <- E. symmetry. apply Qmake_Qdiv.
Qed.

Lemma totalChunks_div (file : File.t) :
  totalChunks file = (File.size file + (CHUNK_SIZE - 1)) / CHUNK_SIZE.
Proof.
  rewrite totalChunks_ceiling. unfold Qceiling, Qfloor, Qopp, CHUNK_SIZE. cbn [Qnum Qden].
  generalize (File.size file). intros s. Z.div_mod_to_equations. lia.
Qed.

Lemma totalChunks_range (file : File.t) :
  (totalChunks file - 1) * CHUNK_SIZE < File.size file + Z.b2z (File.size file =? 0)
  /\ File.size file <= totalChunks file * CHUNK_SIZE.
Proof.
  rewrite totalChunks_div. pose proof (size_bounds file) as Hs. unfold CHUNK_SIZE.
  destruct (Z.eqb_spec (File.size file) 0) as [->|Hne]; cbn [Z.b2z].
  - vm_compute. split; [reflexivity | discriminate].
  - revert Hs Hne. generalize (File.size file). intros s Hs Hne.
    Z.div_mod_to_equations. lia.
Qed.

Lemma totalChunks_nonneg (file : File.t) : 0 <= totalChunks file.
Proof.
  rewrite totalChunks_div. pose proof (size_bounds file). unfold CHUNK_SIZE.
  apply Z.div_pos; lia.
Qed.

Lemma totalChunks_pos (file : File.t) : 0 < File.size file -> 0 < totalChunks file.
Proof.
  intros H. pose proof (totalChunks_range file) as [_ H2]. unfold CHUNK_SIZE in *. lia.
Qed.

Lemma totalChunks_zero (file : File.t) : File.size file = 0 -> totalChunks file = 0.
Proof. intros H. rewrite totalChunks_div, H. reflexivity. Qed.

Lemma chunk_count_Z (file : File.t) : Z.of_nat (chunk_count file) = totalChunks file.
Proof. unfold chunk_count. pose proof (totalChunks_nonneg file). lia. Qed.

Lemma progressPercent_finite (k n : Z) : n <> 0 ->
  progressPercent k n =
  Finite (inject_Z (Qfloor (fl64 (fl64 (inject_Z k / inject_Z n) * 100) + (1 # 2)))).
Proof.
  intros Hn. unfold progressPercent, js_div.
  destruct (Z.eqb_spec n 0); [contradiction|]. reflexivity.
Qed.

Lemma quotient_pos (k n : Z) : 0 < k -> 0 < n -> (0 < inject_Z k / inject_Z n)%Q.
Proof.
  intros Hk Hn. apply Qlt_shift_div_l.
  - change 0%Q with (inject_Z 0). rewrite <- Zlt_Qlt. exact Hn.
  - rewrite Qmult_0_l. change 0%Q with (inject_Z 0). rewrite <- Zlt_Qlt. exact Hk.
Qed.

(** Progress never goes down while the counter goes up. *)
Lemma progressPercent_mono (k k' n : Z) :
  0 < n -> 0 < k -> k <= k' ->
  number_le (progressPercent k n) (progressPercent k' n).
Proof.
  intros Hn Hk Hkk.
  rewrite !progressPercent_finite by lia. cbn [number_le].
  rewrite <- Zle_Qle. apply Qfloor_resp_le.
  apply Qplus_le_l.
  pose proof (quotient_pos k n Hk Hn) as Hq.
  assert (Hle : (inject_Z k / inject_Z n <= inject_Z k' / inject_Z n)%Q).
  { apply Qmult_le_compat_r.
    - rewrite <- Zle_Qle. exact Hkk.
    - apply Qlt_le_weak, Qinv_lt_0_compat.
      change 0%Q with (inject_Z 0). rewrite <- Zlt_Qlt. exact Hn. }
  pose proof (fl64_positive _ Hq) as Hf.
  pose proof (fl64_mono _ _ Hq Hle) as Hm.
  apply fl64_mono; [lra | lra].
Qed.

(** The last chunk brings progress to exactly 100. *)
Lemma progressPercent_full (n : Z) : 0 < n -> progressPercent n n = Finite 100.
Proof.
  intros Hn. rewrite progressPercent_finite by lia.
  assert (E : (inject_Z n / inject_Z n == 1)%Q).
  { field. intros H0. apply (inject_Z_injective n 0) in H0. lia. }
  assert (E' : (fl64 (fl64 (inject_Z n / inject_Z n) * 100) + (1 # 2) ==
                fl64 (fl64 1 * 100) + (1 # 2))%Q).
  { apply Qplus_comp; [|reflexivity]. apply fl64_Proper.
    apply Qmult_comp; [|reflexivity]. apply fl64_Proper. exact E. }
  rewrite (Qfloor_comp _ _ E'). reflexivity.
Qed.

(** A positive counter over a positive total gives a finite percentage. *)
Lemma progressPercent_cases (k n : Z) :
  n <> 0 -> exists p : Z, progressPercent k n = Finite (inject_Z p).
Proof. intros Hn. rewrite progressPercent_finite by exact Hn. eauto. Qed.

End Numbers.

(** ** Chunks of a file *)

Section Chunks.
Variable file : File.t.

Lemma chunk_start_0 : chunk_start file 0 = 0.
Proof. unfold chunk_start. pose proof (size_bounds file). lia. Qed.

Lemma chunk_start_range (j : nat) : 0 <= chunk_start file j <= File.size file.
Proof. unfold chunk_start, CHUNK_SIZE. pose proof (size_bounds file). lia. Qed.

Lemma chunk_start_succ (j : nat) :
  Z.min (chunk_start file j + CHUNK_SIZE) (File.size file) = chunk_start file (S j).
Proof. unfold chunk_start, CHUNK_SIZE. lia. Qed.

Lemma chunk_start_mono (j : nat) : chunk_start file j <= chunk_start file (S j).
Proof. unfold chunk_start, CHUNK_SIZE. lia. Qed.

(** Before the last chunk the offset is inside the file. *)
Lemma chunk_start_inside (j : nat) :
  (j < chunk_count file)%nat ->
  chunk_start file j = Z.of_nat j * CHUNK_SIZE /\ chunk_start file j < File.size file.
Proof.
  intros Hj. pose proof (chunk_count_Z file) as Hn.
  pose proof (totalChunks_range file) as [H1 H2].
  pose proof (size_bounds file) as Hs.
  destruct (Z.eqb_spec (File.size file) 0) as [E|NE].
  - rewrite (totalChunks_zero file E) in Hn. lia.
  - cbn [Z.b2z] in H1. unfold chunk_start, CHUNK_SIZE in *. nia.
Qed.

Lemma chunk_start_end : chunk_start file (chunk_count file) = File.size file.
Proof.
  pose proof (chunk_count_Z file) as Hn.
  pose proof (totalChunks_range file) as [_ H2].
  unfold chunk_start. rewrite Hn. lia.
Qed.

Lemma chunk_start_outside (j : nat) :
  (chunk_count file <= j)%nat -> chunk_start file j = File.size file.
Proof.
  intros Hj. pose proof (chunk_count_Z file) as Hn.
  pose proof (totalChunks_range file) as [_ H2].
  unfold chunk_start, CHUNK_SIZE in *. nia.
Qed.

Lemma rel_inside (p : Z) : 0 <= p <= File.size file -> File.rel file p = p.
Proof.
  intros Hp. unfold File.rel. destruct (Z.ltb_spec p 0); lia.
Qed.

Lemma nth_chunk_eq (j : nat) :
  nth_chunk file j =
  take (Z.to_nat (chunk_start file (S j)) - Z.to_nat (chunk_start file j))%nat
    (drop (Z.to_nat (chunk_start file j)) (File.bytes file)).
Proof.
  unfold nth_chunk, File.slice.
  rewrite !rel_inside by apply chunk_start_range.
  f_equal. pose proof (chunk_start_mono j). pose proof (chunk_start_range j). lia.
Qed.

Lemma length_nth_chunk (j : nat) :
  Z.of_nat (length (nth_chunk file j)) = chunk_start file (S j) - chunk_start file j.
Proof.
  rewrite nth_chunk_eq, length_take, length_drop.
  pose proof (chunk_start_mono j). pose proof (chunk_start_range j).
  pose proof (chunk_start_range (S j)). unfold File.size in *. lia.
Qed.

(** The first [j] chunks, concatenated, are a prefix of the file. *)
Lemma concat_chunks (j : nat) :
  List.concat (map (nth_chunk file) (seq 0 j)) =
  take (Z.to_nat (chunk_start file j)) (File.bytes file).
Proof.
  induction j as [|j IH].
  - rewrite chunk_start_0. reflexivity.
  - rewrite seq_S, map_app, concat_app, IH. cbn [map List.concat Nat.add].
    rewrite app_nil_r, nth_chunk_eq, take_take_drop. f_equal.
    pose proof (chunk_start_mono j). pose proof (chunk_start_range j). lia.
Qed.

(** All the chunks, concatenated, are the file. *)
Lemma concat_all_chunks :
  List.concat (map (nth_chunk file) (seq 0 (chunk_count file))) = File.bytes file.
Proof.
  rewrite concat_chunks, chunk_start_end. apply take_ge. unfold File.size. lia.
Qed.

(** Every chunk is full except, possibly, the last one. *)
Lemma nth_chunk_size (j : nat) :
  (j < chunk_count file)%nat ->
  Z.of_nat (length (nth_chunk file j)) =
  expected_chunk_size (File.size file) (chunk_count file) j.
Proof.
  intros Hj. rewrite length_nth_chunk. unfold expected_chunk_size.
  destruct (chunk_start_inside j Hj) as [E1 L1]. rewrite E1.
  pose proof (chunk_count_Z file) as Hn. pose proof (totalChunks_div file) as Hd.
  pose proof (size_bounds file) as Hs.
  destruct (Nat.eqb_spec (S j) (chunk_count file)) as [E|NE].
  - rewrite E, chunk_start_end.
    assert (Hj' : Z.of_nat j = totalChunks file - 1) by lia.
    rewrite Hj', Hd. unfold CHUNK_SIZE in *.
    destruct (Z.eqb_spec (File.size file mod 16384) 0) as [Em|Em];
      revert Em; generalize (File.size file); intros s Em;
      Z.div_mod_to_equations; lia.
  - assert (Hj' : (S j < chunk_count file)%nat) by lia.
    destruct (chunk_start_inside (S j) Hj') as [E2 _]. rewrite E2. lia.
Qed.

End Chunks.

(** ** Proof automation for handlers *)

Ltac unfold_actions :=
  unfold transfer_failed, andThen, skip, send, toast_success, toast_error, toast_info,
    console_warn, console_error, emit, schedule,
    setJoinMode, setJoinRoomId, setConnectionStatus, setSelectedFile,
    setTransferProgress, setTransferStatus, setReceivedFileName,
    setReceivedFileSize, setReceivedFileType, setPeerReady, setConnectionReady,
    setPeerRef, setConnectionRef, setFileChunksRef, setTotalChunksRef,
    setReceivedChunksRef, updState, updRefs in *.

Ltac project :=
  cbn [state refs effects pending
       roomId joinMode joinRoomId connectionStatus selectedFile transferProgress
       transferStatus receivedFileName receivedFileSize receivedFileType
       peerReady connectionReady
       peerRef connectionRef fileChunksRef totalChunksRef receivedChunksRef
       job_file job_totalChunks job_chunksProcessed job_connectionReady] in *.

Ltac run_handler := unfold_actions; project.

(** Split a conjunction into its parts, leaving the parts alone. *)
Ltac split_all := repeat match goal with |- _ /\ _ => split end.

(** Call-by-value evaluation of a handler on a world given by its
    constructors: each action is reduced before the next one reads the
    world it returns. *)
Ltac eval_handler :=
  cbv [transfer_failed andThen skip send toast_success toast_error toast_info
       console_warn console_error emit schedule
       setJoinMode setJoinRoomId setConnectionStatus setSelectedFile
       setTransferProgress setTransferStatus setReceivedFileName
       setReceivedFileSize setReceivedFileType setPeerReady setConnectionReady
       setPeerRef setConnectionRef setFileChunksRef setTotalChunksRef
       setReceivedChunksRef updState updRefs
       state refs effects pending
       roomId joinMode joinRoomId connectionStatus selectedFile transferProgress
       transferStatus receivedFileName receivedFileSize receivedFileType
       peerReady connectionReady
       peerRef connectionRef fileChunksRef totalChunksRef receivedChunksRef
       job_file job_totalChunks job_chunksProcessed job_connectionReady].

(** ** The sender's run *)

Lemma run_S (n : nat) (w : World) : run (S n) w = step ReadLoaded (run n w).
Proof.
  revert w. induction n as [|n IH]; intros w; [reflexivity|].
  change (run (S (S n)) w) with (run (S n) (step ReadLoaded w)).
  rewrite IH. reflexivity.
Qed.

(** With nothing queued the world stays as it is. *)
Lemma run_idle (n : nat) (w : World) : pending w = [] -> run n w = w.
Proof.
  intros H. induction n as [|n IH]; [reflexivity|].
  cbn [run]. unfold step. rewrite H. exact IH.
Qed.

Lemma run_add (n m : nat) (w : World) : run (n + m) w = run m (run n w).
Proof.
  revert w. induction n as [|n IH]; intros w; [reflexivity|].
  cbn [Nat.add run]. apply IH.
Qed.

Lemma trajectory_run (n : nat) (w : World) :
  trajectory n w = map (fun i => run i w) (seq 1 n).
Proof.
  revert w. induction n as [|n IH]; intros w; [reflexivity|].
  cbn [trajectory seq map]. rewrite IH. f_equal.
  rewrite <- (seq_shift n 1), map_map. reflexivity.
Qed.

Lemma sent_messages_app (es1 es2 : list Effect) :
  sent_messages (es1 ++ es2) = sent_messages es1 ++ sent_messages es2.
Proof. apply omap_app. Qed.

Lemma sent_messages_sends (conn : DataConnection) (ms : list JSValue) :
  sent_messages (map (Send conn) ms) = ms.
Proof.
  induction ms as [|m ms IH]; [reflexivity|].
  unfold sent_messages in *. simpl. f_equal. exact IH.
Qed.

Section SenderRun.
Variables (snap : State) (conn : DataConnection) (w : World) (file : File.t).
Hypothesis ready : sender_ready snap conn w.

Lemma sendFile_starts : sendFile snap file w = sender_after w conn file 0.
Proof.
  destruct ready as (Hc & Hs & Hr & Hp).
  unfold sendFile, sender_after, sent_so_far. rewrite Hc, Hs, Hr, chunk_start_0.
  destruct w as [s r es p]. cbn in Hp. subst p. reflexivity.
Qed.

Lemma sender_step (j : nat) :
  (j < chunk_count file)%nat ->
  step ReadLoaded (sender_after w conn file j) = sender_after w conn file (S j).
Proof.
  intros Hj. destruct ready as (Hc & _).
  destruct (chunk_start_inside file j Hj) as [_ Hlt].
  unfold sender_after at 1, sendNextChunk at 1. cbn [job_file].
  destruct (Z.leb_spec (File.size file) (chunk_start file j)) as [Hle|_]; [lia|].
  rewrite chunk_start_succ.
  unfold step, schedule. cbn [pending app run_task state refs effects].
  unfold reader_onload. cbn [refs job_connectionReady job_chunksProcessed job_totalChunks job_file].
  rewrite Hc.
  replace (Z.of_nat j + 1) with (Z.of_nat (S j)) by lia.
  unfold sender_after, sent_so_far.
  rewrite seq_S, map_app. cbn [map Nat.add].
  unfold andThen, send, emit, setTransferProgress, setTransferStatus, updState, sending_state.
  cbn [state refs effects pending roomId joinMode joinRoomId connectionStatus
       selectedFile transferProgress transferStatus receivedFileName receivedFileSize
       receivedFileType peerReady connectionReady progress_after].
  rewrite <- app_assoc. reflexivity.
Qed.

Lemma sender_run (j : nat) :
  (j <= chunk_count file)%nat ->
  run j (sendFile snap file w) = sender_after w conn file j.
Proof.
  induction j as [|j IH]; intros Hj.
  - apply sendFile_starts.
  - rewrite run_S, IH by lia. apply sender_step. lia.
Qed.

Lemma sender_completes :
  step ReadLoaded (sender_after w conn file (chunk_count file)) = sender_done w conn file.
Proof.
  destruct ready as (Hc & _).
  unfold sender_after, sendNextChunk. cbn [job_file]. rewrite chunk_start_end.
  rewrite Z.leb_refl.
  unfold step, schedule. cbn [pending app run_task state refs effects].
  unfold complete_timeout. cbn [refs job_connectionReady]. rewrite Hc.
  reflexivity.
Qed.

(** After one turn per chunk and one for the timer the transfer is over
    and nothing is left to run. *)
Lemma sender_finishes :
  run (S (chunk_count file)) (sendFile snap file w) = sender_done w conn file.
Proof. rewrite run_S, sender_run by lia. apply sender_completes. Qed.

(** Any larger number of turns gives the same world. *)
Lemma sender_finishes_with (fuel : nat) :
  (S (chunk_count file) <= fuel)%nat ->
  run fuel (sendFile snap file w) = sender_done w conn file.
Proof.
  intros H. replace fuel with (S (chunk_count file) + (fuel - S (chunk_count file)))%nat by lia.
  rewrite run_add, sender_finishes. apply run_idle. reflexivity.
Qed.

Lemma sender_trajectory :
  trajectory (S (chunk_count file)) (sendFile snap file w) =
  map (sender_after w conn file) (seq 1 (chunk_count file)) ++ [sender_done w conn file].
Proof.
  rewrite trajectory_run, seq_S, map_app. cbn [map]. f_equal.
  - apply map_ext_in. intros i Hi. apply in_seq in Hi. apply sender_run. lia.
  - f_equal. apply sender_finishes.
Qed.

Lemma sent_messages_sent_so_far (j : nat) :
  sent_messages (sent_so_far w conn file j) =
  sent_messages (effects w) ++ FILE_METADATA file :: map (chunk_message file) (seq 0 j).
Proof.
  unfold sent_so_far. rewrite sent_messages_app. f_equal.
  rewrite <- (map_map (chunk_message file) (Send conn)).
  change (Send conn (FILE_METADATA file) :: map (Send conn) (map (chunk_message file) (seq 0 j)))
    with (map (Send conn) (FILE_METADATA file :: map (chunk_message file) (seq 0 j))).
  apply sent_messages_sends.
Qed.

Lemma sender_done_messages :
  sent_messages (effects (sender_done w conn file)) =
  sent_messages (effects w) ++ transfer_messages file.
Proof.
  unfold sender_done. cbn [effects].
  rewrite sent_messages_app, sent_messages_sent_so_far. unfold transfer_messages.
  rewrite <- app_assoc. reflexivity.
Qed.

End SenderRun.

(** ** Reassembly *)

Lemma stored_bytes_cons_Some (c : ArrayBuffer) (chunks : list (option ArrayBuffer)) :
  stored_bytes (Some c :: chunks) = c ++ stored_bytes chunks.
Proof. reflexivity. Qed.

Lemma stored_bytes_cons_None (chunks : list (option ArrayBuffer)) :
  stored_bytes (None :: chunks) = stored_bytes chunks.
Proof. reflexivity. Qed.

Lemma stored_bytes_Some (cs : list ArrayBuffer) :
  stored_bytes (map Some cs) = List.concat cs.
Proof.
  induction cs as [|c cs IH]; [reflexivity|].
  cbn [map]. rewrite stored_bytes_cons_Some, IH. reflexivity.
Qed.

Lemma byteLength_sum_from (chunks : list (option ArrayBuffer)) (a : Z) :
  foldl (fun total chunk =>
           total + match chunk with
                   | Some c => Z.of_nat (length c)
                   | None => 0
                   end) a chunks
  = a + Z.of_nat (length (stored_bytes chunks)).
Proof.
  revert a. induction chunks as [|[c|] chunks IH]; intros a; cbn [foldl].
  - cbn. lia.
  - rewrite IH, stored_bytes_cons_Some, length_app. lia.
  - rewrite IH, stored_bytes_cons_None. lia.
Qed.

(** The size computed by [reduce] is the number of stored bytes. *)
Lemma byteLength_sum_stored (chunks : list (option ArrayBuffer)) :
  byteLength_sum chunks = Z.of_nat (length (stored_bytes chunks)).
Proof. unfold byteLength_sum. rewrite byteLength_sum_from. lia. Qed.

(** The copy loop writes the stored bytes, in index order, from [offset]
    on, and never writes outside the buffer. *)
Lemma copy_chunks_spec (chunks : list (option ArrayBuffer)) :
  forall (fileData : list byte) (offset : nat),
    (offset + length (stored_bytes chunks) <= length fileData)%nat ->
    copy_chunks chunks fileData offset =
    Some (take offset fileData ++ stored_bytes chunks ++
          drop (offset + length (stored_bytes chunks)) fileData).
Proof.
  induction chunks as [|[c|] chunks IH]; intros fileData offset Hfit.
  - cbn [copy_chunks]. change (stored_bytes []) with (@nil byte).
    cbn [length app]. rewrite Nat.add_0_r, take_drop. reflexivity.
  - rewrite stored_bytes_cons_Some in *. rewrite length_app in Hfit.
    cbn [copy_chunks]. unfold Uint8Array_set.
    destruct (Nat.leb_spec (offset + length c) (length fileData)) as [_|Hbad]; [|lia].
    rewrite IH.
    + f_equal.
      assert (Ht : length (take offset fileData) = offset) by (rewrite length_take; lia).
      rewrite (app_assoc (take offset fileData) c).
      rewrite take_app_length' by (rewrite length_app, Ht; reflexivity).
      rewrite <- !app_assoc. do 2 f_equal.
      rewrite length_app.
      rewrite (app_assoc (take offset fileData) c).
      replace (offset + length c + length (stored_bytes chunks))%nat
        with (length (take offset fileData ++ c) + length (stored_bytes chunks))%nat
        by (rewrite length_app, Ht; reflexivity).
      rewrite drop_app_add, drop_drop, Nat.add_assoc. reflexivity.
    + rewrite !length_app, length_take, length_drop. lia.
  - rewrite stored_bytes_cons_None in *. cbn [copy_chunks]. apply IH. exact Hfit.
Qed.

(** The buffer built by [assembleAndDownloadFile] is the concatenation of
    the stored chunks in index order: the [RangeError] is never raised. *)
Lemma copy_chunks_assembles (chunks : list (option ArrayBuffer)) :
  copy_chunks chunks (new_Uint8Array (byteLength_sum chunks)) 0 =
  Some (stored_bytes chunks).
Proof.
  assert (Hl : length (new_Uint8Array (byteLength_sum chunks)) =
               length (stored_bytes chunks)).
  { unfold new_Uint8Array. rewrite length_replicate, byteLength_sum_stored. lia. }
  rewrite copy_chunks_spec by (rewrite Hl; lia).
  cbn [take Nat.add app]. rewrite <- Hl, drop_all, app_nil_r. reflexivity.
Qed.

(** ** The receiver's run *)

Lemma array_set_append {A} (l : list (option A)) (v : A) :
  array_set l (Z.of_nat (length l)) v = l ++ [Some v].
Proof.
  unfold array_set. destruct (Z.leb_spec 0 (Z.of_nat (length l))) as [_|H]; [|lia].
  rewrite Nat2Z.id, Nat.ltb_irrefl, Nat.sub_diag. reflexivity.
Qed.

Lemma array_set_inside {A} (l : list (option A)) (i : nat) (v : A) :
  (i < length l)%nat -> array_set l (Z.of_nat i) v = <[i := Some v]> l.
Proof.
  intros Hi. unfold array_set. destruct (Z.leb_spec 0 (Z.of_nat i)) as [_|H]; [|lia].
  rewrite Nat2Z.id. destruct (Nat.ltb_spec i (length l)); [reflexivity | lia].
Qed.

Lemma array_set_negative {A} (l : list (option A)) (i : Z) (v : A) :
  i < 0 -> array_set l i v = l.
Proof.
  intros Hi. unfold array_set. destruct (Z.leb_spec 0 i); [lia | reflexivity].
Qed.

(** What [handleReceivedData] does with a chunk that carries data, an
    index and a total. *)
Lemma handle_chunk (snap : State) (buf : ArrayBuffer) (i n : Z) (w : World) :
  handleReceivedData snap (FILE_CHUNK buf i n) w =
  let total := if (totalChunksRef (refs w) =? 0) && negb (n =? 0)
               then n else totalChunksRef (refs w) in
  let received := receivedChunksRef (refs w) + 1 in
  let progress := progressPercent received total in
  mkWorld
    (mkState (roomId (state w)) (joinMode (state w)) (joinRoomId (state w))
       (connectionStatus (state w)) (selectedFile (state w)) progress
       (transferStatus (state w)) (receivedFileName (state w))
       (receivedFileSize (state w)) (receivedFileType (state w))
       (peerReady (state w)) (connectionReady (state w)))
    (mkRefs (peerRef (refs w)) (connectionRef (refs w))
       (array_set (fileChunksRef (refs w)) i buf) total received)
    (effects w)
    (pending w ++
     (if number_eqb progress (Finite 100) then [WatchdogTimeout snap] else [])).
Proof.
  destruct w as [s r es p].
  change (handleReceivedData snap (FILE_CHUNK buf i n) (mkWorld s r es p)) with
    (((fun w =>
         if (totalChunksRef (refs w) =? 0) && negb (n =? 0)
         then setTotalChunksRef n w else w) ;;
      (fun w => setFileChunksRef (array_set (fileChunksRef (refs w)) i buf) w) ;;
      (fun w => setReceivedChunksRef (receivedChunksRef (refs w) + 1) w) ;;
      (fun w =>
         let progress :=
           progressPercent (receivedChunksRef (refs w)) (totalChunksRef (refs w)) in
         (setTransferProgress progress ;;
          if number_eqb progress (Finite 100)
          then schedule (WatchdogTimeout snap) else skip) w))%action
       (mkWorld s r es p)).
  unfold andThen. cbn [refs state effects pending].
  destruct ((totalChunksRef r =? 0) && negb (n =? 0)).
  - cbn -[progressPercent array_set number_eqb].
    destruct (number_eqb _ _); cbn -[progressPercent array_set];
      rewrite ?app_nil_r; reflexivity.
  - cbn -[progressPercent array_set number_eqb].
    destruct (number_eqb _ _); cbn -[progressPercent array_set];
      rewrite ?app_nil_r; reflexivity.
Qed.

Lemma receive_app (snap : State) (ms1 ms2 : list JSValue) (w : World) :
  receive snap (ms1 ++ ms2) w = receive snap ms2 (receive snap ms1 w).
Proof. unfold receive. apply foldl_app. Qed.

Lemma receive_trajectory_app (snap : State) (ms1 ms2 : list JSValue) (w : World) :
  receive_trajectory snap (ms1 ++ ms2) w =
  receive_trajectory snap ms1 w ++ receive_trajectory snap ms2 (receive snap ms1 w).
Proof.
  revert w. induction ms1 as [|m ms1 IH]; intros w; [reflexivity|].
  cbn [app receive_trajectory]. rewrite IH. reflexivity.
Qed.

Section ReceiverRun.
Variables (snap : State) (w : World) (file : File.t).

Lemma receive_metadata :
  handleReceivedData snap (FILE_METADATA file) w = receiver_after snap w file 0.
Proof.
  unfold receiver_after. cbn [watchdogs]. rewrite app_nil_r.
  destruct w as [s r es p]. reflexivity.
Qed.

Lemma receive_chunk (j : nat) :
  (j < chunk_count file)%nat ->
  handleReceivedData snap (chunk_message file j) (receiver_after snap w file j)
  = receiver_after snap w file (S j).
Proof.
  intros Hj. unfold chunk_message. rewrite handle_chunk.
  pose proof (chunk_count_Z file) as Hn.
  assert (Hpos : totalChunks file <> 0) by lia.
  unfold receiver_after.
  cbn [refs state effects pending receiving_refs totalChunksRef receivedChunksRef
       fileChunksRef peerRef connectionRef].
  assert (Htotal : (if ((match j with O => 0 | S _ => totalChunks file end) =? 0)
                         && negb (totalChunks file =? 0)
                    then totalChunks file
                    else match j with O => 0 | S _ => totalChunks file end)
                   = totalChunks file).
  { destruct (Z.eqb_spec (totalChunks file) 0) as [|_]; [contradiction|].
    destruct j; [reflexivity|].
    destruct (Z.eqb_spec (totalChunks file) 0) as [|_]; [contradiction|]. reflexivity. }
  rewrite Htotal. clear Htotal.
  replace (Z.of_nat j + 1) with (Z.of_nat (S j)) by lia.
  assert (Hset : array_set (map (fun i => Some (nth_chunk file i)) (seq 0 j))
                   (Z.of_nat j) (nth_chunk file j)
                 = map (fun i => Some (nth_chunk file i)) (seq 0 (S j))).
  { rewrite seq_S, map_app. cbn [map Nat.add].
    rewrite <- (array_set_append (map _ (seq 0 j))).
    rewrite length_map, length_seq. reflexivity. }
  rewrite Hset. clear Hset.
  cbn [watchdogs]. rewrite app_assoc. reflexivity.
Qed.

(** The receiver after the metadata and the first [j] chunks of the
    transfer. *)
Lemma receive_chunks (j : nat) :
  (j <= chunk_count file)%nat ->
  receive snap (FILE_METADATA file :: map (chunk_message file) (seq 0 j)) w
  = receiver_after snap w file j.
Proof.
  induction j as [|j IH]; intros Hj.
  - apply receive_metadata.
  - rewrite seq_S, map_app, app_comm_cons. unfold receive in *.
    rewrite foldl_app, IH by lia. cbn [map foldl Nat.add]. apply receive_chunk. lia.
Qed.

Lemma stored_bytes_received :
  stored_bytes (map (fun i => Some (nth_chunk file i)) (seq 0 (chunk_count file)))
  = File.bytes file.
Proof.
  rewrite <- (map_map (nth_chunk file) Some), stored_bytes_Some.
  apply concat_all_chunks.
Qed.

(** The completion marker makes the receiver deliver the file. *)
Lemma receive_complete :
  0 < File.size file ->
  handleReceivedData snap FILE_COMPLETE (receiver_after snap w file (chunk_count file))
  = receiver_done snap w file.
Proof.
  intros Hsize.
  change (handleReceivedData snap FILE_COMPLETE) with (assembleAndDownloadFile snap).
  unfold assembleAndDownloadFile, receiver_after.
  cbn [refs receiving_refs fileChunksRef].
  rewrite length_map, length_seq.
  pose proof (totalChunks_pos file Hsize) as Hn. pose proof (chunk_count_Z file) as Hc.
  destruct (Nat.eqb_spec (chunk_count file) 0) as [E|_]; [lia|].
  rewrite copy_chunks_assembles, byteLength_sum_stored, stored_bytes_received.
  fold (File.size file).
  destruct (Z.eqb_spec (File.size file) 0) as [E|_]; [lia|].
  unfold receiver_done, delivery, acknowledgement, receiving_state, receiving_refs.
  run_handler.
  destruct (connectionRef (refs w)) as [c|], (connectionReady snap);
    project; rewrite <- ?app_assoc; reflexivity.
Qed.

(** An empty file is announced and completed without chunks: the receiver
    reports that no data was received. *)
Lemma receive_complete_empty :
  File.size file = 0 ->
  transferStatus (state (handleReceivedData snap FILE_COMPLETE
                           (receiver_after snap w file (chunk_count file)))) = "error".
Proof.
  intros Hsize.
  change (handleReceivedData snap FILE_COMPLETE) with (assembleAndDownloadFile snap).
  unfold assembleAndDownloadFile, receiver_after.
  cbn [refs receiving_refs fileChunksRef].
  rewrite length_map, length_seq.
  pose proof (totalChunks_zero file Hsize) as Hn. pose proof (chunk_count_Z file) as Hc.
  destruct (Nat.eqb_spec (chunk_count file) 0) as [_|NE]; [|lia]. reflexivity.
Qed.

Lemma receive_transfer_prefix :
  receive snap (FILE_METADATA file :: map (chunk_message file) (seq 0 (chunk_count file))) w
  = receiver_after snap w file (chunk_count file).
Proof. apply receive_chunks. lia. Qed.

(** The whole transfer of a non-empty file. *)
Lemma receive_transfer :
  0 < File.size file ->
  receive snap (transfer_messages file) w = receiver_done snap w file.
Proof.
  intros Hsize. unfold transfer_messages. rewrite app_comm_cons, receive_app.
  rewrite receive_transfer_prefix. apply receive_complete. exact Hsize.
Qed.

End ReceiverRun.

(** ** Observations on runs *)

Lemma effects_since_app (before after : World) (es : list Effect) :
  effects after = effects before ++ es -> effects_since before after = es.
Proof. intros H. unfold effects_since. rewrite H. apply drop_app_length. Qed.

Lemma effects_since_mk (w : World) (s : State) (r : Refs) (es : list Effect)
    (p : list Task) :
  effects_since w (mkWorld s r (effects w ++ es) p) = es.
Proof. apply effects_since_app. reflexivity. Qed.

Lemma downloads_app (es1 es2 : list Effect) :
  downloads (es1 ++ es2) = downloads es1 ++ downloads es2.
Proof. apply omap_app. Qed.

Lemma chunk_payloads_transfer (file : File.t) :
  omap chunk_payload (transfer_messages file) =
  map (nth_chunk file) (seq 0 (chunk_count file)).
Proof.
  unfold transfer_messages. rewrite app_comm_cons, omap_app.
  change (omap chunk_payload [FILE_COMPLETE]) with (@nil ArrayBuffer).
  rewrite app_nil_r.
  change (omap chunk_payload (FILE_METADATA file :: ?l)) with (omap chunk_payload l).
  induction (seq 0 (chunk_count file)) as [|j l IH]; [reflexivity|].
  cbn [map]. change (omap chunk_payload (chunk_message file j :: ?l'))
    with (nth_chunk file j :: omap chunk_payload l').
  f_equal. exact IH.
Qed.

Section Transfer.
Variables (ssnap : State) (conn : DataConnection) (sw : World) (file : File.t).
Hypothesis ready : sender_ready ssnap conn sw.

Let sender : World := run (S (chunk_count file)) (sendFile ssnap file sw).

Lemma sender_messages :
  sent_messages (effects_since sw sender) = transfer_messages file.
Proof.
  unfold sender. rewrite (sender_finishes ssnap conn sw file ready).
  rewrite (effects_since_app sw _ (map (Send conn) (transfer_messages file))).
  - apply sent_messages_sends.
  - unfold sender_done, sent_so_far, transfer_messages. cbn [effects map].
    rewrite map_app, map_map, <- app_assoc. reflexivity.
Qed.

Lemma sender_idle : pending sender = [].
Proof. unfold sender. rewrite (sender_finishes ssnap conn sw file ready). reflexivity. Qed.

End Transfer.

(** ** Splitting and reassembly *)

Lemma lookup_chunks (file : File.t) (j : nat) (chunk : ArrayBuffer) :
  map (nth_chunk file) (seq 0 (chunk_count file)) !! j = Some chunk ->
  (j < chunk_count file)%nat /\ chunk = nth_chunk file j.
Proof.
  intros H. apply list_lookup_fmap_Some in H as (i & -> & Hi).
  apply lookup_seq in Hi as [-> Hlt]. split; [exact Hlt | reflexivity].
Qed.

Lemma downloads_delivery (snap : State) (r : Refs) (file : File.t) :
  downloads (delivery snap r file) = [File.bytes file].
Proof.
  unfold delivery, acknowledgement.
  destruct (connectionRef r), (connectionReady snap); reflexivity.
Qed.

(** C1.  A non-empty file sent over a live connection is split into
    consecutive chunks of 16384 bytes, the last one holding the remaining
    [size mod 16384] bytes (a full chunk when the size is a multiple of
    16384); the chunks concatenated in index order are the bytes of the
    file, the receiver that handles the messages in order downloads exactly
    these bytes, and the reassembled length is the size of the file.  The
    run is the undisturbed one: every read succeeds and no other event
    intervenes; it ends with nothing left to run. *)
Theorem split_and_reassemble
    (ssnap rsnap : State) (conn : DataConnection) (sw rw : World) (file : File.t) :
  0 < File.size file ->
  sender_ready ssnap conn sw ->
  let sender := run (S (chunk_count file)) (sendFile ssnap file sw) in
  let messages := sent_messages (effects_since sw sender) in
  let chunks := omap chunk_payload messages in
  let receiver := receive rsnap messages rw in
  pending sender = [] /\
  (forall (j : nat) (chunk : ArrayBuffer),
      chunks !! j = Some chunk ->
      Z.of_nat (length chunk) =
      expected_chunk_size (File.size file) (length chunks) j) /\
  List.concat chunks = File.bytes file /\
  downloads (effects_since rw receiver) = [File.bytes file] /\
  Z.of_nat (length (List.concat chunks)) = File.size file.
Proof.
  intros Hsize Hready sender messages chunks receiver.
  assert (Hm : messages = transfer_messages file)
    by exact (sender_messages ssnap conn sw file Hready).
  assert (Hc : chunks = map (nth_chunk file) (seq 0 (chunk_count file))).
  { unfold chunks. rewrite Hm. apply chunk_payloads_transfer. }
  assert (Hcat : List.concat chunks = File.bytes file).
  { rewrite Hc. apply concat_all_chunks. }
  split; [exact (sender_idle ssnap conn sw file Hready)|].
  split.
  { intros j chunk Hj. rewrite Hc in Hj |- *.
    apply lookup_chunks in Hj as [Hlt ->].
    rewrite length_map, length_seq. apply nth_chunk_size. exact Hlt. }
  split; [exact Hcat|].
  split; [|rewrite Hcat; reflexivity].
  unfold receiver. rewrite Hm, (receive_transfer rsnap rw file Hsize).
  rewrite (effects_since_app rw _
             (ToastInfo (String.append "Receiving file: "
                           (or_string (Some (File.name file)) "unknown"))
                :: delivery rsnap (refs rw) file)).
  - change (downloads (ToastInfo ?t :: ?l)) with (downloads l).
    apply downloads_delivery.
  - unfold receiver_done, announced. cbn [effects]. rewrite <- app_assoc. reflexivity.
Qed.

(** C2.  The sender computes [totalChunks] as the ceiling of [size / 16384],
    and this is the number of chunks it sends; a file of 50000 bytes goes
    out as 4 chunks of 16384, 16384, 16384 and 848 bytes. *)
Theorem total_chunks_is_ceiling
    (snap : State) (conn : DataConnection) (w : World) (file : File.t) :
  0 < File.size file ->
  sender_ready snap conn w ->
  let sender := run (S (chunk_count file)) (sendFile snap file w) in
  let chunks := omap chunk_payload (sent_messages (effects_since w sender)) in
  totalChunks file = Qceiling (File.size file # 16384) /\
  Z.of_nat (length chunks) = totalChunks file /\
  (File.size file = 50000 ->
   totalChunks file = 4 /\
   map (fun chunk => Z.of_nat (length chunk)) chunks = [16384; 16384; 16384; 848]).
Proof.
  intros Hsize Hready sender chunks.
  assert (Hc : chunks = map (nth_chunk file) (seq 0 (chunk_count file))).
  { unfold chunks, sender. rewrite (sender_messages snap conn w file Hready).
    apply chunk_payloads_transfer. }
  split; [apply totalChunks_ceiling|].
  split; [rewrite Hc, length_map, length_seq; apply chunk_count_Z|].
  intros E.
  assert (Hn : totalChunks file = 4) by (rewrite totalChunks_div, E; reflexivity).
  split; [exact Hn|].
  assert (Hcount : chunk_count file = 4%nat) by (unfold chunk_count; rewrite Hn; reflexivity).
  rewrite Hc, Hcount. cbn [seq map].
  rewrite !nth_chunk_size by (rewrite Hcount; lia).
  rewrite Hcount, E. reflexivity.
Qed.


(** ** Progress *)

Lemma sorted_map_seq {A} (R : A -> A -> Prop) (f : nat -> A) (a len : nat) :
  (forall i j : nat, (a <= i)%nat -> (i <= j)%nat -> (j < a + len)%nat -> R (f i) (f j)) ->
  StronglySorted R (map f (seq a len)).
Proof.
  revert a. induction len as [|len IH]; intros a H; cbn [seq map].
  - constructor.
  - constructor.
    + apply IH. intros i j Hi Hij Hj. apply H; lia.
    + apply List.Forall_forall. intros x Hx.
      apply in_map_iff in Hx as (j & <- & Hj). apply in_seq in Hj. apply H; lia.
Qed.

Lemma sorted_map_seq_last {A} (R : A -> A -> Prop) (f : nat -> A) (n : nat) :
  (forall i j : nat, (1 <= i)%nat -> (i <= j)%nat -> (j <= n)%nat -> R (f i) (f j)) ->
  StronglySorted R (map f (seq 1 n) ++ [f n]).
Proof.
  intros H. apply StronglySorted_app. split; [|split].
  - intros x1 x2 H1 H2. apply list_elem_of_In, in_map_iff in H1 as (i & <- & Hi).
    apply in_seq in Hi. apply list_elem_of_singleton in H2 as ->. apply H; lia.
  - apply sorted_map_seq. intros i j Hi Hij Hj. apply H; lia.
  - repeat constructor.
Qed.

Lemma progress_after_mono (old : number) (file : File.t) (i j : nat) :
  (1 <= i)%nat -> (i <= j)%nat -> (j <= chunk_count file)%nat ->
  number_le (progress_after old file i) (progress_after old file j).
Proof.
  intros Hi Hij Hj. pose proof (chunk_count_Z file) as Hn.
  destruct i as [|i]; [lia|]. destruct j as [|j]; [lia|]. cbn [progress_after].
  apply progressPercent_mono; lia.
Qed.

Lemma progress_after_full (old : number) (file : File.t) :
  0 < File.size file -> progress_after old file (chunk_count file) = Finite 100.
Proof.
  intros Hsize. pose proof (totalChunks_pos file Hsize) as Hn.
  pose proof (chunk_count_Z file) as Hc.
  destruct (chunk_count file) as [|n] eqn:E; [lia|]. cbn [progress_after].
  rewrite Hc. apply progressPercent_full. exact Hn.
Qed.

Lemma state_sendNextChunk (job : SendJob) (start : Z) (w : World) :
  state (sendNextChunk job start w) = state w.
Proof. unfold sendNextChunk. destruct (_ <=? _); reflexivity. Qed.

Lemma progress_sender_after (w : World) (conn : DataConnection) (file : File.t) (j : nat) :
  progress_of (sender_after w conn file j) =
  progress_after (transferProgress (state w)) file j.
Proof. unfold progress_of, sender_after. rewrite state_sendNextChunk. reflexivity. Qed.

Lemma assemble_keeps_progress (snap : State) (w : World) :
  progress_of (assembleAndDownloadFile snap w) = progress_of w.
Proof.
  unfold progress_of, assembleAndDownloadFile.
  destruct (_ =? _)%nat; [reflexivity|].
  destruct (_ =? _); [reflexivity|].
  destruct (copy_chunks _ _ _); [|reflexivity].
  run_handler. destruct (connectionRef (refs w)), (connectionReady snap); reflexivity.
Qed.

Lemma receive_trajectory_chunks (snap : State) (w : World) (file : File.t) (j : nat) :
  (j <= chunk_count file)%nat ->
  receive_trajectory snap (map (chunk_message file) (seq 0 j)) (receiver_after snap w file 0)
  = map (receiver_after snap w file) (seq 1 j).
Proof.
  induction j as [|j IH]; intros Hj; [reflexivity|].
  rewrite seq_S, map_app, receive_trajectory_app, IH by lia.
  rewrite (seq_S j 1), map_app. f_equal.
  assert (E : receive snap (map (chunk_message file) (seq 0 j)) (receiver_after snap w file 0)
              = receiver_after snap w file j).
  { rewrite <- (receive_metadata snap w file).
    change (receive snap ?l (handleReceivedData snap ?m w)) with (receive snap (m :: l) w).
    apply receive_chunks. lia. }
  rewrite E. cbn [map receive_trajectory Nat.add]. f_equal. apply receive_chunk. lia.
Qed.

Lemma receive_trajectory_transfer (snap : State) (w : World) (file : File.t) :
  tail (receive_trajectory snap (transfer_messages file) w) =
  map (receiver_after snap w file) (seq 1 (chunk_count file)) ++
  [assembleAndDownloadFile snap (receiver_after snap w file (chunk_count file))].
Proof.
  unfold transfer_messages. cbn [receive_trajectory tail].
  rewrite receive_metadata, receive_trajectory_app, receive_trajectory_chunks by lia.
  f_equal. cbn [receive_trajectory]. do 2 f_equal.
  rewrite <- (receive_metadata snap w file).
  change (receive snap ?l (handleReceivedData snap ?m w)) with (receive snap (m :: l) w).
  apply receive_chunks. lia.
Qed.

(** C4.  During one transfer the progress shown is non-decreasing on both
    sides: on the sender over the worlds after each chunk and after the
    completion timer, on the receiver over the worlds after each chunk and
    after the completion marker (the metadata message itself does not write
    the progress).  For a non-empty file these values are
    [Math.round((j / totalChunks) * 100)] for j = 1, ..., [totalChunks], the
    sender ends in phase [sent] and the receiver in phase [completed]; and
    whenever the receiver ends in phase [completed], the progress of both
    sides is exactly 100. *)
Theorem progress_monotone_and_complete
    (ssnap rsnap : State) (conn : DataConnection) (sw rw : World) (file : File.t) :
  sender_ready ssnap conn sw ->
  let n := chunk_count file in
  let sender_worlds := trajectory (S n) (sendFile ssnap file sw) in
  let sender := run (S n) (sendFile ssnap file sw) in
  let messages := sent_messages (effects_since sw sender) in
  let receiver_worlds := tail (receive_trajectory rsnap messages rw) in
  let receiver := receive rsnap messages rw in
  let expected :=
    map (fun j => progressPercent (Z.of_nat j) (totalChunks file)) (seq 1 n ++ [n]) in
  StronglySorted number_le (map progress_of sender_worlds) /\
  StronglySorted number_le (map progress_of receiver_worlds) /\
  (0 < File.size file ->
   map progress_of sender_worlds = expected /\
   map progress_of receiver_worlds = expected /\
   transferStatus (state sender) = "sent" /\
   transferStatus (state receiver) = "completed") /\
  (transferStatus (state receiver) = "completed" ->
   progress_of sender = Finite 100 /\ progress_of receiver = Finite 100).
Proof.
  intros Hready n sender_worlds sender messages receiver_worlds receiver expected.
  subst n.
  assert (Hm : messages = transfer_messages file)
    by exact (sender_messages ssnap conn sw file Hready).
  set (sold := transferProgress (state sw)). set (rold := transferProgress (state rw)).
  assert (Hs : map progress_of sender_worlds =
               map (progress_after sold file) (seq 1 (chunk_count file)) ++ [progress_after sold file (chunk_count file)]).
  { unfold sender_worlds. rewrite (sender_trajectory ssnap conn sw file Hready).
    rewrite map_app, map_map. f_equal.
    apply map_ext. intros j. apply progress_sender_after. }
  assert (Hr : map progress_of receiver_worlds =
               map (progress_after rold file) (seq 1 (chunk_count file)) ++ [progress_after rold file (chunk_count file)]).
  { unfold receiver_worlds. rewrite Hm, receive_trajectory_transfer.
    rewrite map_app, map_map. cbn [map]. rewrite assemble_keeps_progress. reflexivity. }
  assert (Hsender : sender = sender_done sw conn file)
    by exact (sender_finishes ssnap conn sw file Hready).
  assert (Hexp : forall old, 0 < File.size file ->
            map (progress_after old file) (seq 1 (chunk_count file)) ++
            [progress_after old file (chunk_count file)] = expected).
  { intros old Hsize. unfold expected. rewrite map_app. cbn [map].
    pose proof (totalChunks_pos file Hsize) as Hn. pose proof (chunk_count_Z file) as Hc.
    f_equal.
    - apply map_ext_in. intros j Hj. apply in_seq in Hj.
      destruct j as [|j]; [lia | reflexivity].
    - destruct (chunk_count file) as [|k]; [lia | reflexivity]. }
  split; [rewrite Hs; apply sorted_map_seq_last; apply progress_after_mono|].
  split; [rewrite Hr; apply sorted_map_seq_last; apply progress_after_mono|].
  split.
  - intros Hsize. split; [rewrite Hs; apply Hexp, Hsize|].
    split; [rewrite Hr; apply Hexp, Hsize|].
    split; [rewrite Hsender; reflexivity|].
    unfold receiver. rewrite Hm, (receive_transfer rsnap rw file Hsize). reflexivity.
  - intros Hdone.
    assert (Hsize : 0 < File.size file).
    { pose proof (size_bounds file) as Hb.
      destruct (Z.eq_dec (File.size file) 0) as [E|NE]; [|lia]. exfalso.
      unfold receiver in Hdone. rewrite Hm in Hdone. unfold transfer_messages in Hdone.
      rewrite app_comm_cons, receive_app, receive_transfer_prefix in Hdone.
      cbn [receive foldl] in Hdone.
      rewrite (receive_complete_empty rsnap rw file E) in Hdone. discriminate. }
    split.
    + rewrite Hsender. unfold progress_of, sender_done, sending_state. project.
      apply progress_after_full, Hsize.
    + unfold receiver. rewrite Hm, (receive_transfer rsnap rw file Hsize).
      unfold progress_of, receiver_done, receiving_state. project.
      apply progress_after_full, Hsize.
Qed.

(** ** Receiving metadata *)

Lemma handle_metadata (snap : State) (o : Data.t) (w : World) :
  is_type o "FILE_METADATA" = true ->
  handleReceivedData snap (VObject o) w =
  mkWorld
    (mkState (roomId (state w)) (joinMode (state w)) (joinRoomId (state w))
       (connectionStatus (state w)) (selectedFile (state w))
       (transferProgress (state w)) "receiving"
       (or_string (Data.name o) "unknown") (or_number (Data.size o) 0)
       (or_string (Data.fileType o) "") (peerReady (state w))
       (connectionReady (state w)))
    (mkRefs (peerRef (refs w)) (connectionRef (refs w)) [] 0 0)
    (effects w ++
     [ToastInfo (String.append "Receiving file: " (or_string (Data.name o) "unknown"))])
    (pending w).
Proof.
  intros Ht. unfold handleReceivedData. rewrite Ht. destruct w as [s r es p]. reflexivity.
Qed.

(** C5, at a concrete input.  A receiver that shows 50 percent after the
    first of two chunks gets the metadata of another file: the buffer, the
    received count and the latched total are reset, the new name, size and
    type are recorded and the phase is [receiving], but the progress is
    still 50 and not 0.  [resetFileSelection] and [switchMode] do write 0. *)
Theorem metadata_leaves_progress_stale :
  let before := half_received in
  let after := handleReceivedData joined_state second_metadata before in
  fileChunksRef (refs before) = [Some full_chunk] /\
  receivedChunksRef (refs before) = 1 /\
  totalChunksRef (refs before) = 2 /\
  progress_of before = Finite 50 /\
  fileChunksRef (refs after) = [] /\
  receivedChunksRef (refs after) = 0 /\
  totalChunksRef (refs after) = 0 /\
  receivedFileName (state after) = "b.txt" /\
  receivedFileSize (state after) = 5 /\
  receivedFileType (state after) = "text/plain" /\
  transferStatus (state after) = "receiving" /\
  progress_of after = Finite 50 /\
  progress_of after <> Finite 0 /\
  progress_of (resetFileSelection before) = Finite 0.
Proof.
  cbv zeta. split_all; try (vm_compute; reflexivity).
  vm_compute. discriminate.
Qed.

(** ** Finalization *)

Lemma assemble_no_chunks (snap : State) (w : World) :
  fileChunksRef (refs w) = [] ->
  assembleAndDownloadFile snap w =
  mkWorld (state (setTransferStatus "error" w)) (refs w)
    (effects w ++ [ConsoleError "No file chunks to assemble";
                   ToastError "Error downloading file: No data received"])
    (pending w).
Proof.
  intros E. unfold assembleAndDownloadFile. rewrite E. cbn [length Nat.eqb].
  run_handler. rewrite <- app_assoc. reflexivity.
Qed.

Lemma assemble_no_bytes (snap : State) (w : World) :
  fileChunksRef (refs w) <> [] -> stored_bytes (fileChunksRef (refs w)) = [] ->
  assembleAndDownloadFile snap w =
  mkWorld (state (setTransferStatus "error" w)) (refs w)
    (effects w ++ [ConsoleError "File size is zero";
                   ToastError "Error downloading file: Empty file"])
    (pending w).
Proof.
  intros Hne E. unfold assembleAndDownloadFile.
  destruct (Nat.eqb_spec (length (fileChunksRef (refs w))) 0) as [E0|_].
  { apply length_zero_iff_nil in E0. contradiction. }
  rewrite byteLength_sum_stored, E. cbn [length Z.of_nat Z.eqb].
  run_handler. rewrite <- app_assoc. reflexivity.
Qed.

Lemma assemble_delivers (snap : State) (w : World) :
  fileChunksRef (refs w) <> [] -> stored_bytes (fileChunksRef (refs w)) <> [] ->
  assembleAndDownloadFile snap w =
  mkWorld (state (setTransferStatus "completed" w)) (refs w)
    (effects w ++
     [Download (str_or (receivedFileName snap) "downloaded_file")
        (str_or (receivedFileType snap) "application/octet-stream")
        (stored_bytes (fileChunksRef (refs w)));
      ToastSuccess "File downloaded successfully!"] ++ acknowledgement snap (refs w))
    (pending w).
Proof.
  intros Hne Hnn. unfold assembleAndDownloadFile, acknowledgement.
  destruct (Nat.eqb_spec (length (fileChunksRef (refs w))) 0) as [E0|_].
  { apply length_zero_iff_nil in E0. contradiction. }
  rewrite copy_chunks_assembles, byteLength_sum_stored.
  destruct (Z.eqb_spec (Z.of_nat (length (stored_bytes (fileChunksRef (refs w))))) 0)
    as [E1|_].
  { exfalso. apply Hnn, length_zero_iff_nil. lia. }
  run_handler.
  destruct (connectionRef (refs w)), (connectionReady snap); project;
    rewrite <- ?app_assoc; reflexivity.
Qed.

(** The three cases of [assembleAndDownloadFile].  It reports "No data
    received" and sets the phase [error] when the array of chunks is empty;
    it reports "Empty file" and sets the phase [error] when the stored
    chunks hold no byte; in every other case it downloads the stored chunks
    concatenated in index order and sets the phase [completed].  Whether
    [FILE_RECEIVED_SUCCESSFULLY] goes back is decided by the connection
    object held at that moment and by the [connectionReady] of the render
    [snap] that created the handler, not by the current one.  Refs and
    queued continuations are left alone in all three cases. *)
Lemma finalization_cases (snap : State) (w : World) :
  let chunks := fileChunksRef (refs w) in
  let w' := assembleAndDownloadFile snap w in
  let status := transferStatus (state w') in
  let new := effects_since w w' in
  refs w' = refs w /\ pending w' = pending w /\
  effects w' = effects w ++ new /\
  (chunks = [] ->
   status = "error" /\
   new = [ConsoleError "No file chunks to assemble";
          ToastError "Error downloading file: No data received"]) /\
  (chunks <> [] -> stored_bytes chunks = [] ->
   status = "error" /\
   new = [ConsoleError "File size is zero";
          ToastError "Error downloading file: Empty file"]) /\
  (chunks <> [] -> stored_bytes chunks <> [] ->
   status = "completed" /\
   new = [Download (str_or (receivedFileName snap) "downloaded_file")
            (str_or (receivedFileType snap) "application/octet-stream")
            (stored_bytes chunks);
          ToastSuccess "File downloaded successfully!"] ++
         match connectionRef (refs w), connectionReady snap with
         | Some conn, true => [Send conn FILE_RECEIVED_SUCCESSFULLY]
         | _, _ => []
         end).
Proof.
  intros chunks w' status new. subst chunks w' status new.
  destruct (fileChunksRef (refs w)) as [|c cs] eqn:Ec.
  - rewrite (assemble_no_chunks snap w Ec).
    rewrite effects_since_mk.
    repeat split; try reflexivity; intros; congruence.
  - assert (Hne : fileChunksRef (refs w) <> []) by (rewrite Ec; discriminate).
    destruct (stored_bytes (c :: cs)) as [|b bs] eqn:Eb; rewrite <- Ec in Eb.
    + rewrite (assemble_no_bytes snap w Hne Eb).
      rewrite effects_since_mk.
      repeat split; try reflexivity; intros; congruence.
    + assert (Hnn : stored_bytes (fileChunksRef (refs w)) <> []) by (rewrite Eb; discriminate).
      rewrite (assemble_delivers snap w Hne Hnn).
      rewrite effects_since_mk. rewrite Eb.
      repeat split; try reflexivity; intros; congruence.
Qed.

(** ** Ignored and refused requests *)

(** C7.  A [FILE_CHUNK] message without [data] only logs a warning: no
    chunk is stored, the received count, the latched total and the progress
    keep their values, no timer is armed and nothing is raised. *)
Theorem chunk_without_data_is_ignored (snap : State) (o : Data.t) (w : World) :
  Data.type o = Some "FILE_CHUNK" ->
  Data.data o = None ->
  handleReceivedData snap (VObject o) w =
  mkWorld (state w) (refs w)
    (effects w ++ [ConsoleWarn "Received chunk without data"]) (pending w).
Proof.
  intros Ht Hd. unfold handleReceivedData, is_type. rewrite Ht, Hd. reflexivity.
Qed.

Lemma chunk_without_data_is_ignored_witness :
  handleReceivedData joined_state (VObject chunk_without_data) half_received =
  mkWorld (state half_received) (refs half_received)
    (effects half_received ++ [ConsoleWarn "Received chunk without data"])
    (pending half_received).
Proof.
  apply (chunk_without_data_is_ignored joined_state chunk_without_data half_received);
    reflexivity.
Defined.

(** C8.  [sendFile] called by a handler that does not see the status
    [connected] only shows the error toast: nothing is sent, no
    continuation is queued, and state and refs are untouched. *)
Theorem sendFile_when_not_connected (snap : State) (file : File.t) (w : World) :
  connectionStatus snap <> "connected" ->
  sendFile snap file w =
  mkWorld (state w) (refs w)
    (effects w ++
     [ToastError "No active connection. Please wait for the receiver to connect."])
    (pending w).
Proof.
  intros Hs. apply String.eqb_neq in Hs. unfold sendFile. rewrite Hs.
  destruct (connectionRef (refs w)); reflexivity.
Qed.

Lemma sendFile_when_not_connected_witness :
  connectionStatus waiting_state <> "connected" /\
  sendFile waiting_state sample_file connected_sender =
  mkWorld (state connected_sender) (refs connected_sender)
    (effects connected_sender ++
     [ToastError "No active connection. Please wait for the receiver to connect."])
    (pending connected_sender).
Proof.
  assert (H : connectionStatus waiting_state <> "connected") by discriminate.
  split; [exact H|].
  exact (sendFile_when_not_connected waiting_state sample_file connected_sender H).
Defined.

(** The same holds when no connection object is held or the handler saw
    the connection not ready. *)
Lemma sendFile_guard (snap : State) (file : File.t) (w : World) :
  connectionRef (refs w) = None \/ connectionReady snap = false ->
  sendFile snap file w =
  mkWorld (state w) (refs w)
    (effects w ++
     [ToastError "No active connection. Please wait for the receiver to connect."])
    (pending w).
Proof.
  intros [H|H]; unfold sendFile; rewrite H.
  - reflexivity.
  - rewrite andb_false_r. destruct (connectionRef (refs w)); reflexivity.
Qed.

(** The acknowledgement ends the transfer on the sender and leaves the
    progress alone. *)
Lemma sender_onData_acknowledged (w : World) :
  transferStatus (state (sender_onData FILE_RECEIVED_SUCCESSFULLY w)) = "completed" /\
  progress_of (sender_onData FILE_RECEIVED_SUCCESSFULLY w) = progress_of w.
Proof. split; reflexivity. Qed.

(** [null] and [undefined] never reach [handleReceivedData]. *)
Lemma receiver_onData_object (snap : State) (o : Data.t) (w : World) :
  receiver_onData snap (VObject o) w = handleReceivedData snap (VObject o) w.
Proof. reflexivity. Qed.

(** ** Switching roles *)

Lemma switchMode_world (snap s : State) (p : option Peer) (c : option DataConnection)
    (chunks : list (option ArrayBuffer)) (total received : Z) (es : list Effect)
    (ts : list Task) :
  switchMode snap (mkWorld s (mkRefs p c chunks total received) es ts) =
  mkWorld
    (mkState (roomId s) (negb (joinMode snap)) "" "disconnected" None (Finite 0) ""
       (receivedFileName s) (receivedFileSize s) (receivedFileType s) false false)
    (mkRefs None None chunks total received)
    (es ++ match c with Some conn => [Close conn] | None => [] end
        ++ match p with Some peer => [Destroy peer] | None => [] end)
    ts.
Proof.
  unfold switchMode. destruct s, c as [c|], p as [p|]; eval_handler;
    rewrite <- ?app_assoc, ?app_nil_r; reflexivity.
Qed.

(** C9, as stated, fails.  [switchMode] is called by clicks on the role
    switch, and the second of two clicks runs the handler of the render
    that followed the first: it flips the role back, so the role after two
    clicks is not the role after one. *)
Lemma switchMode_twice_differs :
  joinMode (state (switch_click "5e6f7a8b" 6%nat
                     (switch_click "1a2b3c4d" 5%nat connected_sender))) <>
  joinMode (state (switch_click "1a2b3c4d" 5%nat connected_sender)).
Proof. vm_compute. discriminate. Qed.

(** C9, amended.  [switchMode] can be called in any state.  It closes the
    connection and then destroys the peer when they are held and clears
    both refs, resets status, selected file, progress, phase and join token
    (and the two readiness flags) to their defaults, and sets the role to
    the opposite of the role of its render.  Called a second time by the
    same handler it changes nothing.  A click flips the role; in the render
    that follows, the second effect has nothing to send and the first
    creates a peer and a room code when the new role is the sender's.  A
    second click then resets the same fields again, destroys that peer and
    flips the role back to the original one. *)
Theorem switchMode_resets_and_toggles
    (snap : State) (w : World) (newRoomId : string) (peer : Peer) :
  let once := switchMode snap w in
  let clicked := click switchMode w in
  let shown := switch_click newRoomId peer w in
  let twice := click switchMode shown in
  state once =
    mkState (roomId (state w)) (negb (joinMode snap)) "" "disconnected" None
      (Finite 0) "" (receivedFileName (state w)) (receivedFileSize (state w))
      (receivedFileType (state w)) false false /\
  refs once =
    mkRefs None None (fileChunksRef (refs w)) (totalChunksRef (refs w))
      (receivedChunksRef (refs w)) /\
  effects once =
    effects w ++
    match connectionRef (refs w) with Some conn => [Close conn] | None => [] end ++
    match peerRef (refs w) with Some peer => [Destroy peer] | None => [] end /\
  pending once = pending w /\
  switchMode snap once = once /\
  joinMode (state clicked) = negb (joinMode (state w)) /\
  (forall v : World, sendWhenReady (state shown) v = v) /\
  peerRef (refs shown) = (if joinMode (state w) then Some peer else None) /\
  joinMode (state twice) = joinMode (state w) /\
  roomId (state twice) = (if joinMode (state w) then newRoomId else roomId (state w)) /\
  connectionStatus (state twice) = "disconnected" /\
  selectedFile (state twice) = None /\
  progress_of twice = Finite 0 /\
  transferStatus (state twice) = "" /\
  joinRoomId (state twice) = "" /\
  refs twice = refs clicked /\
  effects twice =
    effects clicked ++ (if joinMode (state w) then [Destroy peer] else []) /\
  pending twice = pending w.
Proof.
  destruct w as [s [p c chunks total received] es ts].
  intros once clicked shown twice.
  assert (Hshown : shown =
    if joinMode s
    then mkWorld
           (mkState newRoomId false "" "disconnected" None (Finite 0) ""
              (receivedFileName s) (receivedFileSize s) (receivedFileType s) false false)
           (mkRefs (Some peer) None chunks total received) (effects clicked) ts
    else mkWorld
           (mkState (roomId s) true "" "disconnected" None (Finite 0) ""
              (receivedFileName s) (receivedFileSize s) (receivedFileType s) false false)
           (mkRefs None None chunks total received) (effects clicked) ts).
  { unfold shown, clicked, switch_click, click, joinMode_effect.
    cbn [state]. rewrite switchMode_world.
    destruct (joinMode s); reflexivity. }
  unfold twice, click. rewrite Hshown.
  unfold once, clicked, click. cbn [state].
  destruct (joinMode s) eqn:Hj; rewrite !switchMode_world;
    cbn [state refs effects pending roomId joinMode joinRoomId connectionStatus
         selectedFile transferStatus peerRef negb progress_of transferProgress
         fileChunksRef totalChunksRef receivedChunksRef receivedFileName
         receivedFileSize receivedFileType];
    rewrite ?Hj, ?app_nil_r; cbn [negb]; split_all; reflexivity.
Qed.

(** ** Duplicate chunks *)

(** C10.  Two well-formed chunk messages with the same index 0 of a
    one-chunk transfer: the second payload replaces the first, the received
    count becomes 2 although one chunk was announced, and the progress is
    200.  In general a chunk whose index is already stored overwrites the
    stored payload and still counts. *)
Theorem duplicate_chunk_is_not_detected :
  (exists (first second : ArrayBuffer),
     let announced := handleReceivedData joined_state first_metadata connected_receiver in
     let one := handleReceivedData joined_state (FILE_CHUNK first 0 1) announced in
     let two := handleReceivedData joined_state (FILE_CHUNK second 0 1) one in
     first <> second /\
     fileChunksRef (refs one) = [Some first] /\
     progress_of one = Finite 100 /\
     fileChunksRef (refs two) = [Some second] /\
     totalChunksRef (refs two) = 1 /\
     receivedChunksRef (refs two) = 2 /\
     totalChunksRef (refs two) < receivedChunksRef (refs two) /\
     progress_of two = Finite 200 /\
     ~ number_le (progress_of two) (Finite 100)) /\
  (forall (snap : State) (w : World) (buf : ArrayBuffer) (i : nat) (n : Z),
     (i < length (fileChunksRef (refs w)))%nat ->
     let w' := handleReceivedData snap (FILE_CHUNK buf (Z.of_nat i) n) w in
     fileChunksRef (refs w') = <[i := Some buf]> (fileChunksRef (refs w)) /\
     receivedChunksRef (refs w') = receivedChunksRef (refs w) + 1).
Proof.
  split.
  - exists [x01], [x02]. cbv zeta.
    split_all; try (vm_compute; reflexivity).
    + discriminate.
    + vm_compute. intros H. apply H. reflexivity.
  - intros snap w buf i n Hi w'. unfold w'. rewrite handle_chunk. cbv zeta. project.
    split; [apply array_set_inside; exact Hi | reflexivity].
Qed.

(** ** The properties at the sample transfer *)

Lemma sample_file_size : 0 < File.size sample_file.
Proof. reflexivity. Qed.

Lemma sample_sender_ready : sender_ready connected_state 2%nat connected_sender.
Proof. repeat split. Qed.

Lemma split_and_reassemble_witness :
  let sender :=
    run (S (chunk_count sample_file))
      (sendFile connected_state sample_file connected_sender) in
  let messages := sent_messages (effects_since connected_sender sender) in
  let receiver := receive joined_state messages connected_receiver in
  0 < File.size sample_file /\
  sender_ready connected_state 2%nat connected_sender /\
  List.concat (omap chunk_payload messages) = File.bytes sample_file /\
  downloads (effects_since connected_receiver receiver) = [File.bytes sample_file].
Proof.
  pose proof (split_and_reassemble connected_state joined_state 2%nat connected_sender
                connected_receiver sample_file sample_file_size sample_sender_ready)
    as (_ & _ & Hcat & Hdown & _).
  intros sender messages receiver.
  split; [exact sample_file_size|]. split; [exact sample_sender_ready|].
  split; [exact Hcat | exact Hdown].
Defined.

Lemma total_chunks_is_ceiling_witness :
  let sender :=
    run (S (chunk_count sample_file))
      (sendFile connected_state sample_file connected_sender) in
  let chunks := omap chunk_payload (sent_messages (effects_since connected_sender sender)) in
  0 < File.size sample_file /\
  sender_ready connected_state 2%nat connected_sender /\
  File.size sample_file = 50000 /\
  totalChunks sample_file = 4 /\
  map (fun chunk => Z.of_nat (length chunk)) chunks = [16384; 16384; 16384; 848].
Proof.
  pose proof (total_chunks_is_ceiling connected_state 2%nat connected_sender sample_file
                sample_file_size sample_sender_ready) as (_ & _ & H).
  destruct (H eq_refl) as [Hn Hsizes].
  intros sender chunks.
  split; [exact sample_file_size|]. split; [exact sample_sender_ready|].
  split; [reflexivity|]. split; [exact Hn | exact Hsizes].
Defined.


Lemma progress_monotone_and_complete_witness :
  let sender :=
    run (S (chunk_count sample_file))
      (sendFile connected_state sample_file connected_sender) in
  let messages := sent_messages (effects_since connected_sender sender) in
  let receiver := receive joined_state messages connected_receiver in
  sender_ready connected_state 2%nat connected_sender /\
  transferStatus (state receiver) = "completed" /\
  progress_of sender = Finite 100 /\
  progress_of receiver = Finite 100.
Proof.
  pose proof (progress_monotone_and_complete connected_state joined_state 2%nat
                connected_sender connected_receiver sample_file sample_sender_ready)
    as (_ & _ & H1 & H2).
  destruct (H1 sample_file_size) as (_ & _ & _ & Hdone).
  destruct (H2 Hdone) as [Hs Hr].
  intros sender messages receiver.
  split; [exact sample_sender_ready|]. split; [exact Hdone|].
  split; [exact Hs | exact Hr].
Defined.

(** The sample transfer, computed: four chunks, progress 25, 50, 75 and
    100 on both sides. *)
Example sample_transfer_progress :
  map progress_of
    (trajectory 5 (sendFile connected_state sample_file connected_sender))
  = [Finite 25; Finite 50; Finite 75; Finite 100; Finite 100].
Proof. vm_compute. reflexivity. Qed.

(** ** The rounding model against the binary64 operations of the library *)

(** The two agree on every counter up to twice the total for totals up to
    48, and on every counter of a transfer of 200 chunks; 29 of 200 chunks
    show 14 percent, where exact arithmetic would give 14.5 and round to
    15. *)
Example rounding_agrees_with_binary64 :
  forallb (fun n => forallb (fun k => agrees_with_binary64 k n) (seqZ 1 (2 * n)))
    (seqZ 1 48) = true /\
  forallb (fun k => agrees_with_binary64 k 200) (seqZ 1 200) = true.
Proof. split; vm_compute; reflexivity. Qed.

Example progress_29_of_200 : progressPercent 29 200 = Finite 14.
Proof. vm_compute. reflexivity. Qed.

(** * Further properties *)

(** ** A transfer that goes on from any world *)

Lemma chunk_sent_frame (conn : DataConnection) (file : File.t) (j : nat) (w : World) :
  refs (chunk_sent conn file j w) = refs w /\
  pending (chunk_sent conn file j w) = pending w /\
  effects (chunk_sent conn file j w) = effects w ++ [Send conn (chunk_message file j)].
Proof. split_all; reflexivity. Qed.

Lemma chunks_sent_frame (conn : DataConnection) (file : File.t) (k : nat) :
  forall (j : nat) (w : World),
    refs (chunks_sent conn file j k w) = refs w /\
    pending (chunks_sent conn file j k w) = pending w /\
    effects (chunks_sent conn file j k w) =
    effects w ++ map (fun i => Send conn (chunk_message file i)) (seq j k).
Proof.
  induction k as [|k IH]; intros j w; cbn [chunks_sent seq map].
  - rewrite app_nil_r. split_all; reflexivity.
  - destruct (IH (S j) (chunk_sent conn file j w)) as (Hr & Hp & He).
    destruct (chunk_sent_frame conn file j w) as (Hr' & Hp' & He').
    rewrite Hr, Hp, He, Hr', Hp', He', <- app_assoc. split_all; reflexivity.
Qed.

Lemma chunks_sent_state (conn : DataConnection) (file : File.t) (k : nat) :
  forall (j : nat) (w : World),
    same_session (state w) (state (chunks_sent conn file j k w)) /\
    (k <> O ->
     transferStatus (state (chunks_sent conn file j k w)) = "sending" /\
     progress_of (chunks_sent conn file j k w) =
     progressPercent (Z.of_nat (j + k)) (totalChunks file)).
Proof.
  induction k as [|k IH]; intros j w; cbn [chunks_sent].
  - split; [unfold same_session; split_all; reflexivity | intros H; contradiction].
  - destruct (IH (S j) (chunk_sent conn file j w)) as (Hs & Hk).
    split.
    + unfold same_session in *. destruct Hs as (H1&H2&H3&H4&H5&H6&H7&H8&H9&H10).
      rewrite H1, H2, H3, H4, H5, H6, H7, H8, H9, H10. split_all; reflexivity.
    + intros _. destruct k as [|k].
      * cbn [chunks_sent]. rewrite Nat.add_1_r. split; reflexivity.
      * destruct (Hk ltac:(discriminate)) as [H1 H2]. rewrite H1, H2.
        replace (S j + S k)%nat with (j + S (S k))%nat by lia. split; reflexivity.
Qed.

Section JobRun.
Variables (conn : DataConnection) (file : File.t).

Lemma reading_chunk_step (j : nat) (w : World) :
  pending w = [] -> connectionRef (refs w) = Some conn ->
  (j < chunk_count file)%nat ->
  step ReadLoaded (reading_chunk file j w) =
  reading_chunk file (S j) (chunk_sent conn file j w).
Proof.
  intros Hp Hc Hj. destruct (chunk_start_inside file j Hj) as [_ Hlt].
  unfold reading_chunk at 1, sendNextChunk at 1. unfold job_at. cbn [job_file].
  destruct (Z.leb_spec (File.size file) (chunk_start file j)) as [Hle|_]; [lia|].
  rewrite chunk_start_succ.
  unfold step, schedule. rewrite Hp. cbn [pending app run_task state refs effects].
  unfold reader_onload. cbn [refs job_connectionReady job_chunksProcessed
                             job_totalChunks job_file].
  rewrite Hc. replace (Z.of_nat j + 1) with (Z.of_nat (S j)) by lia.
  destruct w as [s r es p]. cbn in Hp. subst p. reflexivity.
Qed.

Lemma reading_chunk_run (k : nat) :
  forall (j : nat) (w : World),
    pending w = [] -> connectionRef (refs w) = Some conn ->
    (j + k <= chunk_count file)%nat ->
    run k (reading_chunk file j w) =
    reading_chunk file (j + k) (chunks_sent conn file j k w).
Proof.
  induction k as [|k IH]; intros j w Hp Hc Hj.
  - rewrite Nat.add_0_r. reflexivity.
  - cbn [run chunks_sent]. rewrite reading_chunk_step by (auto; lia).
    destruct (chunk_sent_frame conn file j w) as (Hr & Hp' & _).
    rewrite IH by (rewrite ?Hr, ?Hp'; auto; lia).
    f_equal. lia.
Qed.

Lemma reading_chunk_last (w : World) :
  pending w = [] -> connectionRef (refs w) = Some conn ->
  step ReadLoaded (reading_chunk file (chunk_count file) w) =
  (send conn FILE_COMPLETE ;; setTransferStatus "sent") w.
Proof.
  intros Hp Hc. unfold reading_chunk, sendNextChunk, job_at. cbn [job_file].
  rewrite chunk_start_end, Z.leb_refl.
  unfold step, schedule. rewrite Hp. cbn [pending app run_task state refs effects].
  unfold complete_timeout. cbn [refs job_connectionReady]. rewrite Hc.
  destruct w as [s r es p]. cbn in Hp. subst p. reflexivity.
Qed.

(** From the point where chunk [j] is the next one to read, whatever the
    state of the world, the remaining chunks and the completion marker go
    out as long as the connection object is still held. *)
Lemma reading_chunk_finishes (j : nat) (w : World) :
  pending w = [] -> connectionRef (refs w) = Some conn ->
  (j <= chunk_count file)%nat ->
  run (S (chunk_count file - j)) (reading_chunk file j w) =
  (send conn FILE_COMPLETE ;; setTransferStatus "sent")
    (chunks_sent conn file j (chunk_count file - j) w).
Proof.
  intros Hp Hc Hj. rewrite run_S, reading_chunk_run by (auto; lia).
  replace (j + (chunk_count file - j))%nat with (chunk_count file) by lia.
  destruct (chunks_sent_frame conn file (chunk_count file - j) j w) as (Hr & Hp' & _).
  apply reading_chunk_last; [rewrite Hp' | rewrite Hr]; assumption.
Qed.

End JobRun.

Lemma sender_after_reading (w : World) (conn : DataConnection) (file : File.t) (j : nat) :
  sender_after w conn file j =
  reading_chunk file j
    (mkWorld
       (sending_state (state w) file
          (match j with O => "preparing" | S _ => "sending" end) j)
       (refs w) (sent_so_far w conn file j) []).
Proof. reflexivity. Qed.

(** ** Transfers that are disturbed *)

Lemma reading_chunk_commutes (a : Action) (file : File.t) (j : nat) (w : World) :
  keeps_queue a -> a (reading_chunk file j w) = reading_chunk file j (a w).
Proof.
  intros Ha. unfold reading_chunk, sendNextChunk.
  destruct (_ <=? _); apply Ha.
Qed.

Lemma resetFileSelection_keeps_queue : keeps_queue resetFileSelection.
Proof. intros t [s r es p]. reflexivity. Qed.

Lemma conn_onClose_keeps_queue : keeps_queue conn_onClose.
Proof. intros t [s r es p]. reflexivity. Qed.

Lemma switchMode_keeps_queue (snap : State) : keeps_queue (switchMode snap).
Proof.
  intros t [s [p c chunks total received] es ts]. unfold schedule.
  cbn [state refs effects pending]. rewrite !switchMode_world. reflexivity.
Qed.

Lemma transfer_effects (w : World) (conn : DataConnection) (file : File.t) (j : nat) :
  (j <= chunk_count file)%nat ->
  (sent_so_far w conn file j ++
   map (fun i => Send conn (chunk_message file i)) (seq j (chunk_count file - j))) ++
  [Send conn FILE_COMPLETE]
  = effects w ++ map (Send conn) (transfer_messages file).
Proof.
  intros Hj. unfold sent_so_far, transfer_messages. cbn [map].
  rewrite <- !app_assoc. f_equal. cbn [app]. f_equal.
  rewrite map_app, map_map, app_assoc, <- map_app, <- seq_app.
  replace (j + (chunk_count file - j))%nat with (chunk_count file) by lia. reflexivity.
Qed.

Section DisturbedTransfer.
Variables (snap : State) (conn : DataConnection) (w : World) (file : File.t).
Hypothesis ready : sender_ready snap conn w.

(** The world in which the sender waits for the read of chunk [j], given
    an action that came in between. *)
Lemma disturbed_run (a : Action) (j : nat) :
  keeps_queue a ->
  (forall v : World, pending v = [] -> pending (a v) = []) ->
  (forall v : World, connectionRef (refs v) = Some conn ->
                     connectionRef (refs (a v)) = Some conn) ->
  (j <= chunk_count file)%nat ->
  exists v : World,
    state v = sending_state (state w) file
                (match j with O => "preparing" | S _ => "sending" end) j /\
    refs v = refs w /\ effects v = sent_so_far w conn file j /\ pending v = [] /\
    run j (sendFile snap file w) = reading_chunk file j v /\
    run (S (chunk_count file - j)) (a (run j (sendFile snap file w))) =
    (send conn FILE_COMPLETE ;; setTransferStatus "sent")
      (chunks_sent conn file j (chunk_count file - j) (a v)).
Proof.
  intros Hq Hp Hc Hj. destruct ready as (Hconn & _).
  eexists (mkWorld _ _ _ []). split_all; try reflexivity.
  - rewrite (sender_run snap conn w file ready j Hj). apply sender_after_reading.
  - rewrite (sender_run snap conn w file ready j Hj), sender_after_reading.
    rewrite (reading_chunk_commutes a file j _ Hq).
    apply reading_chunk_finishes; [apply Hp; reflexivity | apply Hc; exact Hconn | exact Hj].
Qed.

End DisturbedTransfer.

Section DisturbedTheorems.
Variables (snap : State) (conn : DataConnection) (w : World) (file : File.t).
Hypothesis ready : sender_ready snap conn w.

Lemma finished_after (a : Action) (j : nat) (v : World) :
  (j <= chunk_count file)%nat ->
  refs (a v) = refs v -> pending (a v) = [] ->
  effects v = sent_so_far w conn file j ->
  sent_messages (effects (a v)) = sent_messages (effects v) ->
  let final :=
    (send conn FILE_COMPLETE ;; setTransferStatus "sent")
      (chunks_sent conn file j (chunk_count file - j) (a v)) in
  pending final = [] /\
  refs final = refs v /\
  same_session (state (a v)) (state final) /\
  transferStatus (state final) = "sent" /\
  ((j < chunk_count file)%nat -> progress_of final = Finite 100) /\
  sent_messages (effects final) = sent_messages (effects w) ++ transfer_messages file.
Proof.
  intros Hj Hr Hp He Hs final.
  destruct (chunks_sent_frame conn file (chunk_count file - j) j (a v)) as (Fr & Fp & Fe).
  destruct (chunks_sent_state conn file (chunk_count file - j) j (a v)) as (Ss & Sk).
  unfold final. split_all.
  - run_handler. rewrite Fp. exact Hp.
  - run_handler. rewrite Fr. exact Hr.
  - unfold same_session in *. run_handler. exact Ss.
  - reflexivity.
  - intros Hlt. destruct (Sk ltac:(lia)) as [_ Hprog].
    unfold progress_of in *. run_handler. rewrite Hprog.
    replace (j + (chunk_count file - j))%nat with (chunk_count file) by lia.
    rewrite chunk_count_Z. apply progressPercent_full.
    pose proof (chunk_count_Z file). lia.
  - run_handler. rewrite Fe, !sent_messages_app, Hs, He.
    rewrite <- !sent_messages_app, transfer_effects by exact Hj.
    rewrite sent_messages_app, sent_messages_sends. reflexivity.
Qed.

(** X1.  Clearing the selection while a transfer is under way does not
    stop it: the remaining chunks and the completion marker still go out,
    the phase ends as [sent] with no file selected, and the progress is
    back at 100 when a chunk was still to be read. *)
Theorem resetFileSelection_does_not_cancel (j : nat) :
  (j <= chunk_count file)%nat ->
  let mid := run j (sendFile snap file w) in
  let final := run (S (chunk_count file - j)) (resetFileSelection mid) in
  pending final = [] /\
  sent_messages (effects final) = sent_messages (effects w) ++ transfer_messages file /\
  transferStatus (state final) = "sent" /\
  selectedFile (state final) = None /\
  ((j < chunk_count file)%nat -> progress_of final = Finite 100).
Proof.
  intros Hj mid final. unfold final, mid.
  destruct (disturbed_run snap conn w file ready resetFileSelection j
              resetFileSelection_keeps_queue) as (v & Hs & Hr & He & Hp & _ & Hrun); auto.
  rewrite Hrun.
  destruct (finished_after resetFileSelection j v Hj) as (F1 & F2 & F3 & F4 & F5 & F6);
    auto; try (rewrite Hp; reflexivity).
  destruct F3 as (_ & _ & _ & _ & Hsel & _).
  split_all; auto.
Qed.

(** X2.  The close of the connection does not stop a transfer either: the
    handler neither clears the connection object nor reaches the closure of
    the running [sendFile], so the remaining chunks and the completion
    marker are still handed to the closed connection and the phase ends as
    [sent], with the status [disconnected]. *)
Theorem close_does_not_cancel (j : nat) :
  (j <= chunk_count file)%nat ->
  let mid := run j (sendFile snap file w) in
  let final := run (S (chunk_count file - j)) (conn_onClose mid) in
  pending final = [] /\
  sent_messages (effects final) = sent_messages (effects w) ++ transfer_messages file /\
  transferStatus (state final) = "sent" /\
  connectionStatus (state final) = "disconnected" /\
  connectionReady (state final) = false /\
  connectionRef (refs final) = Some conn.
Proof.
  intros Hj mid final. unfold final, mid. destruct ready as (Hconn & _).
  destruct (disturbed_run snap conn w file ready conn_onClose j
              conn_onClose_keeps_queue) as (v & Hs & Hr & He & Hp & _ & Hrun); auto.
  rewrite Hrun.
  destruct (finished_after conn_onClose j v Hj) as (F1 & F2 & F3 & F4 & F5 & F6);
    auto; try (rewrite Hp; reflexivity).
  { unfold conn_onClose. run_handler. rewrite sent_messages_app, app_nil_r. reflexivity. }
  destruct F3 as (_ & _ & _ & Hst & _ & _ & _ & _ & _ & Hrd).
  split_all; auto. rewrite F2, Hr. exact Hconn.
Qed.

(** X3.  A read that fails aborts the transfer for good: the phase is
    [error], nothing is queued any more, so neither a further chunk nor the
    completion marker is ever sent. *)
Theorem failed_read_aborts (j fuel : nat) :
  (j < chunk_count file)%nat ->
  let mid := run j (sendFile snap file w) in
  let failed := step ReadFailed mid in
  pending failed = [] /\
  refs failed = refs w /\
  transferStatus (state failed) = "error" /\
  effects failed =
    effects mid ++ [ConsoleError "Error reading file chunk";
                    ToastError "Error reading file. Please try again."] /\
  run fuel failed = failed /\
  sent_messages (effects (run fuel failed)) =
    sent_messages (effects w) ++
    FILE_METADATA file :: map (chunk_message file) (seq 0 j).
Proof.
  intros Hj mid failed.
  assert (Hmid : mid = sender_after w conn file j)
    by (apply (sender_run snap conn w file ready); lia).
  destruct (chunk_start_inside file j Hj) as [_ Hlt].
  assert (Hf : failed =
    mkWorld (sending_state (state w) file "error" j) (refs w)
      (sent_so_far w conn file j ++
       [ConsoleError "Error reading file chunk";
        ToastError "Error reading file. Please try again."]) []).
  { unfold failed. rewrite Hmid. unfold sender_after, sendNextChunk. cbn [job_file].
    destruct (Z.leb_spec (File.size file) (chunk_start file j)) as [Hle|_]; [lia|].
    unfold step, schedule. cbn [pending app run_task state refs effects].
    unfold reader_onerror. run_handler. rewrite <- app_assoc. reflexivity. }
  assert (Hidle : run fuel failed = failed) by (apply run_idle; rewrite Hf; reflexivity).
  assert (He : effects mid = sent_so_far w conn file j).
  { rewrite Hmid. unfold sender_after, sendNextChunk.
    destruct (_ <=? _); reflexivity. }
  split_all.
  - rewrite Hf. reflexivity.
  - rewrite Hf. reflexivity.
  - rewrite Hf. reflexivity.
  - rewrite Hf, He. reflexivity.
  - exact Hidle.
  - rewrite Hidle, Hf. cbn [effects].
    rewrite sent_messages_app, (sent_messages_sent_so_far conn w file j).
    apply app_nil_r.
Qed.

(** X4.  A role switch while a chunk is being read (the click, then the
    render that follows it with its effect): when the read completes,
    nothing is sent (the connection object is gone), but the callback of
    the old transfer sets the phase of the new session to [error] and
    raises its error toast.  When only the completion timer was left, it
    does nothing.  In both cases nothing stays queued. *)
Theorem switchMode_during_transfer (j : nat) (newRoomId : string) (peer : Peer) :
  (j <= chunk_count file)%nat ->
  let mid := run j (sendFile snap file w) in
  let switched := switch_click newRoomId peer mid in
  let final := step ReadLoaded switched in
  pending final = [] /\
  refs final = refs switched /\
  connectionRef (refs final) = None /\
  joinMode (state final) = negb (joinMode (state w)) /\
  sent_messages (effects_since mid final) = [] /\
  ((j < chunk_count file)%nat ->
   transferStatus (state final) = "error" /\
   effects final =
     effects switched ++
     [ConsoleError "Connection not ready or reader result is null";
      ToastError "Connection not ready. Please try again."]) /\
  (j = chunk_count file ->
   state final = state switched /\ effects final = effects switched).
Proof.
  intros Hj mid switched final.
  assert (Hmid : mid = sender_after w conn file j)
    by (apply (sender_run snap conn w file ready); exact Hj).
  destruct ready as (Hconn & _).
  assert (Hv : exists (s : State) (t : Task),
            mid = mkWorld s (refs w) (sent_so_far w conn file j) [t] /\
            joinMode s = joinMode (state w) /\
            ((j < chunk_count file)%nat ->
             exists chunk end_, t = ReadAsArrayBuffer (job_at file j) chunk end_) /\
            (j = chunk_count file -> t = CompleteTimeout (job_at file j))).
  { rewrite Hmid. unfold sender_after, sendNextChunk. cbn [job_file].
    destruct (Z.leb_spec (File.size file) (chunk_start file j)) as [Hle|Hlt].
    - eexists _, _. split; [reflexivity|]. split; [reflexivity|]. split; [|reflexivity].
      intros Hlt'. destruct (chunk_start_inside file j Hlt'). lia.
    - eexists _, _. split; [reflexivity|]. split; [reflexivity|]. split; [eauto|].
      intros ->. rewrite chunk_start_end in Hlt. lia. }
  destruct Hv as (s & t & Hm & Hrole & Hread & Htimer).
  destruct (refs w) as [p c chunks total received] eqn:Er. cbn in Hconn. subst c.
  rewrite <- Hrole.
  set (room := if joinMode s then newRoomId else roomId s).
  set (created := if joinMode s then Some peer else None).
  assert (Hsw : switched =
    mkWorld
      (mkState room (negb (joinMode s)) "" "disconnected" None (Finite 0) ""
         (receivedFileName s) (receivedFileSize s) (receivedFileType s) false false)
      (mkRefs created None chunks total received)
      (sent_so_far w conn file j ++ [Close conn]
         ++ match p with Some peer => [Destroy peer] | None => [] end)
      [t]).
  { unfold switched, switch_click, click, joinMode_effect. rewrite Hm.
    cbn [state]. rewrite switchMode_world. unfold room, created.
    destruct (joinMode s); reflexivity. }
  destruct (Nat.lt_ge_cases j (chunk_count file)) as [Hlt|Hge].
  - destruct (Hread Hlt) as (chunk & end_ & ->).
    assert (Hfin : final =
      mkWorld
        (mkState room (negb (joinMode s)) "" "disconnected" None (Finite 0) "error"
           (receivedFileName s) (receivedFileSize s) (receivedFileType s) false false)
        (mkRefs created None chunks total received)
        ((sent_so_far w conn file j ++ [Close conn]
            ++ match p with Some peer => [Destroy peer] | None => [] end)
         ++ [ConsoleError "Connection not ready or reader result is null";
             ToastError "Connection not ready. Please try again."])
        []).
    { unfold final. rewrite Hsw. unfold step. cbn [pending run_task].
      unfold reader_onload. cbn [refs connectionRef]. run_handler.
      rewrite <- !app_assoc. reflexivity. }
    rewrite Hfin, Hsw. split_all; try reflexivity.
    + rewrite Hm. unfold effects_since. cbn [effects].
      rewrite <- !app_assoc, drop_app_length. destruct p; reflexivity.
    + intros _. split; reflexivity.
    + intros E. lia.
  - assert (E : j = chunk_count file) by lia. rewrite (Htimer E) in *.
    assert (Hfin : final = mkWorld (state switched) (refs switched) (effects switched) []).
    { unfold final. rewrite Hsw. unfold step. cbn [pending run_task].
      unfold complete_timeout. reflexivity. }
    rewrite Hfin, Hsw. split_all; try reflexivity.
    + rewrite Hm. unfold effects_since. cbn [effects].
      rewrite drop_app_length. destruct p; reflexivity.
    + intros Hlt. lia.
    + intros _. split; reflexivity.
Qed.

End DisturbedTheorems.

(** ** The array of chunks *)

Lemma array_set_length {A} (l : list (option A)) (i : nat) (v : A) :
  length (array_set l (Z.of_nat i) v) = Nat.max (length l) (S i).
Proof.
  unfold array_set. destruct (Z.leb_spec 0 (Z.of_nat i)) as [_|H]; [|lia].
  rewrite Nat2Z.id. destruct (Nat.ltb_spec i (length l)).
  - rewrite length_insert. lia.
  - rewrite !length_app, length_replicate. cbn [length]. lia.
Qed.

Lemma array_set_lookup_eq {A} (l : list (option A)) (i : nat) (v : A) :
  array_set l (Z.of_nat i) v !! i = Some (Some v).
Proof.
  unfold array_set. destruct (Z.leb_spec 0 (Z.of_nat i)) as [_|H]; [|lia].
  rewrite Nat2Z.id. destruct (Nat.ltb_spec i (length l)).
  - apply list_lookup_insert_eq. assumption.
  - rewrite app_assoc. rewrite lookup_app_r by (rewrite length_app, length_replicate; lia).
    rewrite length_app, length_replicate.
    replace (i - (length l + (i - length l)))%nat with 0%nat by lia. reflexivity.
Qed.

Lemma array_set_lookup_old {A} (l : list (option A)) (i k : nat) (v : A) (x : option A) :
  k <> i -> l !! k = Some x -> array_set l (Z.of_nat i) v !! k = Some x.
Proof.
  intros Hk Hx. unfold array_set. destruct (Z.leb_spec 0 (Z.of_nat i)) as [_|H]; [|lia].
  rewrite Nat2Z.id. destruct (Nat.ltb_spec i (length l)).
  - rewrite list_lookup_insert_ne by congruence. exact Hx.
  - apply lookup_app_l_Some. exact Hx.
Qed.

Lemma array_set_lookup_Some {A} (l : list (option A)) (i k : nat) (v c : A) :
  array_set l (Z.of_nat i) v !! k = Some (Some c) ->
  (k = i /\ c = v) \/ l !! k = Some (Some c).
Proof.
  destruct (Nat.eq_dec k i) as [->|Hne].
  { rewrite array_set_lookup_eq. intros E. left. split; congruence. }
  unfold array_set. destruct (Z.leb_spec 0 (Z.of_nat i)) as [_|H]; [|lia].
  rewrite Nat2Z.id. destruct (Nat.ltb_spec i (length l)).
  - rewrite list_lookup_insert_ne by congruence. auto.
  - intros E. apply lookup_app_Some in E as [E|[Hk E]]; [auto|].
    apply lookup_app_Some in E as [E|[Hlen E]].
    + apply lookup_replicate in E as [E _]. discriminate.
    + rewrite length_replicate in *.
      destruct (k - length l - (i - length l))%nat eqn:Ek; [lia | destruct n; discriminate].
Qed.

Lemma stored_count_app (l1 l2 : list (option ArrayBuffer)) :
  stored_count (l1 ++ l2) = (stored_count l1 + stored_count l2)%nat.
Proof. unfold stored_count. rewrite omap_app, length_app. reflexivity. Qed.

Lemma stored_count_holes (n : nat) : stored_count (replicate n None) = 0%nat.
Proof. induction n as [|n IH]; [reflexivity | exact IH]. Qed.

Lemma stored_count_cons_le (x : option ArrayBuffer) (l : list (option ArrayBuffer)) :
  (stored_count l <= stored_count (x :: l) <= S (stored_count l))%nat.
Proof. destruct x; unfold stored_count; cbn; lia. Qed.

(** Storing a chunk adds at most one chunk to the array. *)
Lemma stored_count_array_set (l : list (option ArrayBuffer)) (i : Z) (v : ArrayBuffer) :
  (stored_count (array_set l i v) <= S (stored_count l))%nat.
Proof.
  unfold array_set. destruct (Z.leb_spec 0 i) as [Hi|_]; [|lia].
  destruct (Nat.ltb_spec (Z.to_nat i) (length l)) as [Hlt|Hge].
  - rewrite insert_take_drop by exact Hlt.
    destruct (lookup_lt_is_Some_2 l (Z.to_nat i) Hlt) as [x Hx].
    rewrite <- (take_drop_middle l (Z.to_nat i) x Hx) at 3.
    rewrite !stored_count_app.
    pose proof (stored_count_cons_le x (drop (S (Z.to_nat i)) l)).
    pose proof (stored_count_cons_le (Some v) (drop (S (Z.to_nat i)) l)).
    assert (stored_count (Some v :: drop (S (Z.to_nat i)) l)
            = S (stored_count (drop (S (Z.to_nat i)) l))) by reflexivity.
    lia.
  - rewrite !stored_count_app, stored_count_holes. cbn. lia.
Qed.

Lemma no_trailing_hole_array_set (l : list (option ArrayBuffer)) (i : Z) (v : ArrayBuffer) :
  no_trailing_hole l -> no_trailing_hole (array_set l i v).
Proof.
  intros Hl. unfold array_set. destruct (Z.leb_spec 0 i) as [Hi|_]; [|exact Hl].
  destruct (Nat.ltb_spec (Z.to_nat i) (length l)) as [Hlt|Hge].
  - right. destruct Hl as [->|[x Hx]]; [cbn in Hlt; lia|].
    rewrite last_lookup, length_insert, list_lookup_insert.
    destruct (decide _) as [_|_]; [eauto|]. rewrite <- last_lookup. eauto.
  - right. exists v. rewrite app_assoc. apply last_snoc.
Qed.

Lemma no_trailing_hole_stored (l : list (option ArrayBuffer)) :
  no_trailing_hole l -> stored_count l = 0%nat -> l = [].
Proof.
  intros [->|[v Hv]] Hc; [reflexivity|]. exfalso.
  apply last_Some in Hv as [l' ->]. rewrite stored_count_app in Hc. cbn in Hc. lia.
Qed.

(** ** What any message can do to the refs of the receiver *)

Lemma assemble_frame (snap : State) (w : World) :
  refs (assembleAndDownloadFile snap w) = refs w /\
  pending (assembleAndDownloadFile snap w) = pending w.
Proof.
  destruct (fileChunksRef (refs w)) as [|c cs] eqn:Ec.
  - rewrite (assemble_no_chunks snap w Ec). split; reflexivity.
  - assert (Hne : fileChunksRef (refs w) <> []) by (rewrite Ec; discriminate).
    destruct (stored_bytes (fileChunksRef (refs w))) as [|b bs] eqn:Eb.
    + rewrite (assemble_no_bytes snap w Hne Eb). split; reflexivity.
    + assert (Hnn : stored_bytes (fileChunksRef (refs w)) <> [])
        by (rewrite Eb; discriminate).
      rewrite (assemble_delivers snap w Hne Hnn). split; reflexivity.
Qed.

(** The four things a message can do: reset the refs (metadata only),
    leave them alone, latch the total, or store a chunk and count it. *)
Lemma handle_refs (snap : State) (m : JSValue) (w : World) :
  let r := refs w in
  let r' := refs (handleReceivedData snap m w) in
  (is_metadata m = true /\
   r' = mkRefs (peerRef r) (connectionRef r) [] 0 0) \/
  (is_metadata m = false /\
   exists total : Z,
     (totalChunksRef r <> 0 -> total = totalChunksRef r) /\
     (r' = mkRefs (peerRef r) (connectionRef r) (fileChunksRef r) total
             (receivedChunksRef r) \/
      exists (buf : ArrayBuffer) (i : Z),
        r' = mkRefs (peerRef r) (connectionRef r)
               (array_set (fileChunksRef r) i buf) total (receivedChunksRef r + 1))).
Proof.
  intros r r'. subst r r'.
  destruct w as [s [p c chunks total received] es ts].
  assert (Hsame : forall w', refs w' = mkRefs p c chunks total received ->
            exists t : Z,
              (total <> 0 -> t = total) /\
              (refs w' = mkRefs p c chunks t received \/
               exists (buf : ArrayBuffer) (i : Z),
                 refs w' = mkRefs p c (array_set chunks i buf) t (received + 1))).
  { intros w' E. exists total. split; [reflexivity | left; exact E]. }
  destruct m as [| |str|o]; try (right; split; [reflexivity|]; apply Hsame; reflexivity).
  unfold is_metadata, handleReceivedData.
  destruct (is_type o "FILE_METADATA") eqn:Hmeta.
  { left. split; reflexivity. }
  right. split; [reflexivity|]. project.
  destruct (is_type o "FILE_CHUNK").
  - destruct (Data.data o) as [buf|]; [|apply Hsame; reflexivity].
    assert (Hlatch : forall n : Z,
              total <> 0 -> (if (total =? 0) && negb (n =? 0) then n else total) = total).
    { intros n Hne. destruct (Z.eqb_spec total 0); [contradiction | reflexivity]. }
    destruct (Data.totalChunks o) as [n|], (Data.chunkIndex o) as [i|];
      unfold andThen, skip; cbn -[progressPercent array_set number_eqb].
    + exists (if (total =? 0) && negb (n =? 0) then n else total).
      split; [apply Hlatch|]. right. exists buf, i.
      destruct ((total =? 0) && negb (n =? 0));
        cbn -[progressPercent array_set number_eqb];
        destruct (number_eqb _ _); reflexivity.
    + exists (if (total =? 0) && negb (n =? 0) then n else total).
      split; [apply Hlatch|]. left.
      destruct ((total =? 0) && negb (n =? 0)); reflexivity.
    + exists total. split; [reflexivity|]. right. exists buf, i.
      destruct (number_eqb _ _); reflexivity.
    + exists total. split; [reflexivity|]. left. reflexivity.
  - destruct (is_type o "FILE_COMPLETE"); [|apply Hsame; reflexivity].
    apply Hsame. apply assemble_frame.
Qed.

Lemma handle_refs_handles (snap : State) (m : JSValue) (w : World) :
  peerRef (refs (handleReceivedData snap m w)) = peerRef (refs w) /\
  connectionRef (refs (handleReceivedData snap m w)) = connectionRef (refs w).
Proof.
  destruct (handle_refs snap m w) as [[_ E]|[_ (t & _ & [E|(buf & i & E)])]];
    rewrite E; split; reflexivity.
Qed.

Section ReceiverInvariants.
Variable snap : State.

(** X5.  Whatever messages arrive, in whatever order: the receiver never
    holds more chunks than it has counted, and its array of chunks never
    ends in a hole, so that the array is empty exactly when no chunk is
    stored. *)
Theorem receiver_counts_what_it_stores (messages : list JSValue) (w : World) :
  Z.of_nat (stored_count (fileChunksRef (refs w))) <= receivedChunksRef (refs w) ->
  no_trailing_hole (fileChunksRef (refs w)) ->
  let w' := receive snap messages w in
  Z.of_nat (stored_count (fileChunksRef (refs w'))) <= receivedChunksRef (refs w') /\
  no_trailing_hole (fileChunksRef (refs w')) /\
  (stored_count (fileChunksRef (refs w')) = 0%nat -> fileChunksRef (refs w') = []).
Proof.
  intros Hc Hh w'. subst w'.
  assert (H : Z.of_nat (stored_count (fileChunksRef (refs (receive snap messages w))))
              <= receivedChunksRef (refs (receive snap messages w)) /\
              no_trailing_hole (fileChunksRef (refs (receive snap messages w)))).
  { revert w Hc Hh. induction messages as [|m ms IH]; intros w Hc Hh; [split; assumption|].
    change (receive snap (m :: ms) w) with (receive snap ms (handleReceivedData snap m w)).
    apply IH.
    - destruct (handle_refs snap m w) as [[_ E]|[_ (t & _ & [E|(buf & i & E)])]];
        rewrite E; cbn [fileChunksRef receivedChunksRef].
      + cbn. lia.
      + exact Hc.
      + pose proof (stored_count_array_set (fileChunksRef (refs w)) i buf). lia.
    - destruct (handle_refs snap m w) as [[_ E]|[_ (t & _ & [E|(buf & i & E)])]];
        rewrite E; cbn [fileChunksRef].
      + left. reflexivity.
      + exact Hh.
      + apply no_trailing_hole_array_set. exact Hh. }
  destruct H as [H1 H2]. split_all; auto. apply no_trailing_hole_stored. exact H2.
Qed.

(** X6.  The total is latched: once [totalChunksRef] is not zero, no
    message other than the metadata of a new transfer changes it, whatever
    total the later chunks announce. *)
Theorem total_is_latched (messages : list JSValue) (w : World) :
  totalChunksRef (refs w) <> 0 ->
  forallb (fun m => negb (is_metadata m)) messages = true ->
  totalChunksRef (refs (receive snap messages w)) = totalChunksRef (refs w).
Proof.
  revert w. induction messages as [|m ms IH]; intros w Hne Hms; [reflexivity|].
  cbn [forallb] in Hms. apply andb_prop in Hms as [Hm Hms].
  change (receive snap (m :: ms) w) with (receive snap ms (handleReceivedData snap m w)).
  assert (E : totalChunksRef (refs (handleReceivedData snap m w)) = totalChunksRef (refs w)).
  { destruct (handle_refs snap m w) as [[Hmeta _]|[_ (t & Ht & [E|(buf & i & E)])]].
    - rewrite Hmeta in Hm. discriminate.
    - rewrite E. apply Ht, Hne.
    - rewrite E. apply Ht, Hne. }
  rewrite IH by (rewrite ?E; assumption). exact E.
Qed.

End ReceiverInvariants.

(** ** Chunks that arrive in another order, or more than once *)

Section AnyOrder.
Variables (snap : State) (w : World) (file : File.t).

Lemma receive_chunk_any (l : list nat) (i : nat) :
  (i < chunk_count file)%nat ->
  handleReceivedData snap (chunk_message file i) (receiver_after_any snap w file l)
  = receiver_after_any snap w file (l ++ [i]).
Proof.
  intros Hi. unfold chunk_message. rewrite handle_chunk.
  pose proof (chunk_count_Z file) as Hn.
  assert (Hpos : totalChunks file <> 0) by lia.
  unfold receiver_after_any.
  cbn [refs state effects pending totalChunksRef receivedChunksRef
       fileChunksRef peerRef connectionRef].
  assert (Htotal : (if ((match l with [] => 0 | _ :: _ => totalChunks file end) =? 0)
                         && negb (totalChunks file =? 0)
                    then totalChunks file
                    else match l with [] => 0 | _ :: _ => totalChunks file end)
                   = totalChunks file).
  { destruct (Z.eqb_spec (totalChunks file) 0) as [|_]; [contradiction|].
    destruct l; [reflexivity|].
    destruct (Z.eqb_spec (totalChunks file) 0) as [|_]; [contradiction|]. reflexivity. }
  rewrite Htotal. clear Htotal.
  rewrite length_app. cbn [length]. rewrite Nat.add_1_r.
  replace (Z.of_nat (length l) + 1) with (Z.of_nat (S (length l))) by lia.
  unfold stored_chunks. rewrite foldl_snoc. fold (stored_chunks file l).
  cbn [watchdogs]. rewrite app_assoc.
  destruct l; reflexivity.
Qed.

Lemma receive_any (l : list nat) :
  Forall (fun i => (i < chunk_count file)%nat) l ->
  receive snap (FILE_METADATA file :: map (chunk_message file) l) w
  = receiver_after_any snap w file l.
Proof.
  induction l as [|i l IH] using rev_ind; intros Hl.
  - cbn [map receive foldl]. rewrite receive_metadata. reflexivity.
  - apply Forall_app in Hl as [Hl Hi]. rewrite map_app, app_comm_cons, receive_app.
    rewrite IH by exact Hl. cbn [map receive foldl].
    apply receive_chunk_any. apply Forall_inv in Hi. exact Hi.
Qed.

Lemma stored_chunks_lookup (l : list nat) (k : nat) :
  In k l -> stored_chunks file l !! k = Some (Some (nth_chunk file k)).
Proof.
  induction l as [|i l IH] using rev_ind; intros Hk; [destruct Hk|].
  unfold stored_chunks. rewrite foldl_snoc. fold (stored_chunks file l).
  destruct (Nat.eq_dec k i) as [->|Hne]; [apply array_set_lookup_eq|].
  apply array_set_lookup_old; [exact Hne|]. apply IH.
  apply in_app_or in Hk as [Hk|[Hk|[]]]; [exact Hk | congruence].
Qed.

Lemma stored_chunks_length (l : list nat) (n : nat) :
  Forall (fun i => (i < n)%nat) l -> (length (stored_chunks file l) <= n)%nat.
Proof.
  induction l as [|i l IH] using rev_ind; intros Hl; [cbn; lia|].
  apply Forall_app in Hl as [Hl Hi]. apply Forall_inv in Hi.
  unfold stored_chunks. rewrite foldl_snoc. fold (stored_chunks file l).
  rewrite array_set_length. specialize (IH Hl). lia.
Qed.

(** When every index has arrived the array holds every chunk. *)
Lemma stored_chunks_all (l : list nat) :
  Forall (fun i => (i < chunk_count file)%nat) l ->
  (forall i : nat, (i < chunk_count file)%nat -> In i l) ->
  stored_chunks file l = map (fun i => Some (nth_chunk file i)) (seq 0 (chunk_count file)).
Proof.
  intros Hl Hall. apply list_eq. intros k.
  destruct (Nat.lt_ge_cases k (chunk_count file)) as [Hlt|Hge].
  - rewrite (stored_chunks_lookup l k (Hall k Hlt)).
    change (map ?f ?x) with (f <$> x). rewrite list_lookup_fmap, lookup_seq_lt by exact Hlt.
    reflexivity.
  - rewrite !lookup_ge_None_2; [reflexivity | |].
    + rewrite length_map, length_seq. exact Hge.
    + pose proof (stored_chunks_length l (chunk_count file) Hl). lia.
Qed.

(** X7.  Reassembly does not depend on the order in which the chunks
    arrive, nor on chunks that arrive more than once: as soon as every
    index of the transfer has arrived, the completion marker makes the
    receiver download exactly the bytes of the file. *)
Theorem reassembly_ignores_order_and_repeats (l : list nat) :
  0 < File.size file ->
  Forall (fun i => (i < chunk_count file)%nat) l ->
  (forall i : nat, (i < chunk_count file)%nat -> In i l) ->
  let final :=
    receive snap (FILE_METADATA file :: map (chunk_message file) l ++ [FILE_COMPLETE]) w in
  stored_bytes (fileChunksRef (refs final)) = File.bytes file /\
  downloads (effects_since w final) = [File.bytes file] /\
  transferStatus (state final) = "completed" /\
  receivedChunksRef (refs final) = Z.of_nat (length l).
Proof.
  intros Hsize Hl Hall final.
  assert (Hrecv : receive snap (FILE_METADATA file :: map (chunk_message file) l) w
                  = receiver_after_any snap w file l) by (apply receive_any; exact Hl).
  set (mid := receiver_after_any snap w file l) in *.
  assert (Hchunks : fileChunksRef (refs mid) =
                    map (fun i => Some (nth_chunk file i)) (seq 0 (chunk_count file)))
    by (apply stored_chunks_all; assumption).
  assert (Hbytes : stored_bytes (fileChunksRef (refs mid)) = File.bytes file)
    by (rewrite Hchunks; apply stored_bytes_received).
  assert (Hfinal : final = assembleAndDownloadFile snap mid).
  { unfold final. rewrite app_comm_cons, receive_app, Hrecv. reflexivity. }
  pose proof (size_bounds file) as Hb.
  assert (Hnn : stored_bytes (fileChunksRef (refs mid)) <> []).
  { rewrite Hbytes. intros E. unfold File.size in Hsize. rewrite E in Hsize.
    cbn in Hsize. lia. }
  assert (Hne : fileChunksRef (refs mid) <> []).
  { intros E. apply Hnn. rewrite E. reflexivity. }
  rewrite Hfinal, (assemble_delivers snap mid Hne Hnn), Hbytes.
  split_all; try reflexivity.
  - cbn [refs]. exact Hbytes.
  - rewrite (effects_since_app w _
               (ToastInfo (String.append "Receiving file: "
                             (or_string (Some (File.name file)) "unknown"))
                  :: delivery snap (refs mid) file)).
    + change (downloads (ToastInfo ?t :: ?x)) with (downloads x). apply downloads_delivery.
    + cbn [effects]. unfold mid, receiver_after_any, announced, delivery. cbn [effects].
      rewrite <- app_assoc. reflexivity.
Qed.

End AnyOrder.

(** ** One transfer after another *)

(** X8.  A transfer that starts while another one is incomplete replaces
    it: after [j] chunks of a first file and the whole transfer of a
    second, non-empty file, the one download holds the bytes of the second
    file only, and the recorded name is the one of the second file. *)
Theorem new_transfer_supersedes
    (snap : State) (w : World) (first second : File.t) (j : nat) :
  (j <= chunk_count first)%nat ->
  0 < File.size second ->
  let final :=
    receive snap
      ((FILE_METADATA first :: map (chunk_message first) (seq 0 j))
       ++ transfer_messages second) w in
  downloads (effects_since w final) = [File.bytes second] /\
  stored_bytes (fileChunksRef (refs final)) = File.bytes second /\
  receivedChunksRef (refs final) = totalChunks second /\
  receivedFileName (state final) = or_string (Some (File.name second)) "unknown" /\
  transferStatus (state final) = "completed".
Proof.
  intros Hj Hsize final. unfold final.
  rewrite receive_app, (receive_chunks snap w first j Hj).
  rewrite (receive_transfer snap _ second Hsize).
  unfold receiver_done. cbn [refs state receiving_refs receiving_state fileChunksRef
                             receivedChunksRef receivedFileName transferStatus].
  split_all; try reflexivity.
  - rewrite (effects_since_app w _
               ([ToastInfo (String.append "Receiving file: "
                              (or_string (Some (File.name first)) "unknown"));
                 ToastInfo (String.append "Receiving file: "
                              (or_string (Some (File.name second)) "unknown"))]
                ++ delivery snap (refs (receiver_after snap w first j)) second)).
    + rewrite downloads_app. change (downloads [ToastInfo _; ToastInfo _]) with (@nil (list byte)).
      apply downloads_delivery.
    + cbn [effects]. unfold announced, receiver_after. cbn [effects].
      unfold announced. rewrite <- !app_assoc. reflexivity.
  - apply stored_bytes_received.
  - apply chunk_count_Z.
Qed.

(** ** The empty file *)

(** X9.  A file of zero bytes goes out as its metadata followed at once by
    the completion marker, and the sender ends in phase [sent] without
    having written the progress; the receiver then has no chunk, reports
    "No data received", ends in phase [error], downloads nothing and sends
    no acknowledgement. *)
Theorem empty_file_is_not_delivered
    (ssnap rsnap : State) (conn : DataConnection) (sw rw : World) (file : File.t) :
  File.size file = 0 ->
  sender_ready ssnap conn sw ->
  let sender := run 1 (sendFile ssnap file sw) in
  let messages := sent_messages (effects_since sw sender) in
  let receiver := receive rsnap messages rw in
  messages = [FILE_METADATA file; FILE_COMPLETE] /\
  pending sender = [] /\
  transferStatus (state sender) = "sent" /\
  progress_of sender = progress_of sw /\
  transferStatus (state receiver) = "error" /\
  downloads (effects_since rw receiver) = [] /\
  sent_messages (effects_since rw receiver) = [] /\
  (exists info,
     effects_since rw receiver =
     [ToastInfo info; ConsoleError "No file chunks to assemble";
      ToastError "Error downloading file: No data received"]).
Proof.
  intros Hsize Hready sender messages receiver.
  assert (Hn : chunk_count file = 0%nat).
  { unfold chunk_count. rewrite (totalChunks_zero file Hsize). reflexivity. }
  assert (Hs : sender = sender_done sw conn file).
  { unfold sender. rewrite <- Hn at 1. apply (sender_finishes ssnap conn sw file Hready). }
  assert (Hm : messages = [FILE_METADATA file; FILE_COMPLETE]).
  { unfold messages, sender. rewrite <- Hn at 1.
    rewrite (sender_messages ssnap conn sw file Hready).
    unfold transfer_messages. rewrite Hn. reflexivity. }
  assert (Hr : receiver =
    mkWorld (state (setTransferStatus "error" (receiver_after rsnap rw file 0)))
      (refs (receiver_after rsnap rw file 0))
      (effects (receiver_after rsnap rw file 0) ++
       [ConsoleError "No file chunks to assemble";
        ToastError "Error downloading file: No data received"])
      (pending (receiver_after rsnap rw file 0))).
  { unfold receiver. rewrite Hm. cbn [receive foldl]. rewrite receive_metadata.
    change (handleReceivedData rsnap FILE_COMPLETE) with (assembleAndDownloadFile rsnap).
    apply assemble_no_chunks. reflexivity. }
  assert (He : effects_since rw receiver =
    [ToastInfo (String.append "Receiving file: "
                  (or_string (Some (File.name file)) "unknown"));
     ConsoleError "No file chunks to assemble";
     ToastError "Error downloading file: No data received"]).
  { apply effects_since_app. rewrite Hr. cbn [effects receiver_after].
    unfold announced. rewrite <- app_assoc. reflexivity. }
  split_all.
  - exact Hm.
  - rewrite Hs. reflexivity.
  - rewrite Hs. reflexivity.
  - rewrite Hs. unfold progress_of, sender_done, sending_state. project. rewrite Hn. reflexivity.
  - rewrite Hr. reflexivity.
  - rewrite He. reflexivity.
  - rewrite He. reflexivity.
  - eexists. exact He.
Qed.

(** ** Progress reads 100 before the transfer is over *)

(** From 200 chunks on, the last but one chunk already rounds to 100. *)
Lemma progressPercent_early (n : Z) : 200 <= n -> progressPercent (n - 1) n = Finite 100.
Proof.
  intros Hn. rewrite progressPercent_finite by lia.
  assert (Hfull : progressPercent n n = Finite 100) by (apply progressPercent_full; lia).
  assert (Hup : number_le (progressPercent (n - 1) n) (progressPercent n n))
    by (apply progressPercent_mono; lia).
  rewrite Hfull, progressPercent_finite in Hup by lia. cbn [number_le] in Hup.
  assert (Hup' : Qfloor (Binary64.fl64
                    (Binary64.fl64 (inject_Z (n - 1) / inject_Z n) * 100) + (1 # 2)) <= 100)
    by (rewrite Zle_Qle; exact Hup).
  assert (Hlow : 100 <= Qfloor (Binary64.fl64
                    (Binary64.fl64 (inject_Z (n - 1) / inject_Z n) * 100) + (1 # 2))).
  { assert (E : Qfloor (Binary64.fl64 (Binary64.fl64 (inject_Z 199 / inject_Z 200) * 100)
                        + (1 # 2)) = 100) by (vm_compute; reflexivity).
    rewrite <- E at 1. apply Qfloor_resp_le, Qplus_le_l.
    pose proof (quotient_pos 199 200 eq_refl eq_refl) as Hq.
    assert (Hle : (inject_Z 199 / inject_Z 200 <= inject_Z (n - 1) / inject_Z n)%Q).
    { apply Qle_shift_div_l.
      - change 0%Q with (inject_Z 0). rewrite <- Zlt_Qlt. lia.
      - unfold Qdiv. rewrite <- Qmult_assoc, (Qmult_comm (/ inject_Z 200)), Qmult_assoc.
        apply Qle_shift_div_r; [reflexivity|].
        rewrite <- !inject_Z_mult, <- Zle_Qle. lia. }
    pose proof (Binary64Facts.fl64_positive _ Hq) as Hf.
    pose proof (Binary64Facts.fl64_mono _ _ Hq Hle) as Hm.
    apply Binary64Facts.fl64_mono; lra. }
  assert (E : Qfloor (Binary64.fl64
                (Binary64.fl64 (inject_Z (n - 1) / inject_Z n) * 100) + (1 # 2)) = 100)
    by lia.
  rewrite E. reflexivity.
Qed.

(** X10.  In a transfer of 200 chunks or more the receiver shows 100 percent
    and arms the finalization timer when the last but one chunk arrives,
    that is, while a chunk is still missing. *)
Theorem full_progress_before_last_chunk
    (snap : State) (w : World) (buf : ArrayBuffer) (i n : Z) :
  200 <= n ->
  totalChunksRef (refs w) = n ->
  receivedChunksRef (refs w) = n - 2 ->
  let w' := handleReceivedData snap (FILE_CHUNK buf i n) w in
  receivedChunksRef (refs w') = n - 1 /\
  receivedChunksRef (refs w') < totalChunksRef (refs w') /\
  progress_of w' = Finite 100 /\
  pending w' = pending w ++ [WatchdogTimeout snap].
Proof.
  intros Hn Ht Hr w'. unfold w'. rewrite handle_chunk. cbv zeta.
  rewrite Ht, Hr.
  destruct (Z.eqb_spec n 0) as [|_]; [lia|]. cbn [andb].
  replace (n - 2 + 1) with (n - 1) by lia.
  rewrite (progressPercent_early n Hn).
  unfold progress_of. project. split_all; try reflexivity. lia.
Qed.

(** ** The finalization timer *)

Lemma watchdogs_replicate (snap : State) (file : File.t) (j : nat) :
  watchdogs snap file j =
  replicate (length (watchdogs snap file j)) (WatchdogTimeout snap).
Proof.
  induction j as [|j IH]; [reflexivity|]. cbn [watchdogs].
  destruct (number_eqb _ _).
  - rewrite length_app. cbn [length]. rewrite Nat.add_1_r, replicate_S_end, <- IH. reflexivity.
  - rewrite !app_nil_r. exact IH.
Qed.

Lemma watchdogs_armed (snap : State) (file : File.t) :
  0 < File.size file ->
  exists k : nat,
    watchdogs snap file (chunk_count file) = WatchdogTimeout snap :: replicate k (WatchdogTimeout snap).
Proof.
  intros Hsize. pose proof (totalChunks_pos file Hsize) as Hn.
  pose proof (chunk_count_Z file) as Hc.
  rewrite watchdogs_replicate.
  destruct (chunk_count file) as [|n] eqn:E; [lia|]. cbn [watchdogs].
  rewrite Hc, progressPercent_full by exact Hn.
  change (number_eqb (Finite 100) (Finite 100)) with true.
  rewrite length_app. cbn [length]. rewrite Nat.add_1_r. eexists. reflexivity.
Qed.

Lemma run_watchdogs_idle (snap : State) :
  transferStatus snap <> "receiving" ->
  forall (fuel k : nat) (s : State) (r : Refs) (es : list Effect),
    run fuel (mkWorld s r es (replicate k (WatchdogTimeout snap))) =
    mkWorld s r es (replicate (k - fuel) (WatchdogTimeout snap)).
Proof.
  intros Hs. apply String.eqb_neq in Hs.
  induction fuel as [|fuel IH]; intros k s r es.
  - rewrite Nat.sub_0_r. reflexivity.
  - destruct k as [|k]; cbn [run replicate].
    + unfold step. cbn [pending]. rewrite (IH 0%nat). reflexivity.
    + unfold step. cbn [pending run_task state refs effects].
      unfold watchdog_timeout. rewrite Hs. unfold skip. apply IH.
Qed.

(** X11.  When the completion marker does not arrive: the timer armed at
    100 percent finalizes only if the render that created the data handler
    was in phase [receiving].  Then its first firing downloads the file;
    otherwise no firing ever changes state, refs or effects, and the
    receiver stays in phase [receiving] with the whole file in its
    buffer. *)
Theorem watchdog_depends_on_snapshot (snap : State) (w : World) (file : File.t) :
  0 < File.size file ->
  pending w = [] ->
  let waiting :=
    receive snap
      (FILE_METADATA file :: map (chunk_message file) (seq 0 (chunk_count file))) w in
  pending waiting <> [] /\
  transferStatus (state waiting) = "receiving" /\
  stored_bytes (fileChunksRef (refs waiting)) = File.bytes file /\
  (transferStatus snap = "receiving" ->
   let fired := step ReadLoaded waiting in
   downloads (effects_since waiting fired) = [File.bytes file] /\
   transferStatus (state fired) = "completed") /\
  (transferStatus snap <> "receiving" ->
   forall fuel : nat,
     state (run fuel waiting) = state waiting /\
     refs (run fuel waiting) = refs waiting /\
     effects (run fuel waiting) = effects waiting).
Proof.
  intros Hsize Hp waiting.
  assert (Hw : waiting = receiver_after snap w file (chunk_count file))
    by apply receive_transfer_prefix.
  destruct (watchdogs_armed snap file Hsize) as [k Hk].
  assert (Hpend : pending waiting = WatchdogTimeout snap :: replicate k (WatchdogTimeout snap)).
  { rewrite Hw. unfold receiver_after. cbn [pending]. rewrite Hp, Hk. reflexivity. }
  assert (Hbytes : stored_bytes (fileChunksRef (refs waiting)) = File.bytes file).
  { rewrite Hw. apply stored_bytes_received. }
  split_all.
  - rewrite Hpend. discriminate.
  - rewrite Hw. reflexivity.
  - exact Hbytes.
  - intros Hs fired.
    set (v := mkWorld (state waiting) (refs waiting) (effects waiting)
                (replicate k (WatchdogTimeout snap))).
    assert (Hf : fired = assembleAndDownloadFile snap v).
    { unfold fired, step. rewrite Hpend. cbn [run_task]. unfold watchdog_timeout.
      rewrite Hs. reflexivity. }
    pose proof (size_bounds file) as Hb.
    assert (Hnn : stored_bytes (fileChunksRef (refs v)) <> []).
    { cbn [refs v]. rewrite Hbytes. intros E. unfold File.size in Hsize.
      rewrite E in Hsize. cbn in Hsize. lia. }
    assert (Hne : fileChunksRef (refs v) <> []).
    { intros E. apply Hnn. rewrite E. reflexivity. }
    rewrite Hf, (assemble_delivers snap v Hne Hnn).
    split; [|reflexivity].
    unfold effects_since. cbn [effects v]. rewrite drop_app_length.
    cbn [refs v]. rewrite Hbytes. unfold acknowledgement.
    destruct (connectionRef (refs waiting)), (connectionReady snap); reflexivity.
  - intros Hs fuel.
    assert (E : waiting = mkWorld (state waiting) (refs waiting) (effects waiting)
                            (replicate (S k) (WatchdogTimeout snap))).
    { destruct waiting as [s r es p]. cbn in Hpend. rewrite Hpend. reflexivity. }
    rewrite E at 1 3 5. rewrite (run_watchdogs_idle snap Hs). split_all; reflexivity.
Qed.

(** ** Joining and receiving *)

Lemma receive_onData_objects (snap : State) (messages : list JSValue) (w : World) :
  Forall (fun m => exists o, m = VObject o) messages ->
  receive_onData snap messages w = receive snap messages w.
Proof.
  intros H. revert w. induction H as [|m ms [o ->] _ IH]; intros w; [reflexivity|].
  cbn [receive_onData receive foldl]. apply IH.
Qed.

Lemma transfer_messages_objects (file : File.t) :
  Forall (fun m => exists o, m = VObject o) (transfer_messages file).
Proof.
  unfold transfer_messages. constructor; [unfold FILE_METADATA; eauto|].
  apply Forall_app. split.
  - apply List.Forall_forall. intros m Hm. apply in_map_iff in Hm as (j & <- & _).
    unfold chunk_message, FILE_CHUNK. eauto.
  - constructor; [unfold FILE_COMPLETE; eauto | constructor].
Qed.

(** C6.  The acknowledgement is not sent on the receiver's own path.  The
    join click with a room code that is not blank stores the peer; the
    opening of the peer and of the connection bring the status to
    [connected] with the connection held and ready.  The data handler,
    however, belongs to the render of the click, in which the connection
    was not ready (it is ready in no render before a connection has
    opened).  A whole transfer is then downloaded and the phase is
    [completed] while the channel is still connected (status [connected],
    connection held and ready, nothing closed), and no
    [FILE_RECEIVED_SUCCESSFULLY] is sent back: the three effects of the
    transfer are the notification, the download and the success toast.
    The download takes its name and type from the render of the click
    too. *)
Theorem connected_receiver_sends_no_acknowledgement
    (w : World) (peer : Peer) (conn : DataConnection) (file : File.t) :
  trim (joinRoomId (state w)) <> "" ->
  connectionReady (state w) = false ->
  0 < File.size file ->
  let snap := state w in
  let joined := join_conn_onOpen (join_peer_onOpen conn (joinRoom snap peer w)) in
  let final := receive_onData snap (transfer_messages file) joined in
  peerRef (refs joined) = Some peer /\
  connectionRef (refs joined) = Some conn /\
  connectionStatus (state joined) = "connected" /\
  connectionReady (state joined) = true /\
  connectionStatus (state final) = "connected" /\
  connectionReady (state final) = true /\
  connectionRef (refs final) = Some conn /\
  transferStatus (state final) = "completed" /\
  receivedFileName (state final) = or_string (Some (File.name file)) "unknown" /\
  sent_messages (effects_since joined final) = [] /\
  effects_since joined final =
    [ToastInfo (String.append "Receiving file: "
                  (or_string (Some (File.name file)) "unknown"));
     Download (str_or (receivedFileName (state w)) "downloaded_file")
       (str_or (receivedFileType (state w)) "application/octet-stream")
       (File.bytes file);
     ToastSuccess "File downloaded successfully!"].
Proof.
  intros Hcode Hready Hsize snap joined final.
  apply String.eqb_neq in Hcode.
  assert (Hj : joined =
    mkWorld
      (mkState (roomId (state w)) (joinMode (state w)) (joinRoomId (state w)) "connected"
         (selectedFile (state w)) (transferProgress (state w)) (transferStatus (state w))
         (receivedFileName (state w)) (receivedFileSize (state w))
         (receivedFileType (state w)) true true)
      (mkRefs (Some peer) (Some conn) (fileChunksRef (refs w)) (totalChunksRef (refs w))
         (receivedChunksRef (refs w)))
      (effects w ++ [ToastSuccess "Connected to sender! Waiting for files..."])
      (pending w)).
  { unfold joined, joinRoom, snap. rewrite Hcode.
    destruct w as [s r es p]. reflexivity. }
  assert (Hf : final = receiver_done snap joined file).
  { unfold final. rewrite receive_onData_objects by apply transfer_messages_objects.
    apply receive_transfer. exact Hsize. }
  assert (He : effects final =
    effects joined ++
    [ToastInfo (String.append "Receiving file: "
                  (or_string (Some (File.name file)) "unknown"));
     Download (str_or (receivedFileName (state w)) "downloaded_file")
       (str_or (receivedFileType (state w)) "application/octet-stream")
       (File.bytes file);
     ToastSuccess "File downloaded successfully!"]).
  { rewrite Hf. unfold receiver_done, announced, delivery, acknowledgement, snap.
    cbn [effects]. rewrite Hready.
    destruct (connectionRef (refs joined)); rewrite <- !app_assoc; reflexivity. }
  rewrite (effects_since_app joined final _ He).
  rewrite Hf, Hj. split_all; reflexivity.
Qed.

Lemma connected_receiver_sends_no_acknowledgement_witness :
  let joined :=
    join_conn_onOpen
      (join_peer_onOpen 4%nat (joinRoom joining_state 3%nat joining_receiver)) in
  let final := receive_onData joining_state (transfer_messages sample_file) joined in
  trim (joinRoomId (state joining_receiver)) <> "" /\
  connectionReady (state joining_receiver) = false /\
  0 < File.size sample_file /\
  connectionStatus (state final) = "connected" /\
  connectionReady (state final) = true /\
  connectionRef (refs final) = Some 4%nat /\
  transferStatus (state final) = "completed" /\
  sent_messages (effects_since joined final) = [].
Proof.
  assert (Hcode : trim (joinRoomId (state joining_receiver)) <> "")
    by (vm_compute; discriminate).
  assert (Hready : connectionReady (state joining_receiver) = false) by reflexivity.
  pose proof (connected_receiver_sends_no_acknowledgement joining_receiver 3%nat 4%nat
                sample_file Hcode Hready sample_file_size)
    as (_ & _ & _ & _ & H1 & H2 & H3 & H4 & _ & H5 & _).
  intros joined final.
  split; [exact Hcode|]. split; [exact Hready|]. split; [exact sample_file_size|].
  split; [exact H1|]. split; [exact H2|]. split; [exact H3|].
  split; [exact H4 | exact H5].
Defined.

(** ** A file picked while the connection is open *)

Lemma reading_chunk_task (file : File.t) (j : nat) (w : World) :
  reading_chunk file j w = schedule (task_at file j) w.
Proof.
  unfold reading_chunk, sendNextChunk, task_at, job_at. cbn [job_file].
  destruct (_ <=? _); reflexivity.
Qed.

Lemma sendNextChunk_first (file : File.t) :
  sendNextChunk (mkJob file (totalChunks file) 0 true) 0 = schedule (task_at file 0).
Proof.
  unfold sendNextChunk, task_at, job_at. rewrite chunk_start_0. cbn [job_file Z.of_nat].
  destruct (_ <=? _); reflexivity.
Qed.

Lemma twice_each_app {A} (l1 l2 : list A) :
  twice_each (l1 ++ l2) = twice_each l1 ++ twice_each l2.
Proof. apply flat_map_app. Qed.

Lemma twice_each_map {A B} (f : A -> B) (l : list A) :
  twice_each (map f l) = map f (twice_each l).
Proof.
  induction l as [|x l IH]; [reflexivity|].
  change (twice_each (map f (x :: l))) with (f x :: f x :: twice_each (map f l)).
  rewrite IH. reflexivity.
Qed.

Lemma twice_each_length {A} (l : list A) :
  length (twice_each l) = (2 * length l)%nat.
Proof.
  induction l as [|x l IH]; [reflexivity|].
  change (twice_each (x :: l)) with (x :: x :: twice_each l).
  cbn [length]. rewrite IH. lia.
Qed.

Lemma twice_each_Forall {A} (P : A -> Prop) (l : list A) :
  Forall P l -> Forall P (twice_each l).
Proof.
  induction 1 as [|x l Hx _ IH]; [constructor|].
  change (twice_each (x :: l)) with (x :: x :: twice_each l).
  constructor; [exact Hx|]. constructor; [exact Hx | exact IH].
Qed.

Lemma twice_each_In {A} (x : A) (l : list A) : In x l -> In x (twice_each l).
Proof.
  induction l as [|y l IH]; [intros []|].
  change (twice_each (y :: l)) with (y :: y :: twice_each l).
  intros [->|H]; [left; reflexivity | right; right; apply IH, H].
Qed.

Lemma chunks_sent_twice_frame (conn : DataConnection) (file : File.t) (k : nat) :
  forall (j : nat) (w : World),
    refs (chunks_sent_twice conn file j k w) = refs w /\
    pending (chunks_sent_twice conn file j k w) = pending w /\
    effects (chunks_sent_twice conn file j k w) =
    effects w ++ map (fun i => Send conn (chunk_message file i)) (twice_each (seq j k)) /\
    selectedFile (state (chunks_sent_twice conn file j k w)) = selectedFile (state w).
Proof.
  induction k as [|k IH]; intros j w; cbn [chunks_sent_twice seq].
  - cbn [twice_each flat_map map]. rewrite app_nil_r. split_all; reflexivity.
  - destruct (IH (S j) (chunk_sent conn file j (chunk_sent conn file j w)))
      as (Hr & Hp & He & Hs).
    rewrite Hr, Hp, He, Hs.
    change (twice_each (j :: seq (S j) k)) with (j :: j :: twice_each (seq (S j) k)).
    cbn [map]. split_all; try reflexivity.
    cbn [chunk_sent]. unfold chunk_sent. run_handler.
    rewrite <- !app_assoc. reflexivity.
Qed.

Section Lockstep.
Variables (conn : DataConnection) (file : File.t).

Lemma step_first_of_two (j : nat) (t : Task) (w : World) :
  pending w = [] -> connectionRef (refs w) = Some conn ->
  (j < chunk_count file)%nat ->
  step ReadLoaded (schedule t (schedule (task_at file j) w)) =
  schedule (task_at file (S j)) (schedule t (chunk_sent conn file j w)).
Proof.
  intros Hp Hc Hj. destruct (chunk_start_inside file j Hj) as [_ Hlt].
  rewrite <- (reading_chunk_task file (S j)).
  destruct w as [s r es p]. cbn in Hp, Hc. subst p.
  unfold task_at, reading_chunk. cbv zeta.
  destruct (Z.leb_spec (File.size file) (chunk_start file j)) as [Hle|_]; [lia|].
  rewrite chunk_start_succ.
  unfold schedule at 1 2. cbn [pending app state refs effects].
  unfold step. cbn [pending run_task state refs effects].
  unfold reader_onload, job_at.
  cbn [refs job_connectionReady job_chunksProcessed job_totalChunks job_file].
  rewrite Hc. replace (Z.of_nat j + 1) with (Z.of_nat (S j)) by lia.
  reflexivity.
Qed.

Lemma step_timer_of_two (t : Task) (w : World) :
  pending w = [] -> connectionRef (refs w) = Some conn ->
  step ReadLoaded (schedule t (schedule (task_at file (chunk_count file)) w)) =
  schedule t ((send conn FILE_COMPLETE ;; setTransferStatus "sent") w).
Proof.
  intros Hp Hc. destruct w as [s r es p]. cbn in Hp, Hc. subst p.
  unfold task_at. cbv zeta. rewrite chunk_start_end, Z.leb_refl.
  unfold step, schedule. cbn [pending app run_task state refs effects].
  unfold complete_timeout, job_at. cbn [refs job_connectionReady]. rewrite Hc.
  reflexivity.
Qed.

Lemma lockstep_run (k : nat) :
  forall (j : nat) (w : World),
    pending w = [] -> connectionRef (refs w) = Some conn ->
    (j + k <= chunk_count file)%nat ->
    run (2 * k) (schedule (task_at file j) (schedule (task_at file j) w)) =
    schedule (task_at file (j + k))
      (schedule (task_at file (j + k)) (chunks_sent_twice conn file j k w)).
Proof.
  induction k as [|k IH]; intros j w Hp Hc Hj.
  - rewrite Nat.add_0_r. reflexivity.
  - replace (2 * S k)%nat with (S (S (2 * k))) by lia. cbn [run chunks_sent_twice].
    destruct (chunk_sent_frame conn file j w) as (Hr1 & Hp1 & _).
    destruct (chunk_sent_frame conn file j (chunk_sent conn file j w)) as (Hr2 & Hp2 & _).
    rewrite step_first_of_two by (auto; lia).
    rewrite step_first_of_two by (rewrite ?Hr1, ?Hp1; auto; lia).
    rewrite IH by (rewrite ?Hr2, ?Hp2, ?Hr1, ?Hp1; auto; lia).
    replace (S j + k)%nat with (j + S k)%nat by lia. reflexivity.
Qed.

Lemma lockstep_finishes (w : World) :
  pending w = [] -> connectionRef (refs w) = Some conn ->
  run (2 * S (chunk_count file))
    (schedule (task_at file 0) (schedule (task_at file 0) w)) =
  (send conn FILE_COMPLETE ;; setTransferStatus "sent")
    ((send conn FILE_COMPLETE ;; setTransferStatus "sent")
       (chunks_sent_twice conn file 0 (chunk_count file) w)).
Proof.
  intros Hp Hc.
  replace (2 * S (chunk_count file))%nat with (2 * chunk_count file + 2)%nat by lia.
  rewrite run_add, lockstep_run by (auto; lia). cbn [Nat.add run].
  destruct (chunks_sent_twice_frame conn file (chunk_count file) 0 w) as (Hr & Hp' & _).
  set (v := chunks_sent_twice conn file 0 (chunk_count file) w) in *.
  rewrite step_timer_of_two by (rewrite ?Hr, ?Hp'; auto).
  rewrite <- reading_chunk_task. apply reading_chunk_last.
  - change (pending v = []). rewrite Hp'. exact Hp.
  - change (connectionRef (refs v) = Some conn). rewrite Hr. exact Hc.
Qed.

End Lockstep.

Lemma progressPercent_double (n : Z) : 0 < n -> progressPercent (2 * n) n = Finite 200.
Proof.
  intros Hn. rewrite progressPercent_finite by lia.
  assert (E : (inject_Z (2 * n) / inject_Z n == 2)%Q).
  { rewrite inject_Z_mult. field. intros H0.
    apply (inject_Z_injective n 0) in H0. lia. }
  assert (E' : (Binary64.fl64 (Binary64.fl64 (inject_Z (2 * n) / inject_Z n) * 100)
                  + (1 # 2) ==
                Binary64.fl64 (Binary64.fl64 2 * 100) + (1 # 2))%Q).
  { apply Qplus_comp; [|reflexivity]. apply Binary64Facts.fl64_Proper.
    apply Qmult_comp; [|reflexivity]. apply Binary64Facts.fl64_Proper. exact E. }
  rewrite (Qfloor_comp _ _ E'). reflexivity.
Qed.

(** X12.  A file picked while the connection is open is sent twice:
    [handleFileChange] starts a transfer, and the effect on
    [selectedFile], which runs after the render that follows, starts a
    second one.  With the reads served in the order of their requests every
    message of the transfer goes out twice; a receiver of these messages
    counts twice the announced chunks, shows 200 percent and downloads the
    file twice. *)
Theorem picked_while_connected_is_sent_twice
    (w rw : World) (rsnap : State) (conn : DataConnection) (file : File.t) :
  sender_ready (state w) conn w ->
  let picked := handleFileChange (state w) [file] w in
  let started := sendWhenReady (state picked) picked in
  let final := run (2 * S (chunk_count file)) started in
  let messages := sent_messages (effects_since w final) in
  let receiver := receive rsnap messages rw in
  pending picked = [task_at file 0] /\
  pending started = [task_at file 0; task_at file 0] /\
  pending final = [] /\
  transferStatus (state final) = "sent" /\
  selectedFile (state final) = Some file /\
  messages = twice_each (transfer_messages file) /\
  (0 < File.size file ->
   downloads (effects_since rw receiver) = [File.bytes file; File.bytes file] /\
   receivedChunksRef (refs receiver) = 2 * totalChunks file /\
   totalChunksRef (refs receiver) = totalChunks file /\
   progress_of receiver = Finite 200).
Proof.
  intros (Hc & Hs & Hr & Hp) picked started final messages receiver.
  set (w0 := mkWorld
               (mkState (roomId (state w)) (joinMode (state w)) (joinRoomId (state w))
                  (connectionStatus (state w)) (Some file) (transferProgress (state w))
                  "preparing" (receivedFileName (state w)) (receivedFileSize (state w))
                  (receivedFileType (state w)) (peerReady (state w))
                  (connectionReady (state w)))
               (refs w)
               (effects w ++ [Send conn (FILE_METADATA file); Send conn (FILE_METADATA file)])
               []).
  assert (Hpicked : picked =
    schedule (task_at file 0)
      (mkWorld (state w0) (refs w)
         (effects w ++ [Send conn (FILE_METADATA file)]) [])).
  { unfold picked, handleFileChange, andThen.
    change (refs (setSelectedFile (Some file) w)) with (refs w).
    rewrite Hc, Hs, Hr. cbn [andb String.eqb Ascii.eqb Bool.eqb].
    unfold sendFile.
    change (refs (setSelectedFile (Some file) w)) with (refs w).
    rewrite Hc, Hs, Hr. cbn [andb String.eqb Ascii.eqb Bool.eqb].
    rewrite sendNextChunk_first.
    destruct w as [s r es p]. cbn in Hp. subst p. reflexivity. }
  assert (Hstarted : started = schedule (task_at file 0) (schedule (task_at file 0) w0)).
  { assert (H1 : selectedFile (state w0) = Some file) by reflexivity.
    assert (H2 : connectionReady (state w0) = true) by exact Hr.
    assert (H3 : connectionStatus (state w0) = "connected") by exact Hs.
    unfold started. rewrite Hpicked. unfold sendWhenReady.
    change (state (schedule ?t ?v)) with (state v). cbn [state].
    rewrite H1, H2, H3. cbn [andb String.eqb Ascii.eqb Bool.eqb].
    unfold sendFile.
    change (refs (schedule ?t ?v)) with (refs v). cbn [refs].
    rewrite Hc, H2, H3. cbn [andb String.eqb Ascii.eqb Bool.eqb].
    rewrite sendNextChunk_first.
    unfold andThen, send, emit, setTransferStatus, updState, schedule.
    cbn [state refs effects pending app]. unfold w0.
    rewrite <- app_assoc. reflexivity. }
  assert (Hfinal : final =
    (send conn FILE_COMPLETE ;; setTransferStatus "sent")
      ((send conn FILE_COMPLETE ;; setTransferStatus "sent")
         (chunks_sent_twice conn file 0 (chunk_count file) w0))).
  { unfold final. rewrite Hstarted. apply lockstep_finishes; [reflexivity | exact Hc]. }
  destruct (chunks_sent_twice_frame conn file (chunk_count file) 0 w0)
    as (Fr & Fp & Fe & Fs).
  set (v := chunks_sent_twice conn file 0 (chunk_count file) w0) in *.
  assert (Heff : effects final =
    effects w ++ map (Send conn) (twice_each (transfer_messages file))).
  { rewrite Hfinal. unfold andThen, send, setTransferStatus, updState, emit.
    cbn [effects]. rewrite Fe. cbn [effects w0]. unfold transfer_messages.
    change (twice_each (FILE_METADATA file :: ?l))
      with (FILE_METADATA file :: FILE_METADATA file :: twice_each l).
    rewrite twice_each_app, twice_each_map. cbn [map].
    rewrite map_app, !map_map. cbn [twice_each flat_map map app].
    rewrite <- !app_assoc. reflexivity. }
  assert (Hmessages : messages = twice_each (transfer_messages file)).
  { unfold messages. rewrite (effects_since_app w final _ Heff).
    apply sent_messages_sends. }
  split_all.
  - rewrite Hpicked. reflexivity.
  - rewrite Hstarted. reflexivity.
  - rewrite Hfinal. unfold andThen, send, setTransferStatus, updState, emit.
    cbn [pending]. exact Fp.
  - rewrite Hfinal. reflexivity.
  - rewrite Hfinal. unfold andThen, send, setTransferStatus, updState, emit.
    cbn [state selectedFile]. exact Fs.
  - exact Hmessages.
  - intros Hsize. unfold receiver. rewrite Hmessages. unfold transfer_messages.
    change (twice_each (FILE_METADATA file :: ?l))
      with (FILE_METADATA file :: FILE_METADATA file :: twice_each l).
    rewrite twice_each_app, twice_each_map.
    change (twice_each [FILE_COMPLETE]) with [FILE_COMPLETE; FILE_COMPLETE].
    set (l := twice_each (seq 0 (chunk_count file))).
    change (receive rsnap (FILE_METADATA file :: FILE_METADATA file
                             :: map (chunk_message file) l
                                ++ [FILE_COMPLETE; FILE_COMPLETE]) rw)
      with (receive rsnap (FILE_METADATA file :: map (chunk_message file) l
                             ++ [FILE_COMPLETE; FILE_COMPLETE])
              (handleReceivedData rsnap (FILE_METADATA file) rw)).
    set (rw1 := handleReceivedData rsnap (FILE_METADATA file) rw).
    assert (Hl : Forall (fun i => (i < chunk_count file)%nat) l).
    { apply twice_each_Forall, List.Forall_forall. intros i Hi.
      apply in_seq in Hi. lia. }
    assert (Hall : forall i : nat, (i < chunk_count file)%nat -> In i l).
    { intros i Hi. apply twice_each_In, in_seq. lia. }
    rewrite app_comm_cons, receive_app, (receive_any rsnap rw1 file l Hl).
    set (mid := receiver_after_any rsnap rw1 file l).
    assert (Hchunks : fileChunksRef (refs mid) =
                      map (fun i => Some (nth_chunk file i)) (seq 0 (chunk_count file)))
      by (apply stored_chunks_all; assumption).
    assert (Hbytes : stored_bytes (fileChunksRef (refs mid)) = File.bytes file)
      by (rewrite Hchunks; apply stored_bytes_received).
    pose proof (size_bounds file) as Hb.
    assert (Hnn : stored_bytes (fileChunksRef (refs mid)) <> []).
    { rewrite Hbytes. intros E. unfold File.size in Hsize. rewrite E in Hsize.
      cbn in Hsize. lia. }
    assert (Hne : fileChunksRef (refs mid) <> []).
    { intros E. apply Hnn. rewrite E. reflexivity. }
    change (receive rsnap [FILE_COMPLETE; FILE_COMPLETE] mid)
      with (assembleAndDownloadFile rsnap (assembleAndDownloadFile rsnap mid)).
    pose proof (assemble_delivers rsnap mid Hne Hnn) as H1.
    set (once := assembleAndDownloadFile rsnap mid) in *.
    assert (Hrefs : refs once = refs mid) by (rewrite H1; reflexivity).
    assert (Hne' : fileChunksRef (refs once) <> []) by (rewrite Hrefs; exact Hne).
    assert (Hnn' : stored_bytes (fileChunksRef (refs once)) <> [])
      by (rewrite Hrefs; exact Hnn).
    rewrite (assemble_delivers rsnap once Hne' Hnn'), Hrefs, Hbytes.
    pose proof (totalChunks_pos file Hsize) as Hn.
    pose proof (chunk_count_Z file) as Hcz.
    assert (Hlen : length l = (2 * chunk_count file)%nat).
    { unfold l. rewrite twice_each_length, length_seq. reflexivity. }
    assert (Hlne : l <> []).
    { intros E. rewrite E in Hlen. cbn in Hlen. lia. }
    split_all.
    + rewrite (effects_since_app rw _
                 ([ToastInfo (String.append "Receiving file: "
                                (or_string (Some (File.name file)) "unknown"));
                   ToastInfo (String.append "Receiving file: "
                                (or_string (Some (File.name file)) "unknown"))]
                  ++ ([Download (str_or (receivedFileName rsnap) "downloaded_file")
                         (str_or (receivedFileType rsnap) "application/octet-stream")
                         (File.bytes file);
                       ToastSuccess "File downloaded successfully!"]
                      ++ acknowledgement rsnap (refs mid))
                  ++ ([Download (str_or (receivedFileName rsnap) "downloaded_file")
                         (str_or (receivedFileType rsnap) "application/octet-stream")
                         (File.bytes file);
                       ToastSuccess "File downloaded successfully!"]
                      ++ acknowledgement rsnap (refs mid)))).
      * unfold downloads, acknowledgement.
        destruct (connectionRef (refs mid)), (connectionReady rsnap); reflexivity.
      * cbn [effects]. rewrite H1. cbn [effects]. rewrite Hbytes.
        unfold mid, receiver_after_any, announced. cbn [effects].
        unfold rw1. rewrite (receive_metadata rsnap rw file).
        unfold receiver_after, announced. cbn [effects].
        rewrite <- !app_assoc. reflexivity.
    + cbn [refs]. unfold mid, receiver_after_any. cbn [refs receivedChunksRef]. lia.
    + cbn [refs]. unfold mid, receiver_after_any. cbn [refs totalChunksRef].
      destruct l; [contradiction | reflexivity].
    + unfold progress_of. cbn [state]. unfold setTransferStatus, updState.
      cbn [state transferProgress]. rewrite H1. cbn [state transferProgress].
      unfold mid, receiver_after_any, receiving_state. cbn [state transferProgress].
      unfold progress_after. rewrite Hlen.
      destruct (2 * chunk_count file)%nat as [|k] eqn:Ek; [lia|]. rewrite <- Ek.
      replace (Z.of_nat (2 * chunk_count file)) with (2 * totalChunks file) by lia.
      apply progressPercent_double. exact Hn.
Qed.

(** ** A file picked before the receiver connects *)

(** X13.  A file picked while nobody is connected is only announced; when
    the receiver then connects, the effect on [connectionReady] starts the
    one transfer: every message goes out once.  The delayed send of the
    open handler is not armed, since the render that installed the handler
    had no file selected. *)
Theorem picked_before_connection_is_sent_once
    (w : World) (esnap : State) (conn : DataConnection) (file : File.t) :
  connectionStatus (state w) <> "connected" ->
  selectedFile esnap = None ->
  pending w = [] ->
  let picked := handleFileChange (state w) [file] w in
  let opened := sender_conn_onOpen (sender_onConnection conn picked) in
  let started := sendWhenReady (state opened) opened in
  let final := run (S (chunk_count file)) started in
  effects_since w picked =
    [ToastInfo "File selected. It will be sent when the receiver connects."] /\
  pending picked = [] /\
  sender_conn_onOpen_timer esnap = None /\
  effects_since picked opened =
    [ToastSuccess "Receiver connected! You can now send files."] /\
  sent_messages (effects_since opened final) = transfer_messages file /\
  pending final = [] /\
  transferStatus (state final) = "sent" /\
  selectedFile (state final) = Some file.
Proof.
  intros Hs He Hp picked opened started final.
  apply String.eqb_neq in Hs.
  assert (Hpicked : picked =
    mkWorld (state (setSelectedFile (Some file) w)) (refs w)
      (effects w ++ [ToastInfo "File selected. It will be sent when the receiver connects."])
      []).
  { unfold picked, handleFileChange, andThen. rewrite Hs. cbn [andb negb].
    destruct w as [s r es p]. cbn in Hp. subst p. reflexivity. }
  assert (Hopened : opened =
    mkWorld
      (mkState (roomId (state w)) (joinMode (state w)) (joinRoomId (state w)) "connected"
         (Some file) (transferProgress (state w)) (transferStatus (state w))
         (receivedFileName (state w)) (receivedFileSize (state w))
         (receivedFileType (state w)) (peerReady (state w)) true)
      (mkRefs (peerRef (refs w)) (Some conn) (fileChunksRef (refs w))
         (totalChunksRef (refs w)) (receivedChunksRef (refs w)))
      (effects picked ++ [ToastSuccess "Receiver connected! You can now send files."])
      []).
  { unfold opened. rewrite Hpicked. destruct w as [s r es p]. reflexivity. }
  assert (Hready : sender_ready (state opened) conn opened).
  { rewrite Hopened. unfold sender_ready. split_all; reflexivity. }
  assert (Hstarted : started = sendFile (state opened) file opened).
  { unfold started, sendWhenReady. rewrite Hopened. reflexivity. }
  unfold final. rewrite Hstarted.
  rewrite (sender_finishes (state opened) conn opened file Hready).
  split_all.
  - rewrite Hpicked. apply effects_since_mk.
  - rewrite Hpicked. reflexivity.
  - exact He.
  - rewrite Hopened. apply effects_since_mk.
  - rewrite (effects_since_app opened _ (map (Send conn) (transfer_messages file))).
    + apply sent_messages_sends.
    + unfold sender_done, sent_so_far, transfer_messages. cbn [effects map].
      rewrite map_app, map_map, <- app_assoc. reflexivity.
  - reflexivity.
  - reflexivity.
  - rewrite Hopened. reflexivity.
Qed.

(** ** Room codes *)







(** ** The further properties at the sample data *)

Lemma sample_chunk_count : chunk_count sample_file = 4%nat.
Proof. vm_compute. reflexivity. Qed.

Lemma two_chunks_sent : (2 <= chunk_count sample_file)%nat.
Proof. rewrite sample_chunk_count. lia. Qed.

Lemma resetFileSelection_does_not_cancel_witness :
  let mid := run 2 (sendFile connected_state sample_file connected_sender) in
  let final := run (S (chunk_count sample_file - 2)) (resetFileSelection mid) in
  sender_ready connected_state 2%nat connected_sender /\
  (2 <= chunk_count sample_file)%nat /\
  sent_messages (effects final) =
    sent_messages (effects connected_sender) ++ transfer_messages sample_file /\
  transferStatus (state final) = "sent" /\
  selectedFile (state final) = None.
Proof.
  pose proof (resetFileSelection_does_not_cancel connected_state 2%nat connected_sender
                sample_file sample_sender_ready 2%nat two_chunks_sent)
    as (_ & H1 & H2 & H3 & _).
  intros mid final.
  split; [exact sample_sender_ready|]. split; [exact two_chunks_sent|].
  split; [exact H1|]. split; [exact H2 | exact H3].
Defined.

Lemma close_does_not_cancel_witness :
  let mid := run 2 (sendFile connected_state sample_file connected_sender) in
  let final := run (S (chunk_count sample_file - 2)) (conn_onClose mid) in
  sender_ready connected_state 2%nat connected_sender /\
  (2 <= chunk_count sample_file)%nat /\
  sent_messages (effects final) =
    sent_messages (effects connected_sender) ++ transfer_messages sample_file /\
  transferStatus (state final) = "sent" /\
  connectionStatus (state final) = "disconnected".
Proof.
  pose proof (close_does_not_cancel connected_state 2%nat connected_sender
                sample_file sample_sender_ready 2%nat two_chunks_sent)
    as (_ & H1 & H2 & H3 & _).
  intros mid final.
  split; [exact sample_sender_ready|]. split; [exact two_chunks_sent|].
  split; [exact H1|]. split; [exact H2 | exact H3].
Defined.

Lemma failed_read_aborts_witness :
  let mid := run 2 (sendFile connected_state sample_file connected_sender) in
  let failed := step ReadFailed mid in
  sender_ready connected_state 2%nat connected_sender /\
  (2 < chunk_count sample_file)%nat /\
  pending failed = [] /\
  transferStatus (state failed) = "error" /\
  run 7 failed = failed.
Proof.
  assert (Hj : (2 < chunk_count sample_file)%nat)
    by (rewrite sample_chunk_count; lia).
  pose proof (failed_read_aborts connected_state 2%nat connected_sender
                sample_file sample_sender_ready 2%nat 7%nat Hj)
    as (H1 & _ & H2 & _ & H3 & _).
  intros mid failed.
  split; [exact sample_sender_ready|]. split; [exact Hj|].
  split; [exact H1|]. split; [exact H2 | exact H3].
Defined.

Lemma switchMode_during_transfer_witness :
  let mid := run 2 (sendFile connected_state sample_file connected_sender) in
  let final := step ReadLoaded (switch_click "1a2b3c4d" 5%nat mid) in
  sender_ready connected_state 2%nat connected_sender /\
  (2 <= chunk_count sample_file)%nat /\
  pending final = [] /\
  connectionRef (refs final) = None /\
  sent_messages (effects_since mid final) = [].
Proof.
  pose proof (switchMode_during_transfer connected_state 2%nat connected_sender
                sample_file sample_sender_ready 2%nat "1a2b3c4d" 5%nat two_chunks_sent)
    as (H1 & _ & H2 & _ & H3 & _).
  intros mid final.
  split; [exact sample_sender_ready|]. split; [exact two_chunks_sent|].
  split; [exact H1|]. split; [exact H2 | exact H3].
Defined.

Lemma receiver_counts_what_it_stores_witness :
  let w' :=
    receive joined_state [FILE_CHUNK full_chunk 2 3; first_metadata;
                          FILE_CHUNK full_chunk 1 2] connected_receiver in
  Z.of_nat (stored_count (fileChunksRef (refs connected_receiver)))
    <= receivedChunksRef (refs connected_receiver) /\
  no_trailing_hole (fileChunksRef (refs connected_receiver)) /\
  Z.of_nat (stored_count (fileChunksRef (refs w'))) <= receivedChunksRef (refs w') /\
  no_trailing_hole (fileChunksRef (refs w')).
Proof.
  assert (Hc : Z.of_nat (stored_count (fileChunksRef (refs connected_receiver)))
               <= receivedChunksRef (refs connected_receiver)) by (cbn; lia).
  assert (Hh : no_trailing_hole (fileChunksRef (refs connected_receiver)))
    by (left; reflexivity).
  pose proof (receiver_counts_what_it_stores joined_state
                [FILE_CHUNK full_chunk 2 3; first_metadata; FILE_CHUNK full_chunk 1 2]
                connected_receiver Hc Hh) as (H1 & H2 & _).
  intros w'.
  split; [exact Hc|]. split; [exact Hh|]. split; [exact H1 | exact H2].
Defined.

Lemma total_is_latched_witness :
  totalChunksRef (refs half_received) <> 0 /\
  forallb (fun m => negb (is_metadata m))
    [FILE_CHUNK full_chunk 1 5; FILE_COMPLETE] = true /\
  totalChunksRef
    (refs (receive joined_state [FILE_CHUNK full_chunk 1 5; FILE_COMPLETE] half_received))
  = totalChunksRef (refs half_received).
Proof.
  assert (Hne : totalChunksRef (refs half_received) <> 0) by (vm_compute; discriminate).
  assert (Hms : forallb (fun m => negb (is_metadata m))
                  [FILE_CHUNK full_chunk 1 5; FILE_COMPLETE] = true) by reflexivity.
  split; [exact Hne|]. split; [exact Hms|].
  exact (total_is_latched joined_state [FILE_CHUNK full_chunk 1 5; FILE_COMPLETE]
           half_received Hne Hms).
Defined.

Lemma reassembly_ignores_order_and_repeats_witness :
  let final :=
    receive joined_state
      (FILE_METADATA sample_file
         :: map (chunk_message sample_file) [3; 1; 0; 2; 1]%nat ++ [FILE_COMPLETE])
      connected_receiver in
  0 < File.size sample_file /\
  Forall (fun i => (i < chunk_count sample_file)%nat) [3; 1; 0; 2; 1]%nat /\
  (forall i : nat, (i < chunk_count sample_file)%nat -> In i [3; 1; 0; 2; 1]%nat) /\
  downloads (effects_since connected_receiver final) = [File.bytes sample_file] /\
  receivedChunksRef (refs final) = 5.
Proof.
  assert (Hl : Forall (fun i => (i < chunk_count sample_file)%nat) [3; 1; 0; 2; 1]%nat).
  { rewrite sample_chunk_count. repeat constructor. }
  assert (Hall : forall i : nat,
             (i < chunk_count sample_file)%nat -> In i [3; 1; 0; 2; 1]%nat).
  { rewrite sample_chunk_count. intros i Hi.
    destruct i as [|[|[|[|i]]]]; cbn; auto 10. lia. }
  pose proof (reassembly_ignores_order_and_repeats joined_state connected_receiver
                sample_file [3; 1; 0; 2; 1]%nat sample_file_size Hl Hall)
    as (_ & H1 & _ & H2).
  intros final.
  split; [exact sample_file_size|]. split; [exact Hl|]. split; [exact Hall|].
  split; [exact H1 | exact H2].
Defined.

Lemma new_transfer_supersedes_witness :
  let final :=
    receive joined_state
      ((FILE_METADATA sample_file :: map (chunk_message sample_file) (seq 0 2))
       ++ transfer_messages small_file) connected_receiver in
  (2 <= chunk_count sample_file)%nat /\
  0 < File.size small_file /\
  downloads (effects_since connected_receiver final) = [File.bytes small_file] /\
  receivedFileName (state final) = "note.txt".
Proof.
  assert (Hsize : 0 < File.size small_file) by reflexivity.
  pose proof (new_transfer_supersedes joined_state connected_receiver sample_file
                small_file 2%nat two_chunks_sent Hsize) as (H1 & _ & _ & H2 & _).
  intros final.
  split; [exact two_chunks_sent|]. split; [exact Hsize|].
  split; [exact H1 | exact H2].
Defined.

Lemma empty_file_is_not_delivered_witness :
  let sender := run 1 (sendFile connected_state empty_file connected_sender) in
  let messages := sent_messages (effects_since connected_sender sender) in
  let receiver := receive joined_state messages connected_receiver in
  File.size empty_file = 0 /\
  sender_ready connected_state 2%nat connected_sender /\
  messages = [FILE_METADATA empty_file; FILE_COMPLETE] /\
  transferStatus (state receiver) = "error" /\
  downloads (effects_since connected_receiver receiver) = [].
Proof.
  assert (Hsize : File.size empty_file = 0) by reflexivity.
  pose proof (empty_file_is_not_delivered connected_state joined_state 2%nat
                connected_sender connected_receiver empty_file Hsize sample_sender_ready)
    as (H1 & _ & _ & _ & H2 & H3 & _).
  intros sender messages receiver.
  split; [exact Hsize|]. split; [exact sample_sender_ready|].
  split; [exact H1|]. split; [exact H2 | exact H3].
Defined.

Lemma full_progress_before_last_chunk_witness :
  let w' := handleReceivedData joined_state (FILE_CHUNK [x61] 198 200) nearly_complete in
  200 <= 200 /\
  totalChunksRef (refs nearly_complete) = 200 /\
  receivedChunksRef (refs nearly_complete) = 200 - 2 /\
  receivedChunksRef (refs w') = 200 - 1 /\
  progress_of w' = Finite 100.
Proof.
  assert (Hn : 200 <= 200) by lia.
  assert (Ht : totalChunksRef (refs nearly_complete) = 200) by reflexivity.
  assert (Hr : receivedChunksRef (refs nearly_complete) = 200 - 2) by reflexivity.
  pose proof (full_progress_before_last_chunk joined_state nearly_complete [x61] 198 200
                Hn Ht Hr) as (H1 & _ & H2 & _).
  intros w'.
  split; [exact Hn|]. split; [exact Ht|]. split; [exact Hr|].
  split; [exact H1 | exact H2].
Defined.

Lemma watchdog_depends_on_snapshot_witness :
  let waiting :=
    receive joined_state
      (FILE_METADATA sample_file
         :: map (chunk_message sample_file) (seq 0 (chunk_count sample_file)))
      connected_receiver in
  0 < File.size sample_file /\
  pending connected_receiver = [] /\
  pending waiting <> [] /\
  transferStatus (state waiting) = "receiving" /\
  stored_bytes (fileChunksRef (refs waiting)) = File.bytes sample_file.
Proof.
  assert (Hp : pending connected_receiver = []) by reflexivity.
  pose proof (watchdog_depends_on_snapshot joined_state connected_receiver sample_file
                sample_file_size Hp) as (H1 & H2 & H3 & _).
  intros waiting.
  split; [exact sample_file_size|]. split; [exact Hp|].
  split; [exact H1|]. split; [exact H2 | exact H3].
Defined.

Lemma picked_while_connected_is_sent_twice_witness :
  let picked := handleFileChange (state connected_sender) [sample_file] connected_sender in
  let started := sendWhenReady (state picked) picked in
  let final := run (2 * S (chunk_count sample_file)) started in
  sender_ready (state connected_sender) 2%nat connected_sender /\
  pending final = [] /\
  sent_messages (effects_since connected_sender final) =
    twice_each (transfer_messages sample_file).
Proof.
  pose proof (picked_while_connected_is_sent_twice connected_sender connected_receiver
                joined_state 2%nat sample_file sample_sender_ready)
    as (_ & _ & H1 & _ & _ & H2 & _).
  intros picked started final.
  split; [exact sample_sender_ready|]. split; [exact H1 | exact H2].
Defined.

Lemma picked_before_connection_is_sent_once_witness :
  let w := mkWorld waiting_state (mkRefs (Some 1%nat) None [] 0 0) [] [] in
  let picked := handleFileChange (state w) [sample_file] w in
  let opened := sender_conn_onOpen (sender_onConnection 2%nat picked) in
  let final :=
    run (S (chunk_count sample_file)) (sendWhenReady (state opened) opened) in
  connectionStatus (state w) <> "connected" /\
  selectedFile initialState = None /\
  pending w = [] /\
  sent_messages (effects_since opened final) = transfer_messages sample_file /\
  pending final = [].
Proof.
  intros w.
  assert (Hs : connectionStatus (state w) <> "connected") by discriminate.
  assert (He : selectedFile initialState = None) by reflexivity.
  assert (Hp : pending w = []) by reflexivity.
  pose proof (picked_before_connection_is_sent_once w initialState 2%nat sample_file
                Hs He Hp) as (_ & _ & _ & _ & H1 & H2 & _).
  intros picked opened final.
  split; [exact Hs|]. split; [exact He|]. split; [exact Hp|].
  split; [exact H1 | exact H2].
Defined.
